(** * NvPipe decode side ([decode.c]): a shallow embedding and its properties

    The session structure [struct nvp_decoder] becomes a record, the CUDA /
    cuvid engine becomes an oracle that answers every call the code makes,
    and each C function becomes a computation in a small state monad that
    threads the session, the oracle clock and the trace of what was called
    and logged.

    - [assert] is the abort it is in a build without NDEBUG.
    - A call through a pointer that is NULL stops the program as well:
      line 350 stores what [nv122rgb] returns unchecked, and line 356
      calls through it.
    - The self call of [nvp_cuvid_decode] is in tail position; it is a
      fuelled loop whose fuel counts the resubmissions.
    - [size_t] values are integers modulo 2^64; [int] arithmetic of the
      callbacks is taken in range and converted to [size_t] as C does.
    - The headers ([nvpipe.h], [nvcuvid.h], [yuv.h], [internal-api.h]) are
      not among the sources: their types keep the fields and enumerators
      that [decode.c] names.
    - The nvtx range markers (profiling annotations) are left out.

    The file has three parts: the model, the vocabulary of the statements
    with the concrete engines used as examples, and the proofs. *)

From Stdlib Require Import ZArith List String Bool Lia.
From Stdlib Require Import Strings.Byte.
Import ListNotations.
Open Scope Z_scope.

(* ------------------------------------------------------------------ *)
(** ** Machine integers and handles *)

(** [size_t] on the LP64 targets the library builds for. *)
Definition SIZE_WIDTH : Z := 64.
Definition to_size_t (z : Z) : Z := z mod 2 ^ SIZE_WIDTH.

Definition MAX_WIDTH : Z := 4096.
Definition MAX_HEIGHT : Z := 4096.

(** [CUresult]: an integer status, zero on success. *)
Definition CUresult : Type := Z.
Definition CUDA_SUCCESS : CUresult := 0.

(** [nvp_err_t].  The header [nvpipe.h] is not among the sources, so the
    enumerators this file names stay symbolic; a [CUresult] that the code
    stores into an [nvp_err_t] (lines 346, 359, 368, 374) is kept as that
    [CUresult]. *)
Inductive nvp_err_t : Type :=
  | NVPIPE_SUCCESS
  | NVPIPE_EINVAL
  | NVPIPE_EDECODE
  | nvp_err_of_CUresult (r : CUresult).

Definition nvp_err_is_success (e : nvp_err_t) : bool :=
  match e with NVPIPE_SUCCESS => true | _ => false end.

(** [impl.type] of [nvp_impl_t] ([internal-api.h], not among the sources). *)
Inductive nvp_type : Type := ENCODER | DECODER.

Definition nvp_type_eqb (a b : nvp_type) : bool :=
  match a, b with
  | ENCODER, ENCODER | DECODER, DECODER => true
  | _, _ => false
  end.

(* ------------------------------------------------------------------ *)
(** ** The cuvid structures the code reads and fills
    ([nvcuvid.h] is not among the sources: only the fields the code touches
    are kept, as integers). *)

Inductive cudaVideoCodec : Type :=
  | cudaVideoCodec_MPEG2 | cudaVideoCodec_H264 | cudaVideoCodec_HEVC.

Inductive cudaVideoChromaFormat : Type :=
  | cudaVideoChromaFormat_Monochrome | cudaVideoChromaFormat_420
  | cudaVideoChromaFormat_422 | cudaVideoChromaFormat_444.

Definition codec_is_h264 (c : cudaVideoCodec) : bool :=
  match c with cudaVideoCodec_H264 => true | _ => false end.

Definition chroma_is_420 (c : cudaVideoChromaFormat) : bool :=
  match c with cudaVideoChromaFormat_420 => true | _ => false end.

Record CUVIDEOFORMAT : Type := {
  codec : cudaVideoCodec;
  progressive_sequence : Z;
  bit_depth_luma_minus8 : Z;
  coded_height : Z;
  display_area_left : Z;
  display_area_top : Z;
  display_area_right : Z;
  display_area_bottom : Z;
  chroma_format : cudaVideoChromaFormat
}.

Record CUVIDPICPARAMS : Type := {
  PicWidthInMbs : Z;
  FrameHeightInMbs : Z
}.

Record CUVIDDECODECREATEINFO : Type := {
  CodecType : cudaVideoCodec;
  ulWidth : Z;
  ulHeight : Z;
  ulNumDecodeSurfaces : Z;
  ChromaFormat : cudaVideoChromaFormat;
  ulTargetWidth : Z;
  ulTargetHeight : Z;
  crt_left : Z;
  crt_top : Z;
  crt_right : Z;
  crt_bottom : Z;
  ulNumOutputSurfaces : Z
}.

Record CUVIDPARSERPARAMS : Type := {
  prs_CodecType : cudaVideoCodec;
  ulMaxNumDecodeSurfaces : Z;
  ulErrorThreshold : Z;
  ulMaxDisplayDelay : Z
}.

Record CUVIDSOURCEDATAPACKET : Type := {
  payload_size : Z;
  payload : list byte
}.

(** An opaque handle is modelled by the object it denotes: a decoder by the
    creation info it was made from, a parser by its parameters.  [None] is
    the NULL handle. *)
Definition CUvideodecoder : Type := option CUVIDDECODECREATEINFO.
Definition CUvideoparser : Type := option CUVIDPARSERPARAMS.
Definition CUdeviceptr : Type := Z.

(** [nv_fut_t] ([yuv.h], not among the sources): the converter object, with
    its stream and the three operations the code calls through it. *)
Record nv_fut_t : Type := { strm : Z }.

(* ------------------------------------------------------------------ *)
(** ** [struct nvp_decoder] *)

Record dims : Type := {
  wi : Z;   (* what input/source dims Decoder was created with (1) *)
  hi : Z;
  wdst : Z; (* what *target* dims Decoder was created with (2) *)
  hdst : Z;
  wsrc : Z; (* "source" width/height: what DecodePicture says. (3) *)
  hsrc : Z
}.

Record nvp_decoder : Type := {
  impl_type : nvp_type;
  initialized : bool;
  decoder : CUvideodecoder;
  parser : CUvideoparser;
  d : dims;
  rgb : CUdeviceptr;
  empty : bool;
  reorg : option nv_fut_t
}.

Definition set_wi (v : Z) (x : dims) : dims :=
  {| wi := v; hi := hi x; wdst := wdst x; hdst := hdst x;
     wsrc := wsrc x; hsrc := hsrc x |}.
Definition set_hi (v : Z) (x : dims) : dims :=
  {| wi := wi x; hi := v; wdst := wdst x; hdst := hdst x;
     wsrc := wsrc x; hsrc := hsrc x |}.
Definition set_wdst (v : Z) (x : dims) : dims :=
  {| wi := wi x; hi := hi x; wdst := v; hdst := hdst x;
     wsrc := wsrc x; hsrc := hsrc x |}.
Definition set_hdst (v : Z) (x : dims) : dims :=
  {| wi := wi x; hi := hi x; wdst := wdst x; hdst := v;
     wsrc := wsrc x; hsrc := hsrc x |}.
Definition set_wsrc (v : Z) (x : dims) : dims :=
  {| wi := wi x; hi := hi x; wdst := wdst x; hdst := hdst x;
     wsrc := v; hsrc := hsrc x |}.
Definition set_hsrc (v : Z) (x : dims) : dims :=
  {| wi := wi x; hi := hi x; wdst := wdst x; hdst := hdst x;
     wsrc := wsrc x; hsrc := v |}.

Definition set_d (f : dims -> dims) (n : nvp_decoder) : nvp_decoder :=
  {| impl_type := impl_type n; initialized := initialized n;
     decoder := decoder n; parser := parser n; d := f (d n);
     rgb := rgb n; empty := empty n; reorg := reorg n |}.
Definition set_initialized (v : bool) (n : nvp_decoder) : nvp_decoder :=
  {| impl_type := impl_type n; initialized := v;
     decoder := decoder n; parser := parser n; d := d n;
     rgb := rgb n; empty := empty n; reorg := reorg n |}.
Definition set_decoder (v : CUvideodecoder) (n : nvp_decoder) : nvp_decoder :=
  {| impl_type := impl_type n; initialized := initialized n;
     decoder := v; parser := parser n; d := d n;
     rgb := rgb n; empty := empty n; reorg := reorg n |}.
Definition set_parser (v : CUvideoparser) (n : nvp_decoder) : nvp_decoder :=
  {| impl_type := impl_type n; initialized := initialized n;
     decoder := decoder n; parser := v; d := d n;
     rgb := rgb n; empty := empty n; reorg := reorg n |}.
Definition set_rgb (v : CUdeviceptr) (n : nvp_decoder) : nvp_decoder :=
  {| impl_type := impl_type n; initialized := initialized n;
     decoder := decoder n; parser := parser n; d := d n;
     rgb := v; empty := empty n; reorg := reorg n |}.
Definition set_empty (v : bool) (n : nvp_decoder) : nvp_decoder :=
  {| impl_type := impl_type n; initialized := initialized n;
     decoder := decoder n; parser := parser n; d := d n;
     rgb := rgb n; empty := v; reorg := reorg n |}.
Definition set_reorg (v : option nv_fut_t) (n : nvp_decoder) : nvp_decoder :=
  {| impl_type := impl_type n; initialized := initialized n;
     decoder := decoder n; parser := parser n; d := d n;
     rgb := rgb n; empty := empty n; reorg := v |}.

(* ------------------------------------------------------------------ *)
(** ** The engine: calls, replies, oracle, trace *)

(** What the parser may call back while it handles a packet. *)
Inductive callback : Type :=
  | SequenceCallback (fmt : CUVIDEOFORMAT)  (* pfnSequenceCallback = dec_sequence *)
  | DecodePicture (pic : CUVIDPICPARAMS).   (* pfnDecodePicture = dec_ode *)

(** Every function of CUDA, cuvid, the converter and libc that the code
    calls, with the arguments it passes. *)
Inductive call : Type :=
  | cuvidCreateDecoder (crt : CUVIDDECODECREATEINFO)
  | cuvidDestroyDecoder (dec : CUVIDDECODECREATEINFO)
  | cuMemFree (p : CUdeviceptr)
  | cuMemAlloc (nbytes : Z)
  | cuvidCreateVideoParser (prs : CUVIDPARSERPARAMS)
  | cuvidDestroyVideoParser (prs : CUVIDPARSERPARAMS)
  | cuvidParseVideoData (p : CUvideoparser) (pkt : CUVIDSOURCEDATAPACKET)
  | cuvidDecodePicture (dec : CUvideodecoder) (pic : CUVIDPICPARAMS)
  | cuvidMapVideoFrame (dec : CUvideodecoder) (pic : Z) (progressive_frame : Z)
  | cuvidUnmapVideoFrame (dec : CUvideodecoder) (data : CUdeviceptr)
  | nv122rgb
  | reorg_submit (f : nv_fut_t) (data : CUdeviceptr) (w h : Z)
                 (dst : CUdeviceptr) (pitch : Z)
  | reorg_sync (f : nv_fut_t)
  | reorg_destroy (f : nv_fut_t)
  | cuMemcpyDtoHAsync (dst : Z) (src : CUdeviceptr) (nbytes : Z) (stream : Z)
  | cudaDeviceSynchronize
  | free_nvp.

(** What a call yields: its status, the value it stores through its output
    pointer (a device pointer, a stream), the pitch of a mapped frame, and,
    for [cuvidParseVideoData], the callbacks it fires before it returns.
    A parser that reacts to what a callback handed back is an oracle whose
    list already reflects it: a statement over all oracles covers it.
    [nv122rgb] returns a pointer and no status: a status other than
    [CUDA_SUCCESS] stands for the NULL pointer, and [r_value] is the stream
    of the object returned otherwise. *)
Record reply : Type := {
  r_result : CUresult;
  r_value : Z;
  r_pitch : Z;
  r_callbacks : list callback
}.

Definition CU_ok (r : reply) : bool := r_result r =? CUDA_SUCCESS.

(** The engine answers the [n]-th call of a run; the answer may depend on
    the call. *)
Definition oracle : Type := nat -> call -> reply.

Inductive level : Type := ERR | WARN | TRACE.

Inductive event : Type :=
  | Called (c : call) (r : reply)
  | Logged (l : level) (msg : string)
  | CallbackReturned (ret : Z).

Record machine : Type := {
  nvp : nvp_decoder;
  clock : nat;
  trace : list event
}.

Inductive outcome (A : Type) : Type :=
  | Ret (a : A) (m : machine)
  | Abort (msg : string) (m : machine)   (* the program stops: a failed
                                            assert, a call through NULL *)
  | OutOfFuel (m : machine).             (* the resubmission budget ran out *)
Arguments Ret {A} a m.
Arguments Abort {A} msg m.
Arguments OutOfFuel {A} m.

Definition M (A : Type) : Type := oracle -> machine -> outcome A.

Definition ret {A} (a : A) : M A := fun _ m => Ret a m.

Definition bind {A B} (c : M A) (k : A -> M B) : M B :=
  fun o m =>
    match c o m with
    | Ret a m' => k a o m'
    | Abort msg m' => Abort msg m'
    | OutOfFuel m' => OutOfFuel m'
    end.

Declare Scope nvp_scope.
Delimit Scope nvp_scope with nvp.
Notation "x <- c ;; k" := (bind c (fun x => k))
  (at level 61, c at next level, right associativity) : nvp_scope.
Notation "c ;; k" := (bind c (fun _ => k))
  (at level 61, right associativity) : nvp_scope.
Open Scope nvp_scope.

Definition get_nvp : M nvp_decoder := fun _ m => Ret (nvp m) m.

Definition modify (f : nvp_decoder -> nvp_decoder) : M unit :=
  fun _ m => Ret tt {| nvp := f (nvp m); clock := clock m; trace := trace m |}.

Definition engine (c : call) : M reply :=
  fun o m =>
    let r := o (clock m) c in
    Ret r {| nvp := nvp m; clock := S (clock m);
             trace := trace m ++ [Called c r] |}.

Definition emit (e : event) : M unit :=
  fun _ m => Ret tt {| nvp := nvp m; clock := clock m;
                       trace := trace m ++ [e] |}.

Definition log (l : level) (msg : string) : M unit := emit (Logged l msg).

Definition assert (b : bool) (msg : string) : M unit :=
  fun _ m => if b then Ret tt m else Abort msg m.

Definition out_of_fuel {A} : M A := fun _ m => OutOfFuel m.

(** A call through a NULL pointer: the program stops there. *)
Definition null_call {A} (what : string) : M A := fun _ m => Abort what m.

Definition when (b : bool) (c : M unit) : M unit := if b then c else ret tt.

(* ------------------------------------------------------------------ *)
(** ** [dec_initialize] (lines 93-147) *)

Definition make_crt (iwidth iheight dstwidth dstheight : Z)
  : CUVIDDECODECREATEINFO :=
  {| CodecType := cudaVideoCodec_H264;
     ulWidth := iwidth;
     ulHeight := iheight;
     ulNumDecodeSurfaces := 1;
     ChromaFormat := cudaVideoChromaFormat_420;
     ulTargetWidth := dstwidth;
     ulTargetHeight := dstheight;
     crt_left := 0;
     crt_top := 0;
     crt_right := iwidth;
     crt_bottom := iheight;
     ulNumOutputSurfaces := 1 |}.

Definition is_null {A} (h : option A) : bool :=
  match h with None => true | Some _ => false end.

(** Lines 123-146: the intermediate buffer, once the decoder exists. *)
Definition dec_initialize_buffer (dstwidth dstheight : Z) : M bool :=
  n <- get_nvp ;;
  if negb (dstwidth =? wdst (d n)) || negb (dstheight =? hdst (d n)) then
    released <-
      (if negb (rgb n =? 0) then
         r <- engine (cuMemFree (rgb n)) ;;
         if negb (CU_ok r) then
           log ERR "Could not free internal RGB buffer." ;; ret false
         else
           modify (set_rgb 0) ;; ret true
       else ret true) ;;
    if negb released then ret false
    else
      let nb_rgb := to_size_t (dstwidth * dstheight * 3) in
      r <- engine (cuMemAlloc nb_rgb) ;;
      if negb (CU_ok r) then
        log ERR "could not allocate temporary RGB buffer" ;;
        modify (set_rgb 0) ;;
        ret false
      else
        modify (set_rgb (r_value r)) ;;
        modify (set_d (set_wdst dstwidth)) ;;
        modify (set_d (set_hdst dstheight)) ;;
        modify (set_initialized true) ;;
        ret true
  else
    modify (set_initialized true) ;;
    ret true.

Definition dec_initialize (iwidth iheight dstwidth dstheight : Z) : M bool :=
  assert ((0 <? iwidth) && (0 <? iheight)) "iwidth > 0 && iheight > 0" ;;
  assert ((0 <? dstwidth) && (0 <? dstheight))
         "dstwidth > 0 && dstheight > 0" ;;
  n <- get_nvp ;;
  assert (is_null (decoder n)) "nvp->decoder == NULL" ;;
  let crt := make_crt iwidth iheight dstwidth dstheight in
  modify (set_d (set_wi iwidth)) ;;
  modify (set_d (set_hi iheight)) ;;
  r <- engine (cuvidCreateDecoder crt) ;;
  if negb (CU_ok r) then
    log ERR "decoder creation failed" ;;
    ret false
  else
    modify (set_decoder (Some crt)) ;;
    dec_initialize_buffer dstwidth dstheight.

(** ** [resize] (lines 150-158): the result of [dec_initialize] is dropped. *)
Definition destroy_decoder_if_any (l : level) : M unit :=
  n <- get_nvp ;;
  match decoder n with
  | Some dec =>
      r <- engine (cuvidDestroyDecoder dec) ;;
      when (negb (CU_ok r)) (log l "Error destroying decoder")
  | None => ret tt
  end.

Definition resize (w h dstwidth dstheight : Z) : M unit :=
  destroy_decoder_if_any ERR ;;
  modify (set_decoder None) ;;
  _ <- dec_initialize w h dstwidth dstheight ;;
  ret tt.

(** ** [nvp_cuvid_destroy] (lines 160-179).  The machine keeps the last
    contents of [*nvp]: what [free(nvp)] released. *)
Definition nvp_cuvid_destroy : M unit :=
  n <- get_nvp ;;
  assert (nvp_type_eqb (impl_type n) DECODER) "nvp->impl.type == DECODER" ;;
  destroy_decoder_if_any WARN ;;
  (match parser n with
   | Some prs =>
       r <- engine (cuvidDestroyVideoParser prs) ;;
       when (negb (CU_ok r)) (log WARN "Error destroying parser.")
   | None => ret tt
   end) ;;
  r <- engine (cuMemFree (rgb n)) ;;
  when (negb (CU_ok r)) (log WARN "Error freeing decode temporary buffer.") ;;
  (match reorg n with
   | Some f =>
       _ <- engine (reorg_destroy f) ;;
       modify (set_reorg None)
   | None => ret tt
   end) ;;
  _ <- engine free_nvp ;;
  ret tt.

(** ** [dec_sequence] (lines 181-217) *)
Definition dec_sequence (fmt : CUVIDEOFORMAT) : M Z :=
  when ((MAX_WIDTH <? to_size_t (display_area_right fmt))
        || (MAX_HEIGHT <? to_size_t (display_area_bottom fmt)))
       (log WARN "Video stream exceeds (%zux%zu) limits.") ;;
  if negb (bit_depth_luma_minus8 fmt =? 0) then
    log WARN
      "Unhandled bit depth (%d).  Was the frame compressed by a different version of this library?" ;;
    ret 0
  else
    assert (chroma_is_420 (chroma_format fmt))
           "fmt->chroma_format == cudaVideoChromaFormat_420" ;;
    assert (codec_is_h264 (codec fmt)) "fmt->codec == cudaVideoCodec_H264" ;;
    assert (progressive_sequence fmt =? 1) "fmt->progressive_sequence == 1" ;;
    let w := to_size_t (display_area_right fmt - display_area_left fmt) in
    let h := to_size_t (display_area_bottom fmt - display_area_top fmt) in
    when (negb (coded_height fmt =? h))
         (log TRACE "coded height (%u) does not correspond to height (%zu).") ;;
    n <- get_nvp ;;
    if negb (initialized n) then
      ok <- dec_initialize w h w h ;;
      if negb ok then ret 0 else ret 1
    else ret 1.

(** ** [dec_ode] (lines 219-234) *)
Definition dec_ode (pic : CUVIDPICPARAMS) : M Z :=
  n <- get_nvp ;;
  r <- engine (cuvidDecodePicture (decoder n) pic) ;;
  if negb (CU_ok r) then
    log WARN "Error %d decoding frame" ;;
    ret 0
  else
    modify (set_d (set_wsrc (to_size_t (PicWidthInMbs pic * 16)))) ;;
    modify (set_d (set_hsrc (to_size_t (FrameHeightInMbs pic * 16)))) ;;
    ret 1.

(** ** [initialize_parser] (lines 236-256) *)
Definition make_prs : CUVIDPARSERPARAMS :=
  {| prs_CodecType := cudaVideoCodec_H264;
     ulMaxNumDecodeSurfaces := 1;
     ulErrorThreshold := 100;
     ulMaxDisplayDelay := 0 |}.

Definition initialize_parser : M nvp_err_t :=
  r <- engine (cuvidCreateVideoParser make_prs) ;;
  if negb (CU_ok r) then
    log ERR "failed creating video parser." ;;
    ret NVPIPE_EDECODE
  else
    modify (set_parser (Some make_prs)) ;;
    ret NVPIPE_SUCCESS.

(** The callbacks [cuvidParseVideoData] fires, in order, each followed by
    the value it hands back to the parser. *)
Definition fire_one (cb : callback) : M unit :=
  r <- (match cb with
        | SequenceCallback fmt => dec_sequence fmt
        | DecodePicture pic => dec_ode pic
        end) ;;
  emit (CallbackReturned r).

Fixpoint fire (cbs : list callback) : M unit :=
  match cbs with
  | [] => ret tt
  | cb :: rest => fire_one cb ;; fire rest
  end.

(* ------------------------------------------------------------------ *)
(** ** [nvp_cuvid_decode] (lines 271-385) *)

Record decode_args : Type := {
  ibuf : list byte;
  ibuf_sz : Z;
  obuf : Z;
  width : Z;
  height : Z
}.

(** Lines 277-307: argument checks, the lazily created parser, and the
    submission of the packet.  [Some e] is an early [return e]. *)
Definition decode_submit (a : decode_args) : M (option nvp_err_t) :=
  n <- get_nvp ;;
  if negb (nvp_type_eqb (impl_type n) DECODER) then
    log ERR "backend implementation configuration error" ;;
    ret (Some NVPIPE_EINVAL)
  else if ibuf_sz a =? 0 then
    log ERR "input buffer size is 0." ;;
    ret (Some NVPIPE_EINVAL)
  else if (width a =? 0) || (height a =? 0) || (Z.land (height a) 1 =? 1) then
    log ERR "invalid width or height" ;;
    ret (Some NVPIPE_EINVAL)
  else
    errc <- (if is_null (parser n) then initialize_parser
             else ret NVPIPE_SUCCESS) ;;
    if negb (nvp_err_is_success errc) then ret (Some errc)
    else
      n <- get_nvp ;;
      let pkt := {| payload_size := ibuf_sz a; payload := ibuf a |} in
      r <- engine (cuvidParseVideoData (parser n) pkt) ;;
      fire (r_callbacks r) ;;
      if negb (CU_ok r) then
        log ERR "parsing video data failed" ;;
        ret (Some NVPIPE_EDECODE)
      else ret None.

(** Lines 334-385: map, convert, copy, synchronise, unmap. *)
Definition convert_and_copy (a : decode_args) (f : nv_fut_t)
           (data : CUdeviceptr) (pitch : Z) : M nvp_err_t :=
  n <- get_nvp ;;
  sub <- engine (reorg_submit f data (width a) (height a) (rgb n) pitch) ;;
  if negb (CU_ok sub) then ret (nvp_err_of_CUresult (r_result sub))
  else
    let nb_rgb := to_size_t (wdst (d n) * hdst (d n) * 3) in
    hcopy <- engine (cuMemcpyDtoHAsync (obuf a) (rgb n) nb_rgb (strm f)) ;;
    if negb (CU_ok hcopy) then ret (nvp_err_of_CUresult (r_result hcopy))
    else
      synch <- engine (reorg_sync f) ;;
      if negb (CU_ok synch) then ret (nvp_err_of_CUresult (r_result synch))
      else ret NVPIPE_SUCCESS.

Definition present_frame (a : decode_args) : M nvp_err_t :=
  n <- get_nvp ;;
  assert (negb (is_null (decoder n))) "nvp->decoder" ;;
  mrs <- engine (cuvidMapVideoFrame (decoder n) 0 1) ;;
  if negb (CU_ok mrs) then
    log ERR "Failed mapping frame: %d" ;;
    ret (nvp_err_of_CUresult (r_result mrs))
  else
    let data := r_value mrs in
    let pitch := r_pitch mrs in
    f <- (match reorg n with
          | Some f => ret f
          | None =>
              c <- engine nv122rgb ;;
              if negb (CU_ok c) then
                (* nv122rgb() gave NULL: nvp->reorg is NULL at line 356 *)
                null_call "nvp->reorg->submit"
              else
                let f := {| strm := r_value c |} in
                modify (set_reorg (Some f)) ;;
                ret f
          end) ;;
    errcode <- convert_and_copy a f data pitch ;;
    u <- engine (cuvidUnmapVideoFrame (decoder n) data) ;;
    when (negb (CU_ok u)) (log WARN "Could not unmap frame.") ;;
    ret errcode.

(** What one pass over the body decides once the packet is submitted:
    [return e], or the tail call on the same arguments. *)
Inductive step : Type :=
  | Return (e : nvp_err_t)
  | Resubmit.

(** Lines 309-385. *)
Definition decode_dispatch (a : decode_args) : M step :=
  n <- get_nvp ;;
  if (wsrc (d n) =? 0) || (hsrc (d n) =? 0) then
    if empty n then
      log ERR "Input is just stream metadata!" ;;
      ret (Return NVPIPE_EINVAL)
    else
      modify (set_empty true) ;;
      ret Resubmit
  else
    modify (set_empty false) ;;
    if negb (wsrc (d n) =? wi (d n)) || negb (hsrc (d n) =? hi (d n))
       || negb (wdst (d n) =? width a) || negb (hdst (d n) =? height a) then
      resize (wsrc (d n)) (hsrc (d n)) (width a) (height a) ;;
      ret Resubmit
    else
      e <- present_frame a ;;
      ret (Return e).

(** One pass over the body of [nvp_cuvid_decode]. *)
Definition decode_pass (a : decode_args) : M step :=
  early <- decode_submit a ;;
  match early with
  | Some e => ret (Return e)
  | None => decode_dispatch a
  end.

(** [nvp_cuvid_decode fuel]: the call, allowed [fuel] resubmissions. *)
Fixpoint nvp_cuvid_decode (fuel : nat) (a : decode_args) : M nvp_err_t :=
  s <- decode_pass a ;;
  match s with
  | Return e => ret e
  | Resubmit =>
      match fuel with
      | O => out_of_fuel
      | S fuel' => nvp_cuvid_decode fuel' a
      end
  end.

(** ** [nvp_cuvid_encode] (lines 388-403) and [nvp_cuvid_bitrate] (lines
    405-412): the two entries of the interface a decoder does not serve.
    Every argument is cast to void. *)
Definition nvp_cuvid_encode : M nvp_err_t :=
  log ERR "Decoder cannot encode; create an encoder instead." ;;
  assert false "false" ;;
  ret NVPIPE_EINVAL.

Definition nvp_cuvid_bitrate : M nvp_err_t :=
  log ERR
    "Bitrate is encoded into the stream; you can only change it on the encode side." ;;
  assert false "false" ;;
  ret NVPIPE_EINVAL.

(** ** [nvp_create_decoder] (lines 414-427): [calloc] zeroes the session. *)
Definition calloc_nvp_decoder : nvp_decoder :=
  {| impl_type := DECODER;
     initialized := false;
     decoder := None;
     parser := None;
     d := {| wi := 0; hi := 0; wdst := 0; hdst := 0; wsrc := 0; hsrc := 0 |};
     rgb := 0;
     empty := false;
     reorg := None |}.

Definition nvp_create_decoder : M unit :=
  modify (fun _ => calloc_nvp_decoder) ;;
  _ <- engine cudaDeviceSynchronize ;;
  ret tt.

(* ------------------------------------------------------------------ *)
(** ** Concrete engines and sessions *)

(** The machine an outcome leaves behind. *)
Definition machine_of {A} (x : outcome A) : machine :=
  match x with Ret _ m | Abort _ m | OutOfFuel m => m end.

Definition answer (res : CUresult) (v : Z) : reply :=
  {| r_result := res; r_value := v; r_pitch := 0; r_callbacks := [] |}.

Definition fmt64 : CUVIDEOFORMAT :=
  {| codec := cudaVideoCodec_H264;
     progressive_sequence := 1;
     bit_depth_luma_minus8 := 0;
     coded_height := 64;
     display_area_left := 0;
     display_area_top := 0;
     display_area_right := 64;
     display_area_bottom := 64;
     chroma_format := cudaVideoChromaFormat_420 |}.

Definition pic64 : CUVIDPICPARAMS :=
  {| PicWidthInMbs := 4; FrameHeightInMbs := 4 |}.

(** An engine on which every call succeeds, fed a 64x64 stream: each
    packet makes the parser announce the sequence and decode one picture.
    Decoding a picture on the NULL decoder fails (invalid handle). *)
Definition working_engine : oracle :=
  fun _ c =>
    match c with
    | cuvidParseVideoData _ _ =>
        {| r_result := CUDA_SUCCESS; r_value := 0; r_pitch := 0;
           r_callbacks := [SequenceCallback fmt64; DecodePicture pic64] |}
    | cuvidDecodePicture None _ => answer 400 0
    | cuMemAlloc _ => answer CUDA_SUCCESS 28672
    | cuvidMapVideoFrame _ _ _ =>
        {| r_result := CUDA_SUCCESS; r_value := 36864; r_pitch := 64;
           r_callbacks := [] |}
    | nv122rgb => answer CUDA_SUCCESS 7
    | _ => answer CUDA_SUCCESS 0
    end.

(** [working_engine], except where [f] answers. *)
Definition engine_but (f : call -> option reply) : oracle :=
  fun n c => match f c with Some r => r | None => working_engine n c end.

Definition packet (w h : Z) : decode_args :=
  {| ibuf := [x00; x00; x00; x01; x65]; ibuf_sz := 5; obuf := 4096;
     width := w; height := h |}.

Definition boot : machine :=
  {| nvp := calloc_nvp_decoder; clock := 0; trace := [] |}.

(** The session [nvp_create_decoder] hands out. *)
Definition fresh : machine := machine_of (nvp_create_decoder working_engine boot).

(** The session after one frame of the 64x64 stream was decoded at 64x64. *)
Definition steady64 : machine :=
  machine_of (nvp_cuvid_decode 0 (packet 64 64) working_engine fresh).

Definition pic128 : CUVIDPICPARAMS :=
  {| PicWidthInMbs := 8; FrameHeightInMbs := 8 |}.

(** A frame of latency at a change of stream size: up to call 12 of the run
    (the first submission made on [steady64]) the parser calls nothing
    back; from then on each submission decodes a 128x128 picture. *)
Definition late_engine : oracle :=
  fun n c =>
    match c with
    | cuvidParseVideoData _ _ =>
        {| r_result := CUDA_SUCCESS; r_value := 0; r_pitch := 0;
           r_callbacks :=
             if (n <=? 12)%nat then [] else [DecodePicture pic128] |}
    | _ => working_engine n c
    end.


(** What a run added to the trace, and how often it created a decoder and
    submitted a packet. *)
Definition new_events (m m' : machine) : list event :=
  skipn (List.length (trace m)) (trace m').

Definition creations (ev : list event) : nat :=
  List.length
    (filter (fun e => match e with
                      | Called (cuvidCreateDecoder _) _ => true
                      | _ => false
                      end) ev).

Definition submissions (ev : list event) : nat :=
  List.length
    (filter (fun e => match e with
                      | Called (cuvidParseVideoData _ _) _ => true
                      | _ => false
                      end) ev).




(** Engines that fail one kind of call. *)
Definition map_fails : oracle :=
  engine_but (fun c =>
    match c with
    | cuvidMapVideoFrame _ _ _ => Some (answer 999 0)
    | _ => None
    end).

Definition copy_fails : oracle :=
  engine_but (fun c =>
    match c with
    | cuMemcpyDtoHAsync _ _ _ _ => Some (answer 700 0)
    | cuvidUnmapVideoFrame _ _ => Some (answer 201 0)
    | _ => None
    end).

(** [nv122rgb] hands out no converter: it returns NULL. *)
Definition no_converter : oracle :=
  engine_but (fun c =>
    match c with
    | nv122rgb => Some (answer 2 0)
    | _ => None
    end).


(** No decoder can be created for a 128 wide target. *)
Definition create128_fails : oracle :=
  engine_but (fun c =>
    match c with
    | cuvidCreateDecoder crt =>
        if ulTargetWidth crt =? 128 then Some (answer 2 0) else None
    | _ => None
    end).

(** Device memory runs out for a buffer of 128x128x3 bytes or more. *)
Definition alloc128_fails : oracle :=
  engine_but (fun c =>
    match c with
    | cuMemAlloc nbytes =>
        if 128 * 128 * 3 <=? nbytes then Some (answer 2 0) else None
    | _ => None
    end).

(** Device memory runs out as in [alloc128_fails], and every submission
    after call 12 of the run is rejected by the parser. *)
Definition alloc_then_parse_fails : oracle :=
  fun n c =>
    match c with
    | cuvidParseVideoData _ _ =>
        if (n <=? 12)%nat then working_engine n c else answer 1 0
    | _ => alloc128_fails n c
    end.

(** The field comments of [struct nvp_decoder] (lines 72-75), as a check:
    the recorded input and target sizes are those the live decoder was
    created with. *)
Definition dims_consistent (n : nvp_decoder) : bool :=
  match decoder n with
  | None => true
  | Some crt =>
      (ulWidth crt =? wi (d n)) && (ulHeight crt =? hi (d n)) &&
      (ulTargetWidth crt =? wdst (d n)) && (ulTargetHeight crt =? hdst (d n))
  end.

(* ------------------------------------------------------------------ *)
(** ** Vocabulary of the statements *)

(** [respects R c]: whatever the outcome of [c], the machine it leaves is
    related by [R] to the one it started from. *)
Definition respects (R : machine -> machine -> Prop) {A} (c : M A) : Prop :=
  forall o m,
    match c o m with
    | Ret _ m' | Abort _ m' | OutOfFuel m' => R m m'
    end.

(** The pending-empty flag is the same in both machines. *)
Definition same_empty (m m' : machine) : Prop :=
  empty (nvp m') = empty (nvp m).

(** The trace of [m'] is that of [m] followed by events that all satisfy
    [P]. *)
Definition extends_with (P : event -> bool) (m m' : machine) : Prop :=
  exists ev, trace m' = trace m ++ ev /\ forallb P ev = true.

(** No picture is mapped by an event of this kind. *)
Definition not_successful_map (e : event) : bool :=
  match e with
  | Called (cuvidMapVideoFrame _ _ _) r => negb (CU_ok r)
  | _ => true
  end.

(** The calls whose status the code inspects between map and unmap. *)
Definition status_checked (c : call) : bool :=
  match c with
  | reorg_submit _ _ _ _ _ _ | cuMemcpyDtoHAsync _ _ _ _ | reorg_sync _ => true
  | _ => false
  end.

(** The events that may sit between a map and its unmap. *)
Definition conversion_event (e : event) : bool :=
  match e with
  | Called nv122rgb _ => true
  | Called c _ => status_checked c
  | _ => false
  end.

(** The first failed status among the inspected calls of a trace, as the
    code stores it in [errcode]; [NVPIPE_SUCCESS] when none failed. *)
Fixpoint errcode_of (ev : list event) : nvp_err_t :=
  match ev with
  | [] => NVPIPE_SUCCESS
  | Called c r :: rest =>
      if status_checked c && negb (CU_ok r)
      then nvp_err_of_CUresult (r_result r)
      else errcode_of rest
  | _ :: rest => errcode_of rest
  end.

(** What line 381 logs after the unmap answered [u]. *)
Definition unmap_warning (u : reply) : list event :=
  if CU_ok u then [] else [Logged WARN "Could not unmap frame."].

(** Sizes known and equal to what the decoder and the buffer were made
    for: the condition under which lines 334-385 run. *)
Definition steady (a : decode_args) (n : nvp_decoder) : Prop :=
  wsrc (d n) <> 0 /\ hsrc (d n) <> 0 /\
  wsrc (d n) = wi (d n) /\ hsrc (d n) = hi (d n) /\
  wdst (d n) = width a /\ hdst (d n) = height a.

(** The same as a test: neither the condition of line 309 nor that of
    lines 328-329 holds. *)
Definition steadyb (a : decode_args) (n : nvp_decoder) : bool :=
  negb ((wsrc (d n) =? 0) || (hsrc (d n) =? 0)) &&
  negb (negb (wsrc (d n) =? wi (d n)) || negb (hsrc (d n) =? hi (d n))
        || negb (wdst (d n) =? width a) || negb (hdst (d n) =? height a)).

(** The errors of the library that this file names. *)
Definition library_error (e : nvp_err_t) : bool :=
  match e with
  | NVPIPE_EINVAL | NVPIPE_EDECODE => true
  | _ => false
  end.

(** Calls whose failure the code turns into [NVPIPE_EDECODE] ... *)
Definition converted_call (c : call) : bool :=
  match c with
  | cuvidCreateVideoParser _ | cuvidParseVideoData _ _ => true
  | _ => false
  end.

(** ... and calls whose failed status it returns as it is. *)
Definition unconverted_call (c : call) : bool :=
  match c with
  | cuvidMapVideoFrame _ _ _ => true
  | _ => status_checked c
  end.

(** Events other than a failed call of the first kind. *)
Definition no_failed_submission (e : event) : bool :=
  match e with
  | Called c r => negb (converted_call c && negb (CU_ok r))
  | _ => true
  end.

(** Events other than a call of the second kind. *)
Definition not_a_frame_call (e : event) : bool :=
  match e with
  | Called c _ => negb (unconverted_call c)
  | _ => true
  end.

(** [m] with the pending-empty flag set to [v] (lines 317 and 320). *)
Definition with_empty (v : bool) (m : machine) : machine :=
  {| nvp := set_empty v (nvp m); clock := clock m; trace := trace m |}.


(** The condition of line 309: no picture size is resolved. *)
Definition size_unknown (m : machine) : bool :=
  (wsrc (d (nvp m)) =? 0) || (hsrc (d (nvp m)) =? 0).

(** Whether a trace releases the device buffer [p] / allocates [nb] bytes. *)
Definition frees (p : CUdeviceptr) (ev : list event) : bool :=
  existsb (fun e => match e with
                    | Called (cuMemFree x) _ => x =? p
                    | _ => false
                    end) ev.

Definition allocates (nb : Z) (ev : list event) : bool :=
  existsb (fun e => match e with
                    | Called (cuMemAlloc x) _ => x =? nb
                    | _ => false
                    end) ev.

(** The events of the buffer code: releases, allocations, messages. *)
Definition buffer_event (e : event) : bool :=
  match e with
  | Called (cuMemFree _) _ | Called (cuMemAlloc _) _ | Logged _ _ => true
  | _ => false
  end.

(** The condition of line 123. *)
Definition output_size_differs (dw dh : Z) (n : nvp_decoder) : bool :=
  negb (dw =? wdst (d n)) || negb (dh =? hdst (d n)).

(** The machine after lines 153-156: the decoder, if any, is destroyed,
    a failure of that is logged at level [l], and the handle is NULL. *)
Definition after_destroy (l : level) (o : oracle) (m : machine) : machine :=
  match decoder (nvp m) with
  | Some dec =>
      let r := o (clock m) (cuvidDestroyDecoder dec) in
      {| nvp := set_decoder None (nvp m);
         clock := S (clock m);
         trace := (trace m ++ [Called (cuvidDestroyDecoder dec) r])
                  ++ (if CU_ok r then []
                      else [Logged l "Error destroying decoder"]) |}
  | None =>
      {| nvp := set_decoder None (nvp m); clock := clock m;
         trace := trace m |}
  end.

(** Messages, as opposed to calls. *)
Definition is_log (e : event) : bool :=
  match e with Logged _ _ => true | _ => false end.

(** The sessions a failed resize to 128x128 goes through: everything as in
    the steady 64x64 session, with or without a decoder. *)
Definition stuck (n : nvp_decoder) : Prop :=
  impl_type n = DECODER /\ initialized n = true /\
  parser n = Some make_prs /\
  d n = {| wi := 64; hi := 64; wdst := 64; hdst := 64;
           wsrc := 64; hsrc := 64 |}.

(** The calls of a trace, in order. *)
Fixpoint calls_of (ev : list event) : list call :=
  match ev with
  | [] => []
  | Called c _ :: rest => c :: calls_of rest
  | _ :: rest => calls_of rest
  end.










(** The events of the first call on a fresh session, on [copy_fails]. *)
Definition copy_fails_events : list event :=
  new_events fresh
    (machine_of (nvp_cuvid_decode 0 (packet 64 64) copy_fails fresh)).

(* ------------------------------------------------------------------ *)
(** ** Resource protocols read off a trace *)

(** [follow step g ev]: the ghost state reached from [g] along the events
    [ev]; [None] as soon as an event breaks the protocol [step]. *)
Fixpoint follow {G} (step : G -> event -> option G) (g : G)
         (ev : list event) : option G :=
  match ev with
  | [] => Some g
  | e :: rest =>
      match step g e with
      | Some g' => follow step g' rest
      | None => None
      end
  end.

(** [keeps step ghost m m']: the trace grew by events that follow the
    protocol from what the session of [m] holds to what that of [m']
    holds. *)
Definition keeps {G} (step : G -> event -> option G)
           (ghost : nvp_decoder -> G) (m m' : machine) : Prop :=
  exists ev,
    trace m' = trace m ++ ev /\
    follow step (ghost (nvp m)) ev = Some (ghost (nvp m')).

Definition holds {A} (h : option A) : bool := negb (is_null h).

(** The decoder handle.  A decoder is created only while none is held and
    destroyed only while one is; a picture is mapped and unmapped only on a
    decoder that is held.  [dec_ode] (line 223) checks nothing: a picture
    is decoded on a decoder while one is held, and on NULL while none is. *)
Definition decoder_step (held : bool) (e : event) : option bool :=
  match e with
  | Called (cuvidCreateDecoder _) r => if held then None else Some (CU_ok r)
  | Called (cuvidDestroyDecoder _) _ => if held then Some false else None
  | Called (cuvidMapVideoFrame dec _ _) _
  | Called (cuvidUnmapVideoFrame dec _) _ =>
      if held && holds dec then Some held else None
  | Called (cuvidDecodePicture dec _) _ =>
      if Bool.eqb (holds dec) held then Some held else None
  | _ => Some held
  end.

Definition decoder_held (n : nvp_decoder) : bool := holds (decoder n).

(** The decoder handle is the same in both machines. *)
Definition same_decoder (m m' : machine) : Prop :=
  decoder (nvp m') = decoder (nvp m).

(** The calls of lines 353-375 for the arguments [a], through the converter
    [f], on the picture mapped at [data] with [pitch], in the session [n]:
    the conversion of that picture at the caller's size into the session's
    buffer, the copy of [wdst*hdst*3] bytes of that buffer to the caller's
    [obuf] on the converter's stream, and the wait for the converter. *)
Definition conversion_of (a : decode_args) (f : nv_fut_t) (n : nvp_decoder)
           (data pitch : Z) (e : event) : bool :=
  match e with
  | Called (reorg_submit f' data' w h dst pitch') _ =>
      (strm f' =? strm f) && (data' =? data) && (w =? width a)
      && (h =? height a) && (dst =? rgb n) && (pitch' =? pitch)
  | Called (cuMemcpyDtoHAsync dst src nb s) _ =>
      (dst =? obuf a) && (src =? rgb n)
      && (nb =? to_size_t (wdst (d n) * hdst (d n) * 3)) && (s =? strm f)
  | Called (reorg_sync f') _ => strm f' =? strm f
  | _ => false
  end.

(** The three calls of a conversion that runs to its end. *)
Definition frame_calls (a : decode_args) (f : nv_fut_t) (n : nvp_decoder)
           (data pitch : Z) : list call :=
  [reorg_submit f data (width a) (height a) (rgb n) pitch;
   cuMemcpyDtoHAsync (obuf a) (rgb n)
     (to_size_t (wdst (d n) * hdst (d n) * 3)) (strm f);
   reorg_sync f].

(** Every call of a trace succeeded. *)
Definition all_ok (ev : list event) : bool :=
  forallb (fun e => match e with Called _ r => CU_ok r | _ => true end) ev.

(** The converter [present_frame] uses on the session [n] when
    [nv122rgb], if called, answers [c], and the call that makes it. *)
Definition converter_for (n : nvp_decoder) (c : reply) : nv_fut_t :=
  match reorg n with
  | Some f => f
  | None => {| strm := r_value c |}
  end.

Definition converter_made (n : nvp_decoder) (c : reply) : list event :=
  match reorg n with
  | Some _ => []
  | None => [Called nv122rgb c]
  end.

(** The parser handle.  A parser is created only while none is held, and a
    packet is submitted only to a parser that is held.  (The release is
    that of [nvp_cuvid_destroy].) *)
Definition parser_step (held : bool) (e : event) : option bool :=
  match e with
  | Called (cuvidCreateVideoParser _) r =>
      if held then None else Some (CU_ok r)
  | Called (cuvidParseVideoData p _) _ =>
      if held && holds p then Some held else None
  | Called (cuvidDestroyVideoParser _) _ =>
      if held then Some false else None
  | _ => Some held
  end.

Definition parser_held (n : nvp_decoder) : bool := holds (parser n).

(** The converter.  One is made only while none is held (and none is held
    afterwards when [nv122rgb] hands out NULL); a conversion, a copy on a
    stream and a wait go through the converter that is held.  (The release
    is that of [nvp_cuvid_destroy].) *)
Definition is_converter (g : option nv_fut_t) (s : Z) : bool :=
  match g with
  | Some f => strm f =? s
  | None => false
  end.

Definition converter_step (g : option nv_fut_t) (e : event)
  : option (option nv_fut_t) :=
  match e with
  | Called nv122rgb r =>
      match g with
      | None => Some (if CU_ok r then Some {| strm := r_value r |} else None)
      | Some _ => None
      end
  | Called (reorg_submit f _ _ _ _ _) _
  | Called (reorg_sync f) _ =>
      if is_converter g (strm f) then Some g else None
  | Called (cuMemcpyDtoHAsync _ _ _ s) _ =>
      if is_converter g s then Some g else None
  | Called (reorg_destroy f) _ =>
      if is_converter g (strm f) then Some None else None
  | _ => Some g
  end.

(** The intermediate device buffer: the pointer the session holds, with
    the number of bytes it was allocated with; [None] for the NULL pointer.
    A buffer is allocated only while none is held and released only while
    it is held (and is still held when the release fails); conversions
    write to, and copies read from, the pointer of the session, and a copy
    from a held buffer reads exactly the bytes it was allocated with. *)
Definition buffer_step (g : option (Z * Z)) (e : event)
  : option (option (Z * Z)) :=
  match e with
  | Called (cuMemAlloc nb) r =>
      match g with
      | None =>
          Some (if CU_ok r && negb (r_value r =? 0)
                then Some (r_value r, nb) else None)
      | Some _ => None
      end
  | Called (cuMemFree p) r =>
      match g with
      | Some (q, _) =>
          if p =? q then Some (if CU_ok r then None else g) else None
      | None => None
      end
  | Called (cuMemcpyDtoHAsync _ src nb _) _ =>
      match g with
      | Some (q, sz) => if (src =? q) && (nb =? sz) then Some g else None
      | None => if src =? 0 then Some g else None
      end
  | Called (reorg_submit _ _ _ _ dst _) _ =>
      match g with
      | Some (q, _) => if dst =? q then Some g else None
      | None => if dst =? 0 then Some g else None
      end
  | _ => Some g
  end.

Definition buffer_held (n : nvp_decoder) : option (Z * Z) :=
  if rgb n =? 0 then None
  else Some (rgb n, to_size_t (wdst (d n) * hdst (d n) * 3)).


(** The checks of lines 278-289 on the arguments and the session. *)
Definition valid_args (a : decode_args) (n : nvp_decoder) : bool :=
  nvp_type_eqb (impl_type n) DECODER
  && negb (ibuf_sz a =? 0)
  && negb ((width a =? 0) || (height a =? 0) || (Z.land (height a) 1 =? 1)).

(** Lines 291-296 fail: the session has no parser and none can be made. *)
Definition parser_fails (o : oracle) (m : machine) : bool :=
  is_null (parser (nvp m))
  && negb (CU_ok (o (clock m) (cuvidCreateVideoParser make_prs))).

(** The machine after lines 291-296 when they do not fail. *)
Definition with_parser (o : oracle) (m : machine) : machine :=
  match parser (nvp m) with
  | Some _ => m
  | None =>
      {| nvp := set_parser (Some make_prs) (nvp m);
         clock := S (clock m);
         trace := trace m
                  ++ [Called (cuvidCreateVideoParser make_prs)
                        (o (clock m) (cuvidCreateVideoParser make_prs))] |}
  end.

(** Lines 298-307, as [decode_submit] has them: the submission of the
    packet, the callbacks it fires, the check of its status. *)
Definition submit_packet (a : decode_args) : M (option nvp_err_t) :=
  n <- get_nvp ;;
  let pkt := {| payload_size := ibuf_sz a; payload := ibuf a |} in
  r <- engine (cuvidParseVideoData (parser n) pkt) ;;
  fire (r_callbacks r) ;;
  if negb (CU_ok r) then
    log ERR "parsing video data failed" ;;
    ret (Some NVPIPE_EDECODE)
  else ret None.
Arguments submit_packet : simpl never.

(* ------------------------------------------------------------------ *)
(** ** Sessions: the interface as a client drives it *)

(** A call through one of the function pointers that [nvp_create_decoder]
    installs (lines 417-420), [destroy] apart. *)
Inductive api_call : Type :=
  | Decode (fuel : nat) (a : decode_args)
  | Encode
  | Bitrate.

Definition call_api (c : api_call) : M nvp_err_t :=
  match c with
  | Decode fuel a => nvp_cuvid_decode fuel a
  | Encode => nvp_cuvid_encode
  | Bitrate => nvp_cuvid_bitrate
  end.

(** The calls of a client, one after the other, whatever each returns. *)
Fixpoint calls (cs : list api_call) : M unit :=
  match cs with
  | [] => ret tt
  | c :: rest => _ <- call_api c ;; calls rest
  end.

(** A whole session: creation, the calls, destruction. *)
Definition session (cs : list api_call) : M unit :=
  nvp_create_decoder ;;
  calls cs ;;
  nvp_cuvid_destroy.

Arguments nvp_cuvid_encode : simpl never.
Arguments nvp_cuvid_bitrate : simpl never.
Arguments call_api : simpl never.
Arguments calls : simpl never.
Arguments session : simpl never.

Definition is_decode (c : api_call) : bool :=
  match c with Decode _ _ => true | _ => false end.

(** What a call with the arguments [a] may do to the caller's memory: a
    copy to the host goes to [obuf] and is of [width*height*3] bytes, and a
    conversion is at [width] x [height]. *)
Definition output_fits (a : decode_args) (e : event) : bool :=
  match e with
  | Called (cuMemcpyDtoHAsync dst _ nb _) _ =>
      (dst =? obuf a) && (nb =? to_size_t (width a * height a * 3))
  | Called (reorg_submit _ _ w h _ _) _ => (w =? width a) && (h =? height a)
  | _ => true
  end.

(** The converter is made by at most one call, [nv122rgb]. *)
Definition makes_converter (ev : list event) : bool :=
  match ev with
  | [] | [Called nv122rgb _] => true
  | _ => false
  end.

(* ------------------------------------------------------------------ *)
(** ** Engines that behave, and how deep the recursion goes on them *)

(** The engine never fails to create a decoder, nor to release or to
    allocate device memory. *)
Definition memory_reliable (o : oracle) : Prop :=
  (forall k p, CU_ok (o k (cuMemFree p)) = true) /\
  (forall k nb, CU_ok (o k (cuMemAlloc nb)) = true).

Definition reliable (o : oracle) : Prop :=
  (forall k crt, CU_ok (o k (cuvidCreateDecoder crt)) = true) /\
  memory_reliable o.

(** Every picture the engine announces has the size [W] x [H] (as line
    230-231 compute it from the macroblock counts). *)
Definition stable_stream (o : oracle) (W H : Z) : Prop :=
  forall k c pic,
    In (DecodePicture pic) (r_callbacks (o k c)) ->
    to_size_t (PicWidthInMbs pic * 16) = W /\
    to_size_t (FrameHeightInMbs pic * 16) = H.

(** The session has seen no picture yet, or one of size [W] x [H]. *)
Definition size_is (W H : Z) (n : nvp_decoder) : Prop :=
  (wsrc (d n) = 0 /\ hsrc (d n) = 0) \/ (wsrc (d n) = W /\ hsrc (d n) = H).

(** The session is initialized for pictures of [W] x [H] delivered at the
    size the arguments [a] ask for, and has seen such a picture. *)
Definition settled (W H : Z) (a : decode_args) (n : nvp_decoder) : Prop :=
  initialized n = true /\
  wi (d n) = W /\ hi (d n) = H /\
  wdst (d n) = width a /\ hdst (d n) = height a /\
  wsrc (d n) = W /\ hsrc (d n) = H.

(** The run came to an end within its budget of resubmissions. *)
Definition finished {A} (x : outcome A) : bool :=
  match x with
  | OutOfFuel _ => false
  | _ => true
  end.

(** The picture size the session records is the same in both machines. *)
Definition same_src (m m' : machine) : Prop :=
  wsrc (d (nvp m')) = wsrc (d (nvp m)) /\
  hsrc (d (nvp m')) = hsrc (d (nvp m)).

(** [c] never runs out of fuel. *)
Definition total {A} (c : M A) : Prop :=
  forall o m, finished (c o m) = true.

(** Events other than the creation or destruction of a decoder and the
    allocation or release of device memory. *)
Definition no_reallocation (e : event) : bool :=
  match e with
  | Called (cuvidCreateDecoder _) _ | Called (cuvidDestroyDecoder _) _
  | Called (cuMemAlloc _) _ | Called (cuMemFree _) _ => false
  | _ => true
  end.

(** The decoder the session holds, if any, is the one for the geometry
    the session records. *)
Definition decoder_matches (n : nvp_decoder) : Prop :=
  match decoder n with
  | Some crt =>
      crt = make_crt (wi (d n)) (hi (d n)) (wdst (d n)) (hdst (d n))
  | None => True
  end.

(** [c], run on the engine [o] on a session with the property [I], keeps
    [I] and adds only events that satisfy [P]. *)
Definition guards (I : nvp_decoder -> Prop) (P : event -> bool) (o : oracle)
           {A} (c : M A) : Prop :=
  forall m,
    I (nvp m) ->
    match c o m with
    | Ret _ m' | Abort _ m' | OutOfFuel m' =>
        I (nvp m') /\ extends_with P m m'
    end.

(** [c], run on the engine [o], keeps the property [I] of the session. *)
Definition preserves (I : nvp_decoder -> Prop) (o : oracle) {A} (c : M A)
  : Prop :=
  forall m,
    I (nvp m) ->
    match c o m with
    | Ret _ m' | Abort _ m' | OutOfFuel m' => I (nvp m')
    end.

(** Events other than the release of the parser / of the converter. *)
Definition parser_not_released (e : event) : bool :=
  match e with
  | Called (cuvidDestroyVideoParser _) _ => false
  | _ => true
  end.

Definition converter_not_released (e : event) : bool :=
  match e with
  | Called (reorg_destroy _) _ => false
  | _ => true
  end.

(** Events other than the submission of a packet. *)
Definition not_a_submission (e : event) : bool :=
  match e with
  | Called (cuvidParseVideoData _ _) _ => false
  | _ => true
  end.

(** An output size is recorded only on a session that is initialized. *)
Definition ready (n : nvp_decoder) : Prop :=
  initialized n = true \/ wdst (d n) = 0.

(** Whether a trace unmaps a picture. *)
Definition unmaps (ev : list event) : bool :=
  existsb (fun e => match e with
                    | Called (cuvidUnmapVideoFrame _ _) _ => true
                    | _ => false
                    end) ev.

(* ------------------------------------------------------------------ *)
(** ** Running computations, and relations every step of a run respects *)

(** The model's functions are unfolded by name, one at a time. *)
Arguments to_size_t : simpl never.
Arguments make_crt : simpl never.
Arguments dec_initialize_buffer : simpl never.
Arguments dec_initialize : simpl never.
Arguments destroy_decoder_if_any : simpl never.
Arguments resize : simpl never.
Arguments nvp_cuvid_destroy : simpl never.
Arguments dec_sequence : simpl never.
Arguments dec_ode : simpl never.
Arguments initialize_parser : simpl never.
Arguments fire_one : simpl never.
Arguments fire : simpl never.
Arguments decode_submit : simpl never.
Arguments convert_and_copy : simpl never.
Arguments present_frame : simpl never.
Arguments decode_dispatch : simpl never.
Arguments decode_pass : simpl never.
Arguments nvp_cuvid_decode : simpl never.
Arguments nvp_create_decoder : simpl never.

(** Unfolding the loop and the callback list. *)
Lemma nvp_cuvid_decode_unfold fuel a :
  nvp_cuvid_decode fuel a =
  (s <- decode_pass a ;;
   match s with
   | Return e => ret e
   | Resubmit =>
       match fuel with
       | O => out_of_fuel
       | S fuel' => nvp_cuvid_decode fuel' a
       end
   end).
Proof. destruct fuel; reflexivity. Qed.

Lemma fire_cons cb rest : fire (cb :: rest) = (fire_one cb ;; fire rest).
Proof. reflexivity. Qed.

Lemma fire_nil : fire [] = ret tt.
Proof. reflexivity. Qed.

Ltac unfold_monad :=
  unfold bind, ret, get_nvp, modify, engine, emit, log, assert, when,
    out_of_fuel, null_call.

Ltac run := repeat (unfold_monad; cbn).

Section Respects.
Variable R : machine -> machine -> Prop.
Hypothesis R_refl : forall m, R m m.
Hypothesis R_trans : forall m1 m2 m3, R m1 m2 -> R m2 m3 -> R m1 m3.

Lemma respects_ret {A} (a : A) : respects R (ret a).
Proof. intros o m. apply R_refl. Qed.

Lemma respects_get : respects R get_nvp.
Proof. intros o m. apply R_refl. Qed.

Lemma respects_assert b msg : respects R (assert b msg).
Proof. intros o m. unfold assert. destruct b; apply R_refl. Qed.

Lemma respects_out_of_fuel {A} : respects R (@out_of_fuel A).
Proof. intros o m. apply R_refl. Qed.

Lemma respects_null_call {A} what : respects R (@null_call A what).
Proof. intros o m. apply R_refl. Qed.

Lemma respects_bind {A B} (c : M A) (k : A -> M B) :
  respects R c -> (forall a, respects R (k a)) -> respects R (bind c k).
Proof.
  intros Hc Hk o m. unfold bind.
  specialize (Hc o m). destruct (c o m) as [a m1 | msg m1 | m1]; auto.
  specialize (Hk a o m1).
  destruct (k a o m1); eapply R_trans; eauto.
Qed.

Lemma respects_when b (c : M unit) : respects R c -> respects R (when b c).
Proof. intros H. unfold when. destruct b; auto using respects_ret. Qed.
End Respects.

(** Splits a computation along its binds and branches, leaving the
    primitive steps to [base]. *)
Ltac frame base :=
  repeat first
    [ solve [base]
    | apply respects_ret; solve [eauto]
    | apply respects_get; solve [eauto]
    | apply respects_assert; solve [eauto]
    | apply respects_out_of_fuel; solve [eauto]
    | apply respects_null_call; solve [eauto]
    | apply respects_when; [ solve [eauto] .. | ]
    | apply respects_bind; [ solve [eauto] .. | | intros ]
    | match goal with
      | |- respects _ (if ?b then _ else _) => destruct b
      | |- respects _ (match ?x with _ => _ end) => destruct x
      end ].

(** *** The pending-empty flag is left alone *)

Lemma same_empty_refl m : same_empty m m.
Proof. reflexivity. Qed.

Lemma same_empty_trans m1 m2 m3 :
  same_empty m1 m2 -> same_empty m2 m3 -> same_empty m1 m3.
Proof. unfold same_empty. congruence. Qed.

#[local] Hint Resolve same_empty_refl same_empty_trans : core.

Ltac same_empty_base :=
  intros ? ?; unfold same_empty; unfold_monad; cbn; reflexivity.

Lemma dec_initialize_same_empty iw ih dw dh :
  respects same_empty (dec_initialize iw ih dw dh).
Proof.
  unfold dec_initialize, dec_initialize_buffer. frame same_empty_base.
Qed.

Lemma dec_sequence_same_empty fmt : respects same_empty (dec_sequence fmt).
Proof.
  unfold dec_sequence.
  frame ltac:(first [ apply dec_initialize_same_empty | same_empty_base ]).
Qed.

Lemma dec_ode_same_empty pic : respects same_empty (dec_ode pic).
Proof. unfold dec_ode. frame same_empty_base. Qed.

Lemma fire_same_empty cbs : respects same_empty (fire cbs).
Proof.
  induction cbs as [| cb rest IH]; [rewrite fire_nil | rewrite fire_cons].
  - apply respects_ret; auto.
  - unfold fire_one.
    frame ltac:(first [ apply dec_sequence_same_empty
                      | apply dec_ode_same_empty
                      | apply IH
                      | same_empty_base ]).
Qed.

Lemma decode_submit_same_empty a : respects same_empty (decode_submit a).
Proof.
  unfold decode_submit, initialize_parser.
  frame ltac:(first [ apply fire_same_empty | same_empty_base ]).
Qed.

(** *** The trace only grows, and only by events of a given kind *)

Lemma extends_with_refl P m : extends_with P m m.
Proof. exists []. split; [now rewrite app_nil_r | reflexivity]. Qed.

Lemma extends_with_trans P m1 m2 m3 :
  extends_with P m1 m2 -> extends_with P m2 m3 -> extends_with P m1 m3.
Proof.
  intros [e1 [H1 F1]] [e2 [H2 F2]]. exists (e1 ++ e2). split.
  - rewrite H2, H1. now rewrite app_assoc.
  - rewrite forallb_app, F1, F2. reflexivity.
Qed.

#[local] Hint Resolve extends_with_refl extends_with_trans : core.

Section ExtendsWith.
Variable P : event -> bool.
Hypothesis P_log : forall l msg, P (Logged l msg) = true.
Hypothesis P_cbret : forall z, P (CallbackReturned z) = true.
Hypothesis P_create : forall c r, P (Called (cuvidCreateDecoder c) r) = true.
Hypothesis P_destroy : forall c r, P (Called (cuvidDestroyDecoder c) r) = true.
Hypothesis P_free : forall p r, P (Called (cuMemFree p) r) = true.
Hypothesis P_alloc : forall n r, P (Called (cuMemAlloc n) r) = true.
Hypothesis P_mkparser :
  forall p r, P (Called (cuvidCreateVideoParser p) r) = true.
Hypothesis P_parse :
  forall p k r, P (Called (cuvidParseVideoData p k) r) = true.
Hypothesis P_decpic :
  forall x p r, P (Called (cuvidDecodePicture x p) r) = true.

Ltac base :=
  intros ? ?; unfold extends_with; unfold_monad; cbn;
  first [ exists []; split; [now rewrite app_nil_r | reflexivity]
        | eexists [_]; split; [reflexivity | cbn [forallb];
            rewrite ?P_log, ?P_cbret, ?P_create, ?P_destroy, ?P_free,
              ?P_alloc, ?P_mkparser, ?P_parse, ?P_decpic; reflexivity ] ].

Lemma dec_initialize_extends iw ih dw dh :
  respects (extends_with P) (dec_initialize iw ih dw dh).
Proof. unfold dec_initialize, dec_initialize_buffer. frame base. Qed.

Lemma resize_extends w h dw dh :
  respects (extends_with P) (resize w h dw dh).
Proof.
  unfold resize, destroy_decoder_if_any.
  frame ltac:(first [ apply dec_initialize_extends | base ]).
Qed.

Lemma dec_sequence_extends fmt :
  respects (extends_with P) (dec_sequence fmt).
Proof.
  unfold dec_sequence.
  frame ltac:(first [ apply dec_initialize_extends | base ]).
Qed.

Lemma dec_ode_extends pic : respects (extends_with P) (dec_ode pic).
Proof. unfold dec_ode. frame base. Qed.

Lemma fire_extends cbs : respects (extends_with P) (fire cbs).
Proof.
  induction cbs as [| cb rest IH]; [rewrite fire_nil | rewrite fire_cons].
  - apply respects_ret; auto.
  - unfold fire_one.
    frame ltac:(first [ apply dec_sequence_extends | apply dec_ode_extends
                      | apply IH | base ]).
Qed.

Lemma decode_submit_extends a : respects (extends_with P) (decode_submit a).
Proof.
  unfold decode_submit, initialize_parser.
  frame ltac:(first [ apply fire_extends | base ]).
Qed.
Hypothesis P_map :
  forall x i f r, P (Called (cuvidMapVideoFrame x i f) r) = true.
Hypothesis P_unmap :
  forall x p r, P (Called (cuvidUnmapVideoFrame x p) r) = true.
Hypothesis P_nv122rgb : forall r, P (Called nv122rgb r) = true.
Hypothesis P_submit :
  forall f x w h p q r, P (Called (reorg_submit f x w h p q) r) = true.
Hypothesis P_copy :
  forall x y n z r, P (Called (cuMemcpyDtoHAsync x y n z) r) = true.
Hypothesis P_sync : forall f r, P (Called (reorg_sync f) r) = true.

Ltac base' :=
  intros ? ?; unfold extends_with; unfold_monad; cbn;
  first [ exists []; split; [now rewrite app_nil_r | reflexivity]
        | eexists [_]; split; [reflexivity | cbn [forallb];
            rewrite ?P_log, ?P_map, ?P_unmap, ?P_nv122rgb, ?P_submit,
              ?P_copy, ?P_sync; reflexivity ] ].

Lemma present_frame_extends a : respects (extends_with P) (present_frame a).
Proof. unfold present_frame, convert_and_copy. frame base'. Qed.

Lemma decode_dispatch_extends a :
  respects (extends_with P) (decode_dispatch a).
Proof.
  unfold decode_dispatch.
  frame ltac:(first [ apply resize_extends | apply present_frame_extends
                    | base' ]).
Qed.
End ExtendsWith.

(* ------------------------------------------------------------------ *)
(** ** Argument checks *)

Lemma land_1_odd z : (Z.land z 1 =? 1) = Z.odd z.
Proof.
  change 1 with (Z.ones 1) at 1. rewrite Z.land_ones by lia.
  change (2 ^ 1) with 2. rewrite Zmod_odd. now destruct (Z.odd z).
Qed.

(** C6.  A call with an empty packet ([ibuf_sz == 0]), with a requested
    width of 0, or with a requested height that is 0 or odd returns
    [NVPIPE_EINVAL]; the session is left as it was, the engine is not called
    (the oracle clock does not move) and the trace grows by one error
    message only. *)
Theorem decode_rejects_invalid_arguments :
  forall fuel a o m,
    ibuf_sz a = 0 \/ width a = 0 \/ height a = 0 \/ Z.odd (height a) = true ->
    exists msg,
      nvp_cuvid_decode fuel a o m =
      Ret NVPIPE_EINVAL
          {| nvp := nvp m; clock := clock m;
             trace := trace m ++ [Logged ERR msg] |}.
Proof.
  intros fuel a o m H.
  assert (E : (ibuf_sz a =? 0) = true \/
              ((width a =? 0) || (height a =? 0)
               || (Z.land (height a) 1 =? 1)) = true).
  { rewrite land_1_odd.
    destruct H as [H | [H | [H | H]]]; rewrite H; cbn;
      rewrite ?orb_true_r; auto. }
  rewrite nvp_cuvid_decode_unfold.
  unfold decode_pass, decode_submit; run;
    destruct (nvp_type_eqb (impl_type (nvp m)) DECODER); run;
    try (eexists; reflexivity);
    destruct (ibuf_sz a =? 0) eqn:Ez; run;
    try (eexists; reflexivity);
    (destruct E as [E | E]; [discriminate |]); rewrite E; run;
    eexists; reflexivity.
Qed.

(* ------------------------------------------------------------------ *)
(** ** The steady-state path: map, convert, copy, synchronise, unmap *)

Lemma convert_and_copy_spec a f data pitch o m :
  match convert_and_copy a f data pitch o m with
  | Ret e m' =>
      exists mid,
        trace m' = trace m ++ mid /\ e = errcode_of mid /\
        forallb conversion_event mid = true /\ nvp m' = nvp m
  | _ => False
  end.
Proof.
  unfold convert_and_copy. run.
  destruct (CU_ok (o (clock m) _)) eqn:E1; run.
  2:{ eexists; split; [rewrite <- ?app_assoc; reflexivity |].
      cbn. now rewrite E1. }
  destruct (CU_ok (o (S (clock m)) _)) eqn:E2; run.
  2:{ eexists; split; [rewrite <- ?app_assoc; reflexivity |].
      cbn. now rewrite E1, E2. }
  destruct (CU_ok (o (S (S (clock m))) _)) eqn:E3; run.
  2:{ eexists; split; [rewrite <- !app_assoc; reflexivity |].
      cbn. now rewrite E1, E2, E3. }
  eexists; split; [rewrite <- !app_assoc; reflexivity |].
  cbn. now rewrite E1, E2, E3.
Qed.

(** What [present_frame] does from a session that holds a decoder: it
    returns, unless the session has no converter and [nv122rgb] hands out
    none, in which case it stops with the picture mapped. *)
Lemma present_frame_spec a o m dec :
  decoder (nvp m) = Some dec ->
  let mrs := o (clock m) (cuvidMapVideoFrame (Some dec) 0 1) in
  match present_frame a o m with
  | Ret e m' =>
      d (nvp m') = d (nvp m) /\ empty (nvp m') = empty (nvp m) /\
      if CU_ok mrs then
        exists mid u,
          trace m' =
          trace m ++ Called (cuvidMapVideoFrame (Some dec) 0 1) mrs
            :: mid ++ Called (cuvidUnmapVideoFrame (Some dec) (r_value mrs)) u
            :: unmap_warning u /\
          e = errcode_of mid /\ forallb conversion_event mid = true
      else
        trace m' =
        trace m ++ [Called (cuvidMapVideoFrame (Some dec) 0 1) mrs;
                    Logged ERR "Failed mapping frame: %d"] /\
        e = nvp_err_of_CUresult (r_result mrs)
  | Abort _ m' =>
      CU_ok mrs = true /\ reorg (nvp m) = None /\ nvp m' = nvp m /\
      exists c,
        CU_ok c = false /\
        trace m' =
        trace m ++ [Called (cuvidMapVideoFrame (Some dec) 0 1) mrs;
                    Called nv122rgb c]
  | OutOfFuel _ => False
  end.
Proof.
  intros Hdec mrs. unfold present_frame. run. rewrite Hdec. cbn.
  fold mrs. destruct (CU_ok mrs) eqn:Emap; run.
  2:{ rewrite <- app_assoc. auto. }
  destruct (reorg (nvp m)) as [f |]; run.
  - match goal with
    | |- context [convert_and_copy ?a ?f ?x ?p ?o ?m1] =>
        pose proof (convert_and_copy_spec a f x p o m1) as H;
        destruct (convert_and_copy a f x p o m1) as [e m2 | |];
        try contradiction
    end.
    destruct H as [mid [Ht [He [Hf Hn]]]]. cbn in Ht, Hn.
    rewrite Hn, Ht. cbn.
    match goal with
    | |- context [CU_ok ?u] => destruct (CU_ok u) eqn:Eu
    end; run; (split; [reflexivity | split; [reflexivity |]]);
      exists mid; eexists; unfold unmap_warning; rewrite Eu;
      (split; [rewrite <- !app_assoc; reflexivity | auto]).
  - destruct (CU_ok (o (S (clock m)) nv122rgb)) eqn:Ec; run.
    2:{ repeat split; try reflexivity.
        eexists. split; [exact Ec |]. now rewrite <- app_assoc. }
    match goal with
    | |- context [convert_and_copy ?a ?f ?x ?p ?o ?m1] =>
        pose proof (convert_and_copy_spec a f x p o m1) as H;
        destruct (convert_and_copy a f x p o m1) as [e m2 | |];
        try contradiction
    end.
    destruct H as [mid [Ht [He [Hf Hn]]]]. cbn in Ht, Hn.
    rewrite Hn, Ht. cbn.
    match goal with
    | |- context [CU_ok ?u] => destruct (CU_ok u) eqn:Eu
    end; run; (split; [reflexivity | split; [reflexivity |]]);
      eexists (Called nv122rgb _ :: mid); eexists;
      unfold unmap_warning; rewrite Eu;
      (split; [rewrite <- !app_assoc; reflexivity | cbn; auto]).
Qed.

(* ------------------------------------------------------------------ *)
(** ** What is converted and copied, with its arguments *)

Lemma conversion_of_event a f n data pitch e :
  conversion_of a f n data pitch e = true -> conversion_event e = true.
Proof. destruct e as [[] r | |]; cbn; try discriminate; reflexivity. Qed.

(** [convert_and_copy] returns, leaves the session as it is, and makes one
    to three calls, stopping at the first that fails: it returns the status
    of a call of its that failed, and success exactly when it made all
    three and all succeeded. *)
Lemma convert_and_copy_run a f data pitch o m :
  exists e mid,
    convert_and_copy a f data pitch o m =
      Ret e {| nvp := nvp m; clock := (List.length mid + clock m)%nat;
               trace := trace m ++ mid |} /\
    forallb (conversion_of a f (nvp m) data pitch) mid = true /\
    e = errcode_of mid /\
    (e = NVPIPE_SUCCESS ->
     calls_of mid = frame_calls a f (nvp m) data pitch /\
     all_ok mid = true) /\
    (forall pre c rep post,
        mid = pre ++ Called c rep :: post -> CU_ok rep = false ->
        e = nvp_err_of_CUresult (r_result rep)).
Proof.
  assert (Hsplit : forall (x y z : event) l pre e post,
             l = [x] \/ l = [x; y] \/ l = [x; y; z] ->
             l = pre ++ e :: post -> e = x \/ e = y \/ e = z).
  { intros x y z l pre e post Hl Heq.
    assert (Hin : In e l) by (rewrite Heq; apply in_elt).
    destruct Hl as [-> | [-> | ->]]; cbn in Hin; intuition. }
  unfold convert_and_copy, frame_calls. run.
  destruct (CU_ok (o (clock m) _)) eqn:E1; run.
  2:{ eexists _, [_]. split; [reflexivity |]. cbn.
      rewrite !Z.eqb_refl, E1. cbn.
      split; [reflexivity |]. split; [reflexivity |].
      split; [discriminate |].
      intros pre c rep post Heq Hf.
      destruct (Hsplit _ (Logged ERR "") (Logged ERR "") _ _ _ _
                  (or_introl eq_refl) Heq) as [Hx | [Hx | Hx]];
        inversion Hx; subst; reflexivity. }
  destruct (CU_ok (o (S (clock m)) _)) eqn:E2; run.
  2:{ eexists _, [_; _]. rewrite <- app_assoc.
      split; [reflexivity |]. cbn.
      rewrite !Z.eqb_refl, E1, E2. cbn.
      split; [reflexivity |]. split; [reflexivity |].
      split; [discriminate |].
      intros pre c rep post Heq Hf.
      destruct (Hsplit _ _ (Logged ERR "") _ _ _ _
                  (or_intror (or_introl eq_refl)) Heq) as [Hx | [Hx | Hx]];
        inversion Hx; subst; congruence. }
  destruct (CU_ok (o (S (S (clock m))) _)) eqn:E3; run.
  2:{ eexists _, [_; _; _]. rewrite <- !app_assoc.
      split; [reflexivity |]. cbn.
      rewrite !Z.eqb_refl, E1, E2, E3. cbn.
      split; [reflexivity |]. split; [reflexivity |].
      split; [discriminate |].
      intros pre c rep post Heq Hf.
      destruct (Hsplit _ _ _ _ _ _ _
                  (or_intror (or_intror eq_refl)) Heq) as [Hx | [Hx | Hx]];
        inversion Hx; subst; congruence. }
  eexists _, [_; _; _]. rewrite <- !app_assoc.
  split; [reflexivity |]. cbn.
  rewrite !Z.eqb_refl, E1, E2, E3. cbn.
  split; [reflexivity |]. split; [reflexivity |].
  split; [split; reflexivity |].
  intros pre c rep post Heq Hf.
  destruct (Hsplit _ _ _ _ _ _ _
              (or_intror (or_intror eq_refl)) Heq) as [Hx | [Hx | Hx]];
    inversion Hx; subst; congruence.
Qed.

(** [present_frame] on a session that holds a decoder [dec].  When the map
    fails it logs and returns the raw status.  Otherwise it makes the
    converter if the session has none, converts and copies, unmaps what it
    mapped and returns; unless no converter could be made: then it stops
    with the picture mapped. *)
Lemma present_frame_run a o m dec :
  decoder (nvp m) = Some dec ->
  let n := nvp m in
  let mrs := o (clock m) (cuvidMapVideoFrame (Some dec) 0 1) in
  match present_frame a o m with
  | Ret e m' =>
      if CU_ok mrs then
        exists c mid u,
          let f := converter_for n c in
          CU_ok c = true /\
          trace m' =
            trace m ++ Called (cuvidMapVideoFrame (Some dec) 0 1) mrs
              :: converter_made n c ++ mid
              ++ Called (cuvidUnmapVideoFrame (Some dec) (r_value mrs)) u
              :: unmap_warning u /\
          nvp m' = match reorg n with
                   | Some _ => n
                   | None => set_reorg (Some f) n
                   end /\
          forallb (conversion_of a f n (r_value mrs) (r_pitch mrs)) mid
            = true /\
          e = errcode_of mid /\
          (e = NVPIPE_SUCCESS ->
           calls_of mid = frame_calls a f n (r_value mrs) (r_pitch mrs) /\
           all_ok mid = true) /\
          (forall pre x rep post,
              mid = pre ++ Called x rep :: post -> CU_ok rep = false ->
              e = nvp_err_of_CUresult (r_result rep))
      else
        trace m' =
          trace m ++ [Called (cuvidMapVideoFrame (Some dec) 0 1) mrs;
                      Logged ERR "Failed mapping frame: %d"] /\
        nvp m' = n /\ e = nvp_err_of_CUresult (r_result mrs)
  | Abort _ m' =>
      CU_ok mrs = true /\ reorg n = None /\ nvp m' = n /\
      exists c,
        CU_ok c = false /\
        trace m' =
          trace m ++ [Called (cuvidMapVideoFrame (Some dec) 0 1) mrs;
                      Called nv122rgb c]
  | OutOfFuel _ => False
  end.
Proof.
  intros Hdec n mrs. unfold present_frame. run. rewrite Hdec. cbn.
  fold mrs. destruct (CU_ok mrs) eqn:Emap; run.
  2:{ rewrite <- app_assoc. auto. }
  unfold converter_for, converter_made. fold n.
  destruct (reorg n) as [f |] eqn:Er; run.
  - match goal with
    | |- context [convert_and_copy ?a ?f ?x ?p ?o ?m1] =>
        destruct (convert_and_copy_run a f x p o m1)
          as [e [mid [Hrun [Hall [He [Hs Hfail]]]]]]
    end.
    rewrite Hrun. cbn in *.
    match goal with
    | |- context [CU_ok ?u] => destruct (CU_ok u) eqn:Eu
    end; run;
      exists (answer CUDA_SUCCESS 0), mid; eexists;
      unfold unmap_warning; rewrite Eu;
      (split; [reflexivity |]);
      (split; [rewrite <- !app_assoc; reflexivity | auto 7]).
  - destruct (CU_ok (o (S (clock m)) nv122rgb)) eqn:Ec; run.
    2:{ repeat split; try reflexivity.
        eexists. split; [exact Ec |]. now rewrite <- app_assoc. }
    match goal with
    | |- context [convert_and_copy ?a ?f ?x ?p ?o ?m1] =>
        destruct (convert_and_copy_run a f x p o m1)
          as [e [mid [Hrun [Hall [He [Hs Hfail]]]]]]
    end.
    rewrite Hrun. cbn in *.
    match goal with
    | |- context [CU_ok ?u] => destruct (CU_ok u) eqn:Eu
    end; run;
      exists (o (S (clock m)) nv122rgb), mid; eexists;
      unfold unmap_warning; rewrite Eu; cbn zeta;
      (split; [exact Ec |]);
      (split; [rewrite <- !app_assoc; reflexivity | auto 7]).
Qed.

(* ------------------------------------------------------------------ *)
(** ** The shape of a whole call *)

Lemma steadyb_spec a n : steadyb a n = true <-> steady a n.
Proof.
  unfold steadyb, steady.
  destruct (Z.eqb_spec (wsrc (d n)) 0), (Z.eqb_spec (hsrc (d n)) 0),
    (Z.eqb_spec (wsrc (d n)) (wi (d n))), (Z.eqb_spec (hsrc (d n)) (hi (d n))),
    (Z.eqb_spec (wdst (d n)) (width a)), (Z.eqb_spec (hdst (d n)) (height a));
    cbn; intuition congruence.
Qed.

Lemma resize_no_map w h dw dh :
  respects (extends_with not_successful_map) (resize w h dw dh).
Proof. apply resize_extends; reflexivity. Qed.

Lemma decode_submit_no_map a :
  respects (extends_with not_successful_map) (decode_submit a).
Proof. apply decode_submit_extends; reflexivity. Qed.

(** An early return of the submission is one of the two library errors. *)
Lemma decode_submit_early a o m :
  match decode_submit a o m with
  | Ret (Some e) _ => e = NVPIPE_EINVAL \/ e = NVPIPE_EDECODE
  | _ => True
  end.
Proof.
  unfold decode_submit, initialize_parser. run.
  destruct (nvp_type_eqb (impl_type (nvp m)) DECODER); run; auto.
  destruct (ibuf_sz a =? 0); run; auto.
  destruct ((width a =? 0) || (height a =? 0) || (Z.land (height a) 1 =? 1));
    run; auto.
  destruct (is_null (parser (nvp m))); run.
  - destruct (CU_ok (o (clock m) _)); run; auto.
    match goal with |- context [fire ?c ?o ?m] => destruct (fire c o m) end;
      auto.
    match goal with |- context [CU_ok ?r] => destruct (CU_ok r) end;
      run; auto.
  - match goal with |- context [fire ?c ?o ?m] => destruct (fire c o m) end;
      auto.
    match goal with |- context [CU_ok ?r] => destruct (CU_ok r) end;
      run; auto.
Qed.

(** [present_frame] stops only at its assertion, before any call, or at
    the call through a converter that [nv122rgb] did not hand out, just
    after a successful map. *)
Lemma present_frame_stops a o m :
  match present_frame a o m with
  | Ret _ _ => True
  | Abort _ m' =>
      m' = m \/
      exists dec mrs c,
        CU_ok mrs = true /\ CU_ok c = false /\
        trace m' =
        trace m ++ [Called (cuvidMapVideoFrame (Some dec) 0 1) mrs;
                    Called nv122rgb c]
  | OutOfFuel _ => False
  end.
Proof.
  destruct (decoder (nvp m)) as [dec |] eqn:Hdec.
  - pose proof (present_frame_spec a o m dec Hdec) as S. cbn zeta in S.
    destruct (present_frame a o m); auto.
    destruct S as [Hm [_ [_ [c [Hc Ht]]]]]. right. eauto 6.
  - unfold present_frame. run. rewrite Hdec. cbn. auto.
Qed.

(** What a call does before it reaches the frame path: events of a kind
    [P] that holds of every call and message outside lines 334-385. *)
Section BeforeTheFrame.
Variable P : event -> bool.
Hypothesis P_log : forall l msg, P (Logged l msg) = true.
Hypothesis P_cbret : forall z, P (CallbackReturned z) = true.
Hypothesis P_create : forall c r, P (Called (cuvidCreateDecoder c) r) = true.
Hypothesis P_destroy : forall c r, P (Called (cuvidDestroyDecoder c) r) = true.
Hypothesis P_free : forall p r, P (Called (cuMemFree p) r) = true.
Hypothesis P_alloc : forall n r, P (Called (cuMemAlloc n) r) = true.
Hypothesis P_mkparser :
  forall p r, P (Called (cuvidCreateVideoParser p) r) = true.
Hypothesis P_parse :
  forall p k r, P (Called (cuvidParseVideoData p k) r) = true.
Hypothesis P_decpic :
  forall x p r, P (Called (cuvidDecodePicture x p) r) = true.

(** What the dispatch after a submission can do. *)
Lemma decode_dispatch_shape_over a o m :
  match decode_dispatch a o m with
  | Ret Resubmit m' => extends_with P m m'
  | Ret (Return e) m' =>
      (e = NVPIPE_EINVAL /\ extends_with P m m') \/
      (steady a (nvp m) /\
       present_frame a o (with_empty false m) = Ret e m')
  | Abort msg m' =>
      extends_with P m m' \/
      (steady a (nvp m) /\
       present_frame a o (with_empty false m) = Abort msg m')
  | OutOfFuel m' => extends_with P m m'
  end.
Proof.
  unfold decode_dispatch, with_empty. run.
  pose proof (steadyb_spec a (nvp m)) as S. unfold steadyb in S.
  destruct ((wsrc (d (nvp m)) =? 0) || (hsrc (d (nvp m)) =? 0)); cbn in S.
  - destruct (empty (nvp m)); run.
    + left. split; auto. eexists [_]. split; [reflexivity |].
      cbn. now rewrite P_log.
    + exists []. split; [now rewrite app_nil_r | reflexivity].
  - run.
    destruct (negb (wsrc (d (nvp m)) =? wi (d (nvp m)))
              || negb (hsrc (d (nvp m)) =? hi (d (nvp m)))
              || negb (wdst (d (nvp m)) =? width a)
              || negb (hdst (d (nvp m)) =? height a)); cbn in S.
    + match goal with
      | |- context [resize ?w ?h ?x ?y ?o ?m1] =>
          pose proof (resize_extends P P_log P_create P_destroy P_free
                        P_alloc w h x y o m1) as H;
          destruct (resize w h x y o m1); auto
      end.
    + match goal with
      | |- context [present_frame ?a ?o ?m1] =>
          pose proof (present_frame_stops a o m1) as Hstop;
          destruct (present_frame a o m1) eqn:E; auto;
          try contradiction
      end.
      * right. split; [apply S |]; reflexivity.
      * right. split; [apply S |]; reflexivity.
Qed.

(** A call that returns either left early with a library error, or went
    through the frame path exactly once, at its end; a call that stops
    either stopped before the frame path, or in it. *)
Lemma decode_outcome_over fuel a o :
  forall m,
    match nvp_cuvid_decode fuel a o m with
    | Ret e m' =>
        ((e = NVPIPE_EINVAL \/ e = NVPIPE_EDECODE) /\
         extends_with P m m') \/
        (exists m1,
            extends_with P m m1 /\ steady a (nvp m1) /\
            empty (nvp m1) = false /\
            present_frame a o m1 = Ret e m')
    | Abort msg m' =>
        extends_with P m m' \/
        (exists m1,
            extends_with P m m1 /\ steady a (nvp m1) /\
            empty (nvp m1) = false /\
            present_frame a o m1 = Abort msg m')
    | OutOfFuel m' => extends_with P m m'
    end.
Proof.
  assert (Href : forall x, extends_with P x x) by apply extends_with_refl.
  assert (Htrans : forall x y z, extends_with P x y -> extends_with P y z ->
                                 extends_with P x z)
    by apply extends_with_trans.
  induction fuel as [| fuel IH]; intros m;
    rewrite nvp_cuvid_decode_unfold; unfold bind at 1, decode_pass, bind at 1;
    pose proof (decode_submit_extends P P_log P_cbret P_create P_free P_alloc
                  P_mkparser P_parse P_decpic a o m) as Hs;
    pose proof (decode_submit_early a o m) as He;
    destruct (decode_submit a o m) as [[e0 |] m0 | |]; auto.
  1, 3: unfold ret; left; auto.
  all: pose proof (decode_dispatch_shape_over a o m0) as Hd;
    destruct (decode_dispatch a o m0) as [[e1 |] m1 | |]; eauto.
  1, 4: unfold ret;
    destruct Hd as [[-> Hx] | [Hst Hp]];
    [ left; split; eauto
    | right; exists (with_empty false m0);
      split; [exact Hs | split; [exact Hst | split; [reflexivity | exact Hp]]] ].
  - unfold out_of_fuel. eauto.
  - destruct Hd as [Hx | [Hst Hp]]; [left; eauto |].
    right. exists (with_empty false m0).
    split; [exact Hs | split; [exact Hst | split; [reflexivity | exact Hp]]].
  - assert (Hm : extends_with P m m1) by eauto.
    specialize (IH m1).
    destruct (nvp_cuvid_decode fuel a o m1); eauto.
    + destruct IH as [[Hx Hy] | [mp [Hx [Hy [Hy' Hz]]]]].
      * left. split; eauto.
      * right. exists mp. split; eauto.
    + destruct IH as [Hx | [mp [Hx [Hy [Hy' Hz]]]]].
      * left. eauto.
      * right. exists mp. split; eauto.
  - destruct Hd as [Hx | [Hst Hp]]; [left; eauto |].
    right. exists (with_empty false m0).
    split; [exact Hs | split; [exact Hst | split; [reflexivity | exact Hp]]].
Qed.
End BeforeTheFrame.

Lemma decode_outcome fuel a o m :
  match nvp_cuvid_decode fuel a o m with
  | Ret e m' =>
      ((e = NVPIPE_EINVAL \/ e = NVPIPE_EDECODE) /\
       extends_with not_successful_map m m') \/
      (exists m1,
          extends_with not_successful_map m m1 /\ steady a (nvp m1) /\
          empty (nvp m1) = false /\
          present_frame a o m1 = Ret e m')
  | Abort msg m' =>
      extends_with not_successful_map m m' \/
      (exists m1,
          extends_with not_successful_map m m1 /\ steady a (nvp m1) /\
          empty (nvp m1) = false /\
          present_frame a o m1 = Abort msg m')
  | OutOfFuel m' => extends_with not_successful_map m m'
  end.
Proof. apply decode_outcome_over; reflexivity. Qed.

Lemma decode_returns fuel a o m e m' :
  nvp_cuvid_decode fuel a o m = Ret e m' ->
  ((e = NVPIPE_EINVAL \/ e = NVPIPE_EDECODE) /\
   extends_with not_successful_map m m') \/
  (exists m1,
      extends_with not_successful_map m m1 /\ steady a (nvp m1) /\
      empty (nvp m1) = false /\
      present_frame a o m1 = Ret e m').
Proof.
  intros H. pose proof (decode_outcome fuel a o m) as S.
  now rewrite H in S.
Qed.

(* ------------------------------------------------------------------ *)
(** ** Unmapping (C7) *)

Lemma present_frame_needs_decoder a o m e m' :
  present_frame a o m = Ret e m' -> exists dec, decoder (nvp m) = Some dec.
Proof.
  unfold present_frame. run.
  destruct (decoder (nvp m)) as [dec |]; cbn; [eauto | discriminate].
Qed.

Lemma conversion_event_not_map ev :
  forallb conversion_event ev = true ->
  forallb not_successful_map ev = true.
Proof.
  induction ev as [| x ev IH]; cbn; [reflexivity |].
  intros H. apply andb_prop in H. destruct H as [Hx Hev].
  rewrite IH by assumption.
  destruct x as [c r | |]; try discriminate. now destruct c.
Qed.

(** A trace with a single successful map splits around it in one way. *)
Lemma first_successful_map_unique :
  forall E x rest pre y post,
    forallb not_successful_map E = true ->
    forallb not_successful_map rest = true ->
    E ++ x :: rest = pre ++ y :: post ->
    not_successful_map y = false ->
    pre = E /\ y = x /\ post = rest.
Proof.
  induction E as [| e0 E IH]; intros x rest pre y post HE Hrest Heq Hy.
  - destruct pre as [| p pre]; cbn in Heq.
    + inversion Heq. auto.
    + inversion Heq; subst. rewrite forallb_app in Hrest. cbn in Hrest.
      rewrite Hy in Hrest. rewrite andb_false_r in Hrest. discriminate.
  - cbn in HE. apply andb_prop in HE. destruct HE as [He0 HE].
    destruct pre as [| p pre]; cbn in Heq.
    + inversion Heq; subst. congruence.
    + inversion Heq; subst.
      destruct (IH _ _ _ _ _ HE Hrest H1 Hy) as [-> [-> ->]]. auto.
Qed.

Lemma no_successful_map_in ev pre dec pic pf mrs post :
  forallb not_successful_map ev = true ->
  ev = pre ++ Called (cuvidMapVideoFrame dec pic pf) mrs :: post ->
  CU_ok mrs = true -> False.
Proof.
  intros F -> Hok. rewrite forallb_app in F. cbn in F.
  rewrite Hok in F. cbn in F. rewrite andb_false_r in F. discriminate.
Qed.

(** The fate of a picture that a call of decode has mapped successfully.
    Either the call returns, and what follows the map in its trace is:
    conversion calls only (converter creation, submit, host copy,
    synchronise), then the unmap of that very picture on that decoder, then
    at most the warning that the unmap failed; the returned value is the
    first failed status among submit, copy and synchronise, or success.  Or
    the session had no converter and [nv122rgb] handed out none: the call
    stops right there, and the picture stays mapped. *)
Lemma mapped_picture_fate :
  forall fuel a o m pre dec pic pf mrs post,
    trace (machine_of (nvp_cuvid_decode fuel a o m)) =
    trace m ++ pre ++ Called (cuvidMapVideoFrame dec pic pf) mrs :: post ->
    CU_ok mrs = true ->
    (exists mid u m',
        post = mid ++ Called (cuvidUnmapVideoFrame dec (r_value mrs)) u
                   :: unmap_warning u /\
        forallb conversion_event mid = true /\
        nvp_cuvid_decode fuel a o m = Ret (errcode_of mid) m') \/
    (exists c msg m',
        post = [Called nv122rgb c] /\ CU_ok c = false /\
        nvp_cuvid_decode fuel a o m = Abort msg m').
Proof.
  intros fuel a o m pre dec pic pf mrs post Htr Hok.
  pose proof (decode_outcome fuel a o m) as Hrun.
  destruct (nvp_cuvid_decode fuel a o m) as [e m' | msg m' | m']; cbn in Htr.
  - left.
    destruct Hrun as [[_ [ev [Hev F]]] | [m1 [[ev [Hev F]] [_ [_ Hp]]]]].
    { rewrite Htr in Hev. apply app_inv_head in Hev.
      exfalso. eapply no_successful_map_in; eauto. }
    destruct (present_frame_needs_decoder _ _ _ _ _ Hp) as [dec0 Hdec].
    pose proof (present_frame_spec a o m1 dec0 Hdec) as S. cbn zeta in S.
    rewrite Hp in S. destruct S as [_ [_ S]].
    destruct (CU_ok (o (clock m1) (cuvidMapVideoFrame (Some dec0) 0 1)))
      eqn:Emap.
    + destruct S as [mid [u [Ht [He Hc]]]].
      rewrite Hev, <- app_assoc in Ht. rewrite Htr in Ht.
      apply app_inv_head in Ht.
      symmetry in Ht.
      apply first_successful_map_unique in Ht; auto.
      * destruct Ht as [_ [Hy ->]]. inversion Hy; subst. eauto 6.
      * rewrite forallb_app. rewrite conversion_event_not_map by assumption.
        cbn. unfold unmap_warning. now destruct (CU_ok u).
      * cbn. now rewrite Hok.
    + destruct S as [Ht He].
      rewrite Hev, <- app_assoc in Ht. rewrite Htr in Ht.
      apply app_inv_head in Ht.
      exfalso.
      eapply (no_successful_map_in (ev ++ _));
        [| symmetry; exact Ht | exact Hok].
      rewrite forallb_app, F. cbn. now rewrite Emap.
  - right.
    destruct Hrun as [[ev [Hev F]] | [m1 [[ev [Hev F]] [_ [_ Hp]]]]].
    { rewrite Htr in Hev. apply app_inv_head in Hev.
      exfalso. eapply no_successful_map_in; eauto. }
    destruct (decoder (nvp m1)) as [dec0 |] eqn:Hdec.
    + pose proof (present_frame_spec a o m1 dec0 Hdec) as S. cbn zeta in S.
      rewrite Hp in S. destruct S as [Emap [_ [_ [c [Hc Ht]]]]].
      rewrite Hev, <- app_assoc in Ht. rewrite Htr in Ht.
      apply app_inv_head in Ht.
      symmetry in Ht.
      apply first_successful_map_unique in Ht; auto.
      * destruct Ht as [_ [Hy ->]]. inversion Hy; subst. eauto 6.
      * cbn. now rewrite Hok.
    + exfalso. revert Hp. unfold present_frame. run. rewrite Hdec. cbn.
      intros Hp. inversion Hp; subst.
      rewrite Htr in Hev. apply app_inv_head in Hev.
      eapply no_successful_map_in; eauto.
  - exfalso. destruct Hrun as [ev [Hev F]]. rewrite Htr in Hev.
    apply app_inv_head in Hev. eapply no_successful_map_in; eauto.
Qed.

(* ------------------------------------------------------------------ *)
(** ** Which engine failures are converted (C8) *)

Lemma forallb_excludes {A} (P : A -> bool) ev pre x post :
  forallb P ev = true -> ev = pre ++ x :: post -> P x = false -> False.
Proof.
  intros F -> Hx. rewrite forallb_app in F. cbn in F.
  rewrite Hx in F. rewrite andb_false_r in F. discriminate.
Qed.

Lemma extends_with_events P m m' ev :
  trace m' = trace m ++ ev -> forallb P ev = true -> extends_with P m m'.
Proof. intros H F. exists ev. auto. Qed.

Lemma fire_no_failed_submission cbs :
  respects (extends_with no_failed_submission) (fire cbs).
Proof. apply fire_extends; reflexivity. Qed.

Lemma decode_dispatch_no_failed_submission a :
  respects (extends_with no_failed_submission) (decode_dispatch a).
Proof. apply decode_dispatch_extends; reflexivity. Qed.

(** A submission that met a failed parser creation or a failed parse
    returns [NVPIPE_EDECODE]. *)
Lemma decode_submit_converts a o m :
  match decode_submit a o m with
  | Ret x m' =>
      x = Some NVPIPE_EDECODE \/ extends_with no_failed_submission m m'
  | Abort _ _ | OutOfFuel _ => True
  end.
Proof.
  unfold decode_submit, initialize_parser. run.
  destruct (nvp_type_eqb (impl_type (nvp m)) DECODER); run;
    [| right; eapply extends_with_events; cbn; reflexivity ].
  destruct (ibuf_sz a =? 0); run;
    [ right; eapply extends_with_events; cbn; reflexivity |].
  destruct ((width a =? 0) || (height a =? 0) || (Z.land (height a) 1 =? 1));
    run; [ right; eapply extends_with_events; cbn; reflexivity |].
  destruct (is_null (parser (nvp m))); run.
  - destruct (CU_ok (o (clock m) _)) eqn:E0; run; auto.
    match goal with
    | |- context [fire ?c ?o ?m1] =>
        pose proof (fire_no_failed_submission c o m1) as Hf;
        destruct (fire c o m1) as [[] m2 | |]; auto
    end.
    match goal with |- context [CU_ok ?r] => destruct (CU_ok r) eqn:E1 end;
      run; auto.
    right. eapply extends_with_trans; [| exact Hf].
    eapply extends_with_events;
      [ cbn; rewrite <- app_assoc; reflexivity | cbn; now rewrite E0, E1 ].
  - match goal with
    | |- context [fire ?c ?o ?m1] =>
        pose proof (fire_no_failed_submission c o m1) as Hf;
        destruct (fire c o m1) as [[] m2 | |]; auto
    end.
    match goal with |- context [CU_ok ?r] => destruct (CU_ok r) eqn:E1 end;
      run; auto.
    right. eapply extends_with_trans; [| exact Hf].
    eapply extends_with_events; [ cbn; reflexivity | cbn; now rewrite E1 ].
Qed.

Lemma decode_converts fuel a o :
  forall m,
    match nvp_cuvid_decode fuel a o m with
    | Ret e m' =>
        e = NVPIPE_EDECODE \/ extends_with no_failed_submission m m'
    | Abort _ _ | OutOfFuel _ => True
    end.
Proof.
  induction fuel as [| fuel IH]; intros m;
    rewrite nvp_cuvid_decode_unfold; unfold bind at 1, decode_pass, bind at 1;
    pose proof (decode_submit_converts a o m) as Hs;
    destruct (decode_submit a o m) as [[e0 |] m0 | |]; auto.
  1, 3: unfold ret; destruct Hs as [Hs | Hs]; [inversion Hs |]; auto.
  all: destruct Hs as [Hs | Hs]; [discriminate |];
    pose proof (decode_dispatch_no_failed_submission a o m0) as Hd;
    destruct (decode_dispatch a o m0) as [[e1 |] m1 | |]; auto.
  1, 3: unfold ret; right; eauto.
  - unfold out_of_fuel. auto.
  - specialize (IH m1). destruct (nvp_cuvid_decode fuel a o m1); auto.
    destruct IH; eauto.
Qed.

(** A raw status in [errcode] is the status of an inspected call that
    failed. *)
Lemma errcode_of_raw ev r :
  errcode_of ev = nvp_err_of_CUresult r ->
  exists pre c rep post,
    ev = pre ++ Called c rep :: post /\ status_checked c = true /\
    CU_ok rep = false /\ r = r_result rep.
Proof.
  induction ev as [| x ev IH]; cbn; [discriminate |].
  destruct x as [c rep | |].
  - destruct (status_checked c) eqn:Ec; cbn.
    + destruct (CU_ok rep) eqn:Eok; cbn.
      * intros H. destruct (IH H) as [pre [c' [rep' [post [-> Hrest]]]]].
        exists (Called c rep :: pre), c', rep', post. auto.
      * intros H. inversion H. exists [], c, rep, ev. auto.
    + intros H. destruct (IH H) as [pre [c' [rep' [post [-> Hrest]]]]].
      exists (Called c rep :: pre), c', rep', post. auto.
  - intros H. destruct (IH H) as [pre [c' [rep' [post [-> Hrest]]]]].
    exists (Logged l msg :: pre), c', rep', post. auto.
  - intros H. destruct (IH H) as [pre [c' [rep' [post [-> Hrest]]]]].
    exists (CallbackReturned ret0 :: pre), c', rep', post. auto.
Qed.

(** A failed call of the second kind in the trace of a call that returns
    is the one whose status is returned. *)
Lemma failed_frame_call_is_returned fuel a o m e m' :
  nvp_cuvid_decode fuel a o m = Ret e m' ->
  forall pre c rep post,
    trace m' = trace m ++ pre ++ Called c rep :: post ->
    unconverted_call c = true -> CU_ok rep = false ->
    e = nvp_err_of_CUresult (r_result rep).
Proof.
  intros Hrun pre c rep post Htr Hc Hfail.
  assert (Hnot : not_a_frame_call (Called c rep) = false)
    by (cbn; now rewrite Hc).
  pose proof (decode_outcome_over not_a_frame_call
                (fun _ _ => eq_refl) (fun _ => eq_refl) (fun _ _ => eq_refl)
                (fun _ _ => eq_refl) (fun _ _ => eq_refl)
                (fun _ _ => eq_refl) (fun _ _ => eq_refl)
                (fun _ _ _ => eq_refl) (fun _ _ _ => eq_refl) fuel a o m)
    as Hout.
  rewrite Hrun in Hout.
  destruct Hout as [[_ [ev [Hev F]]] | [m1 [[ev [Hev F]] [_ [_ Hp]]]]].
  { rewrite Htr in Hev. apply app_inv_head in Hev. exfalso.
    exact (forallb_excludes _ _ _ _ _ F (eq_sym Hev) Hnot). }
  assert (Hev_no : ~ In (Called c rep) ev).
  { intros Hin. rewrite forallb_forall in F. specialize (F _ Hin).
    congruence. }
  destruct (present_frame_needs_decoder _ _ _ _ _ Hp) as [dec0 Hdec].
  pose proof (present_frame_run a o m1 dec0 Hdec) as S. cbn zeta in S.
  rewrite Hp in S.
  destruct (CU_ok (o (clock m1) (cuvidMapVideoFrame (Some dec0) 0 1)))
    eqn:Emap.
  - destruct S as [c0 [mid [u [_ [Ht [_ [_ [_ [_ Hmid]]]]]]]]].
    rewrite Hev, <- app_assoc in Ht. rewrite Htr in Ht.
    apply app_inv_head in Ht.
    assert (Hin : In (Called c rep)
                     (ev ++ Called (cuvidMapVideoFrame (Some dec0) 0 1)
                              (o (clock m1)
                                 (cuvidMapVideoFrame (Some dec0) 0 1))
                        :: converter_made (nvp m1) c0 ++ mid
                        ++ Called (cuvidUnmapVideoFrame (Some dec0)
                                     (r_value
                                        (o (clock m1)
                                           (cuvidMapVideoFrame (Some dec0)
                                              0 1)))) u
                        :: unmap_warning u))
      by (rewrite <- Ht; apply in_elt).
    apply in_app_or in Hin. destruct Hin as [Hin | Hin]; [contradiction |].
    destruct Hin as [Hx | Hin]; [inversion Hx; subst; congruence |].
    apply in_app_or in Hin. destruct Hin as [Hin | Hin].
    { unfold converter_made in Hin. destruct (reorg (nvp m1)); cbn in Hin;
        [contradiction |].
      destruct Hin as [Hx | []]. inversion Hx; subst. discriminate. }
    apply in_app_or in Hin. destruct Hin as [Hin | Hin].
    { apply in_split in Hin. destruct Hin as [l1 [l2 Hsplit]].
      exact (Hmid _ _ _ _ Hsplit Hfail). }
    destruct Hin as [Hx | Hin]; [inversion Hx; subst; discriminate |].
    unfold unmap_warning in Hin. destruct (CU_ok u); cbn in Hin;
      [contradiction |].
    destruct Hin as [Hx | []]. discriminate.
  - destruct S as [Ht [_ ->]].
    rewrite Hev, <- app_assoc in Ht. rewrite Htr in Ht.
    apply app_inv_head in Ht.
    assert (Hin : In (Called c rep)
                     (ev ++ [Called (cuvidMapVideoFrame (Some dec0) 0 1)
                               (o (clock m1)
                                  (cuvidMapVideoFrame (Some dec0) 0 1));
                             Logged ERR "Failed mapping frame: %d"]))
      by (rewrite <- Ht; apply in_elt).
    apply in_app_or in Hin. destruct Hin as [Hin | Hin]; [contradiction |].
    destruct Hin as [Hx | [Hx | []]]; [| discriminate].
    inversion Hx; subst. reflexivity.
Qed.

(** C8, as the code has it.  Of the engine failures inside a call of decode
    that returns, those of parser creation and of packet parsing are
    converted: the call returns [NVPIPE_EDECODE].  Those of picture mapping,
    format conversion, host copy and synchronisation are not: whenever one
    of these calls fails, the call returns the engine's own failed status
    of that call, and a raw status is never returned for any other
    reason. *)
Theorem engine_failures_at_the_boundary :
  forall fuel a o m e m',
    nvp_cuvid_decode fuel a o m = Ret e m' ->
    (forall pre c rep post,
        trace m' = trace m ++ pre ++ Called c rep :: post ->
        converted_call c = true -> CU_ok rep = false ->
        e = NVPIPE_EDECODE) /\
    (forall pre c rep post,
        trace m' = trace m ++ pre ++ Called c rep :: post ->
        unconverted_call c = true -> CU_ok rep = false ->
        e = nvp_err_of_CUresult (r_result rep)) /\
    (forall r,
        e = nvp_err_of_CUresult r ->
        exists pre c rep post,
          trace m' = trace m ++ pre ++ Called c rep :: post /\
          unconverted_call c = true /\ CU_ok rep = false /\
          r = r_result rep).
Proof.
  intros fuel a o m e m' Hrun. split; [| split].
  - intros pre c rep post Htr Hc Hfail.
    pose proof (decode_converts fuel a o m) as Hconv. rewrite Hrun in Hconv.
    destruct Hconv as [He | [ev [Hev F]]]; [exact He |].
    rewrite Htr in Hev. apply app_inv_head in Hev. exfalso.
    eapply (forallb_excludes _ _ _ _ _ F (eq_sym Hev)).
    cbn. now rewrite Hc, Hfail.
  - exact (failed_frame_call_is_returned fuel a o m e m' Hrun).
  - intros r ->.
    apply decode_returns in Hrun.
    destruct Hrun as [[[He | He] _] | [m1 [[ev [Hev F]] [_ [_ Hp]]]]];
      try discriminate.
    destruct (present_frame_needs_decoder _ _ _ _ _ Hp) as [dec0 Hdec].
    pose proof (present_frame_spec a o m1 dec0 Hdec) as S. cbn zeta in S.
    rewrite Hp in S. destruct S as [_ [_ S]].
    destruct (CU_ok (o (clock m1) (cuvidMapVideoFrame (Some dec0) 0 1)))
      eqn:Emap.
    + destruct S as [mid [u [Ht [He Hc]]]]. symmetry in He.
      apply errcode_of_raw in He.
      destruct He as [pre [c [rep [post [-> [Hsc [Hfail Hr]]]]]]].
      exists (ev ++ Called (cuvidMapVideoFrame (Some dec0) 0 1)
                      (o (clock m1) (cuvidMapVideoFrame (Some dec0) 0 1))
                 :: pre), c, rep.
      eexists. split; [| split; [| split]]; try eassumption.
      * rewrite Ht, Hev. rewrite <- !app_assoc. cbn.
        rewrite <- ?app_assoc. reflexivity.
      * destruct c; try discriminate; reflexivity.
    + destruct S as [Ht He]. inversion He; subst.
      exists ev, (cuvidMapVideoFrame (Some dec0) 0 1),
        (o (clock m1) (cuvidMapVideoFrame (Some dec0) 0 1)).
      eexists. split; [| split; [| split]]; try eassumption; try reflexivity.
      rewrite Ht, Hev. rewrite <- !app_assoc. reflexivity.
Qed.

(** On [map_fails] the first call on a fresh session maps no picture: the
    engine answers 999, and 999 is what decode returns. *)
Lemma raw_status_is_returned :
  exists m',
    nvp_cuvid_decode 0 (packet 64 64) map_fails fresh =
    Ret (nvp_err_of_CUresult 999) m' /\
    library_error (nvp_err_of_CUresult 999) = false.
Proof. eexists. split; [vm_compute; reflexivity | reflexivity]. Qed.

(* ------------------------------------------------------------------ *)
(** ** The pending-empty flag (C2) *)






(* ------------------------------------------------------------------ *)
(** ** (Re)initialisation and the intermediate buffer (C4) *)

(** Everything [dec_initialize] does, from a session whose decoder handle
    is NULL and for positive sizes (its three assertions). *)
Lemma dec_initialize_spec iw ih dw dh o m :
  0 < iw -> 0 < ih -> 0 < dw -> 0 < dh -> decoder (nvp m) = None ->
  let n := nvp m in
  let crt := make_crt iw ih dw dh in
  let rc := o (clock m) (cuvidCreateDecoder crt) in
  let rf := o (S (clock m)) (cuMemFree (rgb n)) in
  let differs := output_size_differs dw dh n in
  exists b m' ev,
    dec_initialize iw ih dw dh o m = Ret b m' /\
    trace m' = trace m ++ Called (cuvidCreateDecoder crt) rc :: ev /\
    forallb buffer_event ev = true /\
    (wi (d (nvp m')) = iw /\ hi (d (nvp m')) = ih /\
     wsrc (d (nvp m')) = wsrc (d n) /\ hsrc (d (nvp m')) = hsrc (d n) /\
     parser (nvp m') = parser n /\ impl_type (nvp m') = impl_type n /\
     empty (nvp m') = empty n) /\
    decoder (nvp m') = (if CU_ok rc then Some crt else None) /\
    frees (rgb n) ev = CU_ok rc && differs && negb (rgb n =? 0) /\
    allocates (to_size_t (dw * dh * 3)) ev =
      CU_ok rc && differs && ((rgb n =? 0) || CU_ok rf) /\
    (CU_ok rc && differs = false ->
     rgb (nvp m') = rgb n /\
     wdst (d (nvp m')) = wdst (d n) /\ hdst (d (nvp m')) = hdst (d n)) /\
    (CU_ok rc && negb differs = true -> ev = [] /\ b = true) /\
    (b = true ->
     initialized (nvp m') = true /\
     wdst (d (nvp m')) = dw /\ hdst (d (nvp m')) = dh) /\
    (b = false ->
     initialized (nvp m') = initialized n /\
     wdst (d (nvp m')) = wdst (d n) /\ hdst (d (nvp m')) = hdst (d n)).
Proof.
  intros Hiw Hih Hdw Hdh Hdec n crt rc rf differs.
  unfold dec_initialize, dec_initialize_buffer. run.
  apply Z.ltb_lt in Hiw, Hih, Hdw, Hdh.
  rewrite Hiw, Hih; run. rewrite Hdw, Hdh; run. rewrite Hdec; run.
  fold n crt rc.
  subst differs. unfold output_size_differs. fold n.
  destruct (CU_ok rc) eqn:Ec; run.
  2:{ do 3 eexists. split; [reflexivity |].
      split; [rewrite <- app_assoc; reflexivity |].
      cbn. repeat split; auto; congruence. }
  destruct (Z.eqb_spec dw (wdst (d n))) as [Ew | Ew];
    destruct (Z.eqb_spec dh (hdst (d n))) as [Eh | Eh]; cbn.
  1:{ do 3 eexists. split; [reflexivity |].
      split; [reflexivity |]. cbn. repeat split; auto; congruence. }
  all: destruct (rgb n =? 0) eqn:Er; run; fold rf;
    [| destruct (CU_ok rf) eqn:Ef; run ];
    match goal with
    | |- context [CU_ok (?f ?k (cuMemAlloc ?nb))] =>
        destruct (CU_ok (f k (cuMemAlloc nb))) eqn:Ea; run
    | _ => idtac
    end;
    (do 3 eexists; split; [reflexivity |];
     split; [rewrite <- ?app_assoc; reflexivity |];
     cbn; rewrite ?Z.eqb_refl, ?Er, ?orb_true_r; cbn;
     repeat split; auto; congruence).
Qed.

(** [dec_initialize] returns only when its assertions held. *)
Lemma dec_initialize_ret_pre iw ih dw dh o m b m' :
  dec_initialize iw ih dw dh o m = Ret b m' ->
  0 < iw /\ 0 < ih /\ 0 < dw /\ 0 < dh /\ decoder (nvp m) = None.
Proof.
  unfold dec_initialize. run.
  destruct (Z.ltb_spec 0 iw), (Z.ltb_spec 0 ih); cbn; try discriminate.
  destruct (Z.ltb_spec 0 dw), (Z.ltb_spec 0 dh); cbn; try discriminate.
  destruct (decoder (nvp m)); cbn; try discriminate. auto.
Qed.

Lemma resize_unfold w h dw dh o m :
  resize w h dw dh o m =
  (_ <- dec_initialize w h dw dh ;; ret tt) o (after_destroy ERR o m).
Proof.
  unfold resize, destroy_decoder_if_any, after_destroy. run.
  destruct (decoder (nvp m)) as [dec |]; run; [| reflexivity].
  destruct (CU_ok (o (clock m) (cuvidDestroyDecoder dec))); run.
  - now rewrite app_nil_r.
  - reflexivity.
Qed.

Lemma decode_dispatch_resizes a o m :
  size_unknown m = false -> steadyb a (nvp m) = false ->
  decode_dispatch a o m =
  (resize (wsrc (d (nvp m))) (hsrc (d (nvp m))) (width a) (height a) ;;
   ret Resubmit) o (with_empty false m).
Proof.
  unfold size_unknown, steadyb. intros Hk Hs. rewrite Hk in Hs. cbn in Hs.
  apply negb_false_iff in Hs.
  unfold decode_dispatch. run. rewrite Hk. run. rewrite Hs. reflexivity.
Qed.

Lemma allocates_app nb ev1 ev2 :
  allocates nb (ev1 ++ ev2) = allocates nb ev1 || allocates nb ev2.
Proof. apply existsb_app. Qed.

(** What the allocation of [dec_initialize] leaves: the buffer the engine
    handed out, with the requested size recorded, or no buffer, with the
    recorded size as it was. *)
Lemma dec_initialize_allocation iw ih dw dh o m b m' ev :
  dec_initialize iw ih dw dh o m = Ret b m' ->
  trace m' = trace m ++ ev ->
  forall nb ra,
    In (Called (cuMemAlloc nb) ra) ev ->
    nb = to_size_t (dw * dh * 3) /\
    if CU_ok ra
    then b = true /\ rgb (nvp m') = r_value ra /\
         wdst (d (nvp m')) = dw /\ hdst (d (nvp m')) = dh
    else b = false /\ rgb (nvp m') = 0 /\
         wdst (d (nvp m')) = wdst (d (nvp m)) /\
         hdst (d (nvp m')) = hdst (d (nvp m)).
Proof.
  assert (Hcut : forall (t ev1 ev2 : list event),
             t ++ ev1 = t ++ ev2 -> ev2 = ev1)
    by (intros t ev1 ev2 E; apply app_inv_head in E; now symmetry).
  unfold dec_initialize, dec_initialize_buffer. run.
  destruct ((0 <? iw) && (0 <? ih)); run; [| discriminate].
  destruct ((0 <? dw) && (0 <? dh)); run; [| discriminate].
  destruct (decoder (nvp m)); run; [discriminate |].
  destruct (CU_ok (o (clock m) _)); run.
  2:{ intros Hrun Htr nb ra Hin. inversion Hrun; subst. cbn in Htr.
      rewrite <- app_assoc in Htr. apply Hcut in Htr. subst ev.
      cbn in Hin. destruct Hin as [Hx | [Hx | []]]; discriminate. }
  destruct (negb (dw =? wdst (d (nvp m))) || negb (dh =? hdst (d (nvp m))));
    run.
  2:{ intros Hrun Htr nb ra Hin. inversion Hrun; subst. cbn in Htr.
      apply Hcut in Htr. subst ev.
      cbn in Hin. destruct Hin as [Hx | []]; discriminate. }
  destruct (rgb (nvp m) =? 0); run.
  - destruct (CU_ok (o (S (clock m)) _)) eqn:Ea; run;
      intros Hrun Htr nb ra Hin; inversion Hrun; subst; cbn in Htr;
      rewrite <- ?app_assoc in Htr; apply Hcut in Htr; subst ev;
      cbn in Hin;
      repeat (destruct Hin as [Hx | Hin]; [try discriminate |]);
      try contradiction;
      inversion Hx; subst; rewrite Ea; auto.
  - destruct (CU_ok (o (S (clock m)) _)) eqn:Ef; run.
    2:{ intros Hrun Htr nb ra Hin. inversion Hrun; subst. cbn in Htr.
        rewrite <- ?app_assoc in Htr. apply Hcut in Htr. subst ev.
        cbn in Hin.
        repeat (destruct Hin as [Hx | Hin]; [try discriminate |]);
          contradiction. }
    destruct (CU_ok (o (S (S (clock m))) _)) eqn:Ea; run;
      intros Hrun Htr nb ra Hin; inversion Hrun; subst; cbn in Htr;
      rewrite <- ?app_assoc in Htr; apply Hcut in Htr; subst ev;
      cbn in Hin;
      repeat (destruct Hin as [Hx | Hin]; [try discriminate |]);
      try contradiction;
      inversion Hx; subst; rewrite Ea; auto.
Qed.

Lemma allocates_In nb ev :
  allocates nb ev = true -> exists ra, In (Called (cuMemAlloc nb) ra) ev.
Proof.
  unfold allocates. intros H. apply existsb_exists in H.
  destruct H as [[[] ra | |] [Hin Hx]]; try discriminate.
  apply Z.eqb_eq in Hx. subst. eauto.
Qed.

(** C4, as the code has it.  Take any run of [dec_initialize] that returns
    (its assertions held).  Its first call creates the decoder.  The old
    intermediate buffer is released exactly when the decoder was created,
    the requested output size differs from the recorded one and a buffer is
    held; a buffer is requested exactly when the decoder was created, the
    sizes differ and the old buffer, if any, was released, and it is
    requested at [dstwidth*dstheight*3] bytes.  When that allocation
    succeeds, the buffer handed out is the buffer of the session and the
    requested size is the recorded output size.  When the decoder is not
    created or the sizes are equal, the buffer and the recorded output size
    stay as they were.  The recorded input size
    becomes the input size passed.  A pass of decode in which only the
    requested output size changed, on an engine that creates decoders and
    releases and allocates buffers, leaves the session with a buffer of the
    new size, the new size recorded, and the recorded input size
    unchanged. *)
Theorem buffer_follows_output_size :
  forall iw ih dw dh o m b m',
    dec_initialize iw ih dw dh o m = Ret b m' ->
    let n := nvp m in
    let crt := make_crt iw ih dw dh in
    let rc := o (clock m) (cuvidCreateDecoder crt) in
    let rf := o (S (clock m)) (cuMemFree (rgb n)) in
    let differs := output_size_differs dw dh n in
    (exists ev,
        trace m' = trace m ++ Called (cuvidCreateDecoder crt) rc :: ev /\
        frees (rgb n) ev = CU_ok rc && differs && negb (rgb n =? 0) /\
        allocates (to_size_t (dw * dh * 3)) ev =
          CU_ok rc && differs && ((rgb n =? 0) || CU_ok rf) /\
        (forall nb ra,
            In (Called (cuMemAlloc nb) ra) ev ->
            nb = to_size_t (dw * dh * 3) /\
            (CU_ok ra = true ->
             b = true /\ rgb (nvp m') = r_value ra /\
             wdst (d (nvp m')) = dw /\ hdst (d (nvp m')) = dh)) /\
        (CU_ok rc && differs = false ->
         rgb (nvp m') = rgb n /\
         wdst (d (nvp m')) = wdst (d n) /\ hdst (d (nvp m')) = hdst (d n)) /\
        wi (d (nvp m')) = iw /\ hi (d (nvp m')) = ih /\
        (b = true -> wdst (d (nvp m')) = dw /\ hdst (d (nvp m')) = dh)) /\
    (forall a o' m0,
        size_unknown m0 = false ->
        wsrc (d (nvp m0)) = wi (d (nvp m0)) ->
        hsrc (d (nvp m0)) = hi (d (nvp m0)) ->
        0 < wi (d (nvp m0)) -> 0 < hi (d (nvp m0)) ->
        0 < width a -> 0 < height a ->
        output_size_differs (width a) (height a) (nvp m0) = true ->
        (forall k c, CU_ok (o' k (cuvidCreateDecoder c)) = true) ->
        (forall k p, CU_ok (o' k (cuMemFree p)) = true) ->
        (forall k nb, CU_ok (o' k (cuMemAlloc nb)) = true) ->
        exists m2 ev ra,
          decode_dispatch a o' m0 = Ret Resubmit m2 /\
          trace m2 = trace m0 ++ ev /\
          In (Called (cuMemAlloc (to_size_t (width a * height a * 3))) ra)
             ev /\
          CU_ok ra = true /\
          rgb (nvp m2) = r_value ra /\
          wdst (d (nvp m2)) = width a /\ hdst (d (nvp m2)) = height a /\
          wi (d (nvp m2)) = wi (d (nvp m0)) /\
          hi (d (nvp m2)) = hi (d (nvp m0))).
Proof.
  intros iw ih dw dh o m b m' Hrun n crt rc rf differs. split.
  - destruct (dec_initialize_ret_pre _ _ _ _ _ _ _ _ Hrun)
      as [Hiw [Hih [Hdw [Hdh Hdec]]]].
    destruct (dec_initialize_spec iw ih dw dh o m Hiw Hih Hdw Hdh Hdec)
      as [b0 [m0 [ev [Hr [Ht [_ [Hd [_ [Hf [Ha [Hu [_ [Hb _]]]]]]]]]]]]].
    rewrite Hrun in Hr. inversion Hr; subst b0 m0.
    exists ev. split; [exact Ht |]. split; [exact Hf |].
    split; [exact Ha |]. split.
    { intros nb ra Hin.
      destruct (dec_initialize_allocation iw ih dw dh o m b m' _ Hrun Ht
                  nb ra (or_intror Hin)) as [Hnb Hres].
      split; [exact Hnb |]. intros Hok. now rewrite Hok in Hres. }
    split; [exact Hu |]. split; [tauto |]. split; [tauto |].
    intros E. destruct (Hb E) as [_ H]. exact H.
  - clear. intros a o m Hk Hw Hh Hwi Hhi Hwa Hha Hdiff Hc Hf Hal.
    assert (Hs : steadyb a (nvp m) = false).
    { unfold steadyb. unfold output_size_differs in Hdiff.
      rewrite (Z.eqb_sym (wdst (d (nvp m)))), (Z.eqb_sym (hdst (d (nvp m)))).
      destruct (width a =? wdst (d (nvp m))),
        (height a =? hdst (d (nvp m))); cbn in Hdiff; try discriminate;
        cbn; rewrite ?orb_true_r, ?andb_false_r; reflexivity. }
    rewrite (decode_dispatch_resizes a o m Hk Hs).
    unfold bind at 1. rewrite resize_unfold. unfold bind at 1.
    set (md := after_destroy ERR o (with_empty false m)).
    assert (Hmd : nvp md = set_decoder None (set_empty false (nvp m)) /\
                  exists ev0, trace md = trace m ++ ev0).
    { subst md. unfold after_destroy, with_empty. cbn.
      destruct (decoder (nvp m)); cbn; split; auto.
      - rewrite <- app_assoc. eauto.
      - exists []. now rewrite app_nil_r. }
    destruct Hmd as [Hn [ev0 Hev0]].
    assert (Hdec : decoder (nvp md) = None) by now rewrite Hn.
    rewrite <- Hw in Hwi. rewrite <- Hh in Hhi.
    destruct (dec_initialize_spec _ _ _ _ o md Hwi Hhi Hwa Hha Hdec)
      as [b [m2 [ev [Hr [Ht [_ [Hd [_ [_ [Ha _]]]]]]]]]].
    assert (Hall : allocates (to_size_t (width a * height a * 3)) ev = true).
    { rewrite Ha, Hc, Hf, orb_true_r, Hn.
      unfold output_size_differs in *. cbn. now rewrite Hdiff. }
    apply allocates_In in Hall. destruct Hall as [ra Hin].
    destruct (dec_initialize_allocation _ _ _ _ _ _ _ _ _ Hr Ht _ _
                (or_intror Hin)) as [_ Hres].
    assert (Hra : CU_ok ra = true).
    { apply in_split in Hin. destruct Hin as [l1 [l2 Hsplit]].
      revert Hr Ht. clear - Hsplit Hal Hdec Hn.
      unfold dec_initialize, dec_initialize_buffer. run.
      destruct ((0 <? _) && (0 <? _)); run; [| discriminate].
      destruct ((0 <? _) && (0 <? _)); run; [| discriminate].
      rewrite Hdec. run.
      destruct (CU_ok (o (clock md) _)); run;
        repeat (match goal with
                | |- context [if ?x then _ else _] => destruct x eqn:?
                end; run);
        intros Hr Ht; inversion Hr; subst; cbn in Ht;
        rewrite <- ?app_assoc in Ht; apply app_inv_head in Ht;
        cbn in Ht; inversion Ht; subst;
        assert (Hin : In (Called (cuMemAlloc
                                    (to_size_t (width a * height a * 3))) ra)
                         (l1 ++ Called (cuMemAlloc
                                    (to_size_t (width a * height a * 3))) ra
                             :: l2)) by apply in_elt;
        match goal with
        | E : _ = l1 ++ _ :: l2 |- _ => rewrite <- E in Hin
        end; cbn in Hin;
        repeat (destruct Hin as [Hx | Hin]; [try discriminate |]);
        try contradiction;
        inversion Hx; subst; apply Hal. }
    rewrite Hra in Hres. destruct Hres as [_ [Hrgb [Hwd Hhd]]].
    rewrite Hr. unfold ret. exists m2. eexists. exists ra.
    split; [reflexivity |].
    split; [rewrite Ht, Hev0, <- app_assoc; reflexivity |].
    split; [apply in_or_app; right; now right |].
    split; [exact Hra |]. split; [exact Hrgb |].
    split; [exact Hwd |]. split; [exact Hhd |].
    destruct Hd as [Hd1 [Hd2 _]]. rewrite Hd1, Hd2. auto.
Qed.

(* ------------------------------------------------------------------ *)
(** ** Resize and resubmit (C1) *)

(** A call that returns success ends in the steady state. *)
Lemma decode_success_steady fuel a o m m' :
  nvp_cuvid_decode fuel a o m = Ret NVPIPE_SUCCESS m' -> steady a (nvp m').
Proof.
  intros H. apply decode_returns in H.
  destruct H as [[[H | H] _] | [m1 [_ [Hst [_ Hp]]]]]; try discriminate.
  destruct (present_frame_needs_decoder _ _ _ _ _ Hp) as [dec Hdec].
  pose proof (present_frame_spec a o m1 dec Hdec) as S. cbn zeta in S.
  rewrite Hp in S. destruct S as [Hd _].
  unfold steady in *. now rewrite Hd.
Qed.

(** The last steps of a pass, once the sizes are found to match. *)
Lemma decode_dispatch_presents a o m :
  steady a (nvp m) ->
  (s <- decode_dispatch a ;;
   match s with Return e => ret e | Resubmit => out_of_fuel end) o m =
  present_frame a o (with_empty false m).
Proof.
  intros Hst. apply steadyb_spec in Hst. unfold steadyb in Hst.
  apply andb_prop in Hst. destruct Hst as [Hk Hs].
  apply negb_true_iff in Hk, Hs.
  unfold decode_dispatch. run. rewrite Hk. run. rewrite Hs.
  unfold with_empty. run.
  destruct (present_frame a o _); reflexivity.
Qed.

(** [dec_initialize] returns true only after the decoder was created. *)
Lemma dec_initialize_true_created iw ih dw dh o m m' :
  dec_initialize iw ih dw dh o m = Ret true m' ->
  CU_ok (o (clock m) (cuvidCreateDecoder (make_crt iw ih dw dh))) = true.
Proof.
  unfold dec_initialize. run.
  destruct ((0 <? iw) && (0 <? ih)); run; [| discriminate].
  destruct ((0 <? dw) && (0 <? dh)); run; [| discriminate].
  destruct (decoder (nvp m)); run; [discriminate |].
  destruct (CU_ok (o (clock m) _)); run; [reflexivity | discriminate].
Qed.

(** C1, as the code has it.  Take a call of decode whose submission went
    through leaving [m1], where the sizes do not match: the picture size
    differs from the input size the decoder was created with, or the
    requested size from the recorded output size.  Suppose the
    reinitialization of lines 328-331 succeeds ([dec_initialize] returns
    true, leaving [m2]).  Then the pass has destroyed the decoder it held,
    created one with input size = observed size and output size = requested
    size, recorded both, produced no output, and goes on as the same call
    on the same arguments from [m2].  The resubmission checks the sizes
    again: when it finds them matching, the call ends with the frame path on
    that pass (a single resize); when it finds them different, it resizes
    again.  A call that returns success ends with the recorded input size
    equal to the observed size and the recorded output size equal to the
    requested one. *)
Theorem resize_and_resubmit :
  forall fuel a o m m1 m2,
    decode_submit a o m = Ret None m1 ->
    steadyb a (nvp m1) = false ->
    let w := wsrc (d (nvp m1)) in
    let h := hsrc (d (nvp m1)) in
    let crt := make_crt w h (width a) (height a) in
    let md := after_destroy ERR o (with_empty false m1) in
    dec_initialize w h (width a) (height a) o md = Ret true m2 ->
    (forall dec,
        decoder (nvp m1) = Some dec ->
        exists r logs,
          trace md = trace m1 ++ Called (cuvidDestroyDecoder dec) r :: logs /\
          forallb is_log logs = true) /\
    decode_dispatch a o m1 = Ret Resubmit m2 /\
    (exists rc ev,
        trace m2 = trace md ++ Called (cuvidCreateDecoder crt) rc :: ev /\
        CU_ok rc = true /\ forallb buffer_event ev = true) /\
    decoder (nvp m2) = Some crt /\
    wi (d (nvp m2)) = w /\ hi (d (nvp m2)) = h /\
    wdst (d (nvp m2)) = width a /\ hdst (d (nvp m2)) = height a /\
    nvp_cuvid_decode (S fuel) a o m = nvp_cuvid_decode fuel a o m2 /\
    (forall m3,
        decode_submit a o m2 = Ret None m3 -> steady a (nvp m3) ->
        nvp_cuvid_decode (S fuel) a o m =
        present_frame a o (with_empty false m3)) /\
    (forall m3,
        decode_submit a o m2 = Ret None m3 ->
        size_unknown m3 = false -> steadyb a (nvp m3) = false ->
        decode_dispatch a o m3 =
        (resize (wsrc (d (nvp m3))) (hsrc (d (nvp m3))) (width a) (height a) ;;
         ret Resubmit) o (with_empty false m3)) /\
    (forall m',
        nvp_cuvid_decode (S fuel) a o m = Ret NVPIPE_SUCCESS m' ->
        steady a (nvp m')).
Proof.
  intros fuel a o m m1 m2 Hs Hmis w h crt md Hinit.
  destruct (dec_initialize_ret_pre _ _ _ _ _ _ _ _ Hinit)
    as [Hw [Hh [Hwa [Hha Hdec]]]].
  pose proof (dec_initialize_true_created _ _ _ _ _ _ _ Hinit) as Hrc.
  split.
  { intros dec Hd. subst md. unfold after_destroy, with_empty. cbn.
    rewrite Hd. do 2 eexists. split.
    - rewrite <- app_assoc. reflexivity.
    - match goal with
      | |- context [if ?b then _ else _] => destruct b; reflexivity
      end. }
  assert (Hk : size_unknown m1 = false).
  { unfold size_unknown. fold w h.
    destruct (Z.eqb_spec w 0); [lia |].
    destruct (Z.eqb_spec h 0); [lia |]. reflexivity. }
  destruct (dec_initialize_spec w h (width a) (height a) o md
              Hw Hh Hwa Hha Hdec)
    as [b [mx [ev [Hr [Ht [Hbe [Hd [Hdc [_ [_ [_ [_ [Hb _]]]]]]]]]]]]].
  rewrite Hinit in Hr. inversion Hr; subst b mx. clear Hr.
  fold crt in Hrc, Ht, Hdc. rewrite Hrc in Hdc.
  destruct (Hb eq_refl) as [_ [Hwd Hhd]].
  assert (Hdisp : decode_dispatch a o m1 = Ret Resubmit m2).
  { rewrite (decode_dispatch_resizes a o m1 Hk Hmis).
    unfold bind at 1. rewrite resize_unfold. unfold bind at 1.
    fold w h md. now rewrite Hinit. }
  assert (Hgo : nvp_cuvid_decode (S fuel) a o m =
                nvp_cuvid_decode fuel a o m2).
  { rewrite (nvp_cuvid_decode_unfold (S fuel)).
    unfold bind at 1, decode_pass, bind at 1. now rewrite Hs, Hdisp. }
  split; [exact Hdisp |].
  split; [exists (o (clock md) (cuvidCreateDecoder crt)), ev; auto |].
  split; [exact Hdc |]. split; [tauto |]. split; [tauto |].
  split; [exact Hwd |]. split; [exact Hhd |].
  split; [exact Hgo |]. split; [| split].
  - intros m3 Hs3 Hst. rewrite Hgo.
    rewrite <- (decode_dispatch_presents a o m3 Hst).
    rewrite nvp_cuvid_decode_unfold.
    unfold bind at 1, decode_pass, bind at 1. rewrite Hs3.
    unfold bind. destruct (decode_dispatch a o m3) as [[e |] mx | |] eqn:E;
      try reflexivity.
    exfalso. pose proof (decode_dispatch_presents a o m3 Hst) as Hp.
    unfold bind in Hp. rewrite E in Hp. unfold out_of_fuel in Hp.
    pose proof (present_frame_stops a o (with_empty false m3)) as Hstop.
    rewrite <- Hp in Hstop. exact Hstop.
  - intros m3 _ Hk3 Hmis3. exact (decode_dispatch_resizes a o m3 Hk3 Hmis3).
  - intros m' Hm'. eapply decode_success_steady; eauto.
Qed.

(* ------------------------------------------------------------------ *)
(** ** Recorded sizes against the live decoder (C5) *)

(** C5 fails on the code.  The steady 64x64 session is asked for 128x128
    while device memory is short: [dec_initialize] creates the decoder for a
    128x128 target, the allocation fails, and the recorded output size stays
    64x64 with no buffer; the resubmission is rejected and decode returns.
    The recorded sizes are no longer those of the live decoder.  The next
    call, asking for 64x64 again, finds the recorded sizes matching and
    takes the steady-state path: it converts into the NULL buffer, with the
    decoder made for 128x128, and reports success. *)
Theorem allocation_failure_breaks_recorded_sizes :
  exists broken final,
    dims_consistent (nvp steady64) = true /\
    nvp_cuvid_decode 1 (packet 128 128) alloc_then_parse_fails steady64 =
    Ret NVPIPE_EDECODE broken /\
    decoder (nvp broken) = Some (make_crt 64 64 128 128) /\
    wdst (d (nvp broken)) = 64 /\ hdst (d (nvp broken)) = 64 /\
    rgb (nvp broken) = 0 /\
    dims_consistent (nvp broken) = false /\
    nvp_cuvid_decode 0 (packet 64 64) working_engine broken =
    Ret NVPIPE_SUCCESS final /\
    In (Called (reorg_submit {| strm := 7 |} 36864 64 64 0 64)
               (answer CUDA_SUCCESS 0))
       (new_events broken final).
Proof.
  do 2 eexists. split; [reflexivity |].
  split; [vm_compute; reflexivity |].
  do 5 (split; [reflexivity |]).
  split; [vm_compute; reflexivity |].
  vm_compute. tauto.
Qed.

(* ------------------------------------------------------------------ *)
(** ** Resubmission without end (C3) *)

Lemma stuck_pass m :
  stuck (nvp m) ->
  exists m',
    decode_pass (packet 128 128) create128_fails m = Ret Resubmit m' /\
    stuck (nvp m').
Proof.
  destruct m as [[ty ini dec prs dm buf emp reo] k tr].
  unfold stuck. cbn. intros [-> [-> [-> ->]]].
  destruct dec as [crt |]; eexists; (split; [vm_compute; reflexivity |]);
    cbn; auto.
Qed.

(** C3 fails on the code.  The steady 64x64 session is asked for 128x128 on
    an engine that cannot create a decoder for that target: [resize] drops
    the result of [dec_initialize], the recorded output size never becomes
    the requested one, and every pass resizes and resubmits again.  Whatever
    number of resubmissions the call is allowed, it needs one more. *)
Theorem failed_creation_resubmits_forever :
  forall fuel,
  exists m',
    nvp_cuvid_decode fuel (packet 128 128) create128_fails steady64 =
    OutOfFuel m'.
Proof.
  assert (G : forall fuel m,
             stuck (nvp m) ->
             exists m',
               nvp_cuvid_decode fuel (packet 128 128) create128_fails m =
               OutOfFuel m').
  { induction fuel as [| fuel IH]; intros m Hm;
      destruct (stuck_pass m Hm) as [m1 [Hp Hm1]];
      rewrite nvp_cuvid_decode_unfold; unfold bind; rewrite Hp.
    - eexists. reflexivity.
    - apply IH. exact Hm1. }
  intros fuel. apply G. vm_compute. auto.
Qed.

(* ------------------------------------------------------------------ *)
(** ** Destruction (C9) *)

Lemma calls_of_app ev1 ev2 : calls_of (ev1 ++ ev2) = calls_of ev1 ++ calls_of ev2.
Proof.
  induction ev1 as [| [c r | |] ev1 IH]; cbn; [reflexivity | | assumption ..].
  now rewrite IH.
Qed.


(* ------------------------------------------------------------------ *)
(** ** Unhandled bit depth (C10) *)







(* ------------------------------------------------------------------ *)
(** ** Protocols: composition *)

Lemma follow_app {G} (step : G -> event -> option G) g ev1 ev2 :
  follow step g (ev1 ++ ev2) =
  match follow step g ev1 with
  | Some g' => follow step g' ev2
  | None => None
  end.
Proof.
  revert g. induction ev1 as [| e ev1 IH]; intros g; cbn; [reflexivity |].
  destruct (step g e); [apply IH | reflexivity].
Qed.

Lemma keeps_refl {G} (step : G -> event -> option G) ghost m :
  keeps step ghost m m.
Proof. exists []. split; [now rewrite app_nil_r | reflexivity]. Qed.

Lemma keeps_trans {G} (step : G -> event -> option G) ghost m1 m2 m3 :
  keeps step ghost m1 m2 -> keeps step ghost m2 m3 -> keeps step ghost m1 m3.
Proof.
  intros [e1 [H1 F1]] [e2 [H2 F2]]. exists (e1 ++ e2). split.
  - rewrite H2, H1. now rewrite app_assoc.
  - rewrite follow_app, F1. exact F2.
Qed.

#[local] Hint Resolve keeps_refl keeps_trans : core.

(** Events on which a protocol does not move. *)
Lemma follow_neutral {G} (step : G -> event -> option G) (P : event -> bool)
      g :
  (forall e, P e = true -> step g e = Some g) ->
  forall ev, forallb P ev = true -> follow step g ev = Some g.
Proof.
  intros Hn. induction ev as [| e ev IH]; intros F; cbn; [reflexivity |].
  cbn in F. apply andb_prop in F. destruct F as [He F].
  rewrite (Hn e He). apply IH. exact F.
Qed.

Lemma keeps_intro {G} (step : G -> event -> option G) ghost m m' ev :
  trace m' = trace m ++ ev ->
  follow step (ghost (nvp m)) ev = Some (ghost (nvp m')) ->
  keeps step ghost m m'.
Proof. intros Ht Hf. exists ev. split; assumption. Qed.

(** Closes [t = trace m ++ ?ev] for a trace [t] built by appending to
    [trace m]. *)
Ltac trace_eq :=
  cbn [trace];
  lazymatch goal with
  | |- ?lhs = _ =>
      let t := fresh "t" in
      let Ht := fresh "Ht" in
      remember lhs as t eqn:Ht;
      rewrite <- ?app_assoc in Ht; subst t;
      first [ reflexivity | symmetry; apply app_nil_r ]
  end.

(** A relation that every pass respects is respected by the whole call. *)
Lemma respects_decode_pass (R : machine -> machine -> Prop) a :
  (forall m, R m m) -> (forall m1 m2 m3, R m1 m2 -> R m2 m3 -> R m1 m3) ->
  respects R (decode_submit a) -> respects R (decode_dispatch a) ->
  respects R (decode_pass a).
Proof.
  intros Hr Ht Hs Hd. unfold decode_pass. frame assumption.
Qed.

Lemma respects_decode (R : machine -> machine -> Prop) a :
  (forall m, R m m) -> (forall m1 m2 m3, R m1 m2 -> R m2 m3 -> R m1 m3) ->
  respects R (decode_pass a) ->
  forall fuel, respects R (nvp_cuvid_decode fuel a).
Proof.
  intros Hr Ht Hp. induction fuel as [| fuel IH]; intros o m;
    rewrite nvp_cuvid_decode_unfold; unfold bind;
    specialize (Hp o m);
    destruct (decode_pass a o m) as [[e |] m1 | |]; auto.
  specialize (IH o m1).
  destruct (nvp_cuvid_decode fuel a o m1); eauto.
Qed.

(* ------------------------------------------------------------------ *)
(** ** The decoder handle *)

Ltac keeps_base :=
  intros ? ?; unfold keeps; unfold_monad; cbn;
  first [ exists []; split; [now rewrite app_nil_r | reflexivity]
        | eexists [_]; split; reflexivity ].

Lemma dec_initialize_buffer_keeps_decoder dw dh :
  respects (keeps decoder_step decoder_held) (dec_initialize_buffer dw dh).
Proof. unfold dec_initialize_buffer. frame keeps_base. Qed.

Lemma dec_initialize_keeps_decoder iw ih dw dh :
  respects (keeps decoder_step decoder_held) (dec_initialize iw ih dw dh).
Proof.
  intros o m. unfold dec_initialize. run.
  destruct ((0 <? iw) && (0 <? ih)); cbn; [| apply keeps_refl].
  destruct ((0 <? dw) && (0 <? dh)); cbn; [| apply keeps_refl].
  destruct (decoder (nvp m)) eqn:Ed; cbn; [apply keeps_refl |].
  destruct (CU_ok (o (clock m) _)) eqn:Ec; cbn.
  - match goal with
    | |- context [dec_initialize_buffer dw dh o ?m1] =>
        pose proof (dec_initialize_buffer_keeps_decoder dw dh o m1) as Hb;
        assert (keeps decoder_step decoder_held m m1) as H1
    end.
    { eexists [_]. split; [reflexivity |]. unfold decoder_held. cbn.
      rewrite Ed. cbn. now rewrite Ec. }
    destruct (dec_initialize_buffer dw dh o _); eauto.
  - eexists [_; _]. split; [now rewrite <- app_assoc |].
    unfold decoder_held. cbn. rewrite Ed. cbn. now rewrite Ec.
Qed.

Lemma after_destroy_keeps_decoder l o m :
  keeps decoder_step decoder_held m (after_destroy l o m).
Proof.
  unfold after_destroy, keeps, decoder_held.
  destruct (decoder (nvp m)) as [dec |]; cbn.
  - eexists (_ :: _). split; [now rewrite <- app_assoc |]. cbn.
    destruct (CU_ok _); reflexivity.
  - exists []. split; [now rewrite app_nil_r | reflexivity].
Qed.

Lemma resize_keeps_decoder w h dw dh :
  respects (keeps decoder_step decoder_held) (resize w h dw dh).
Proof.
  intros o m. rewrite resize_unfold. unfold bind.
  pose proof (after_destroy_keeps_decoder ERR o m) as H1.
  pose proof (dec_initialize_keeps_decoder w h dw dh o
                (after_destroy ERR o m)) as H2.
  destruct (dec_initialize w h dw dh o (after_destroy ERR o m)); cbn; eauto.
Qed.

Lemma same_decoder_refl m : same_decoder m m.
Proof. reflexivity. Qed.

Lemma same_decoder_trans m1 m2 m3 :
  same_decoder m1 m2 -> same_decoder m2 m3 -> same_decoder m1 m3.
Proof. unfold same_decoder. congruence. Qed.

#[local] Hint Resolve same_decoder_refl same_decoder_trans : core.

Ltac same_decoder_base :=
  intros ? ?; unfold same_decoder; unfold_monad; cbn; reflexivity.

Lemma present_frame_same_decoder a : respects same_decoder (present_frame a).
Proof. unfold present_frame, convert_and_copy. frame same_decoder_base. Qed.

Lemma conversion_event_decoder_neutral g e :
  conversion_event e = true -> decoder_step g e = Some g.
Proof. destruct e as [[] r | |]; cbn; try discriminate; reflexivity. Qed.

Lemma present_frame_keeps_decoder a :
  respects (keeps decoder_step decoder_held) (present_frame a).
Proof.
  intros o m. destruct (decoder (nvp m)) as [dec |] eqn:Ed.
  - pose proof (present_frame_spec a o m dec Ed) as Hs.
    pose proof (present_frame_same_decoder a o m) as Hd.
    destruct (present_frame a o m) as [e m' | msg m' |];
      try contradiction; cbn in Hs; unfold same_decoder in Hd;
      unfold keeps, decoder_held; rewrite Hd, Ed.
    + destruct Hs as [_ [_ Hs]]. destruct (CU_ok _).
      * destruct Hs as [mid [u [Ht [_ Hc]]]].
        eexists. split; [exact Ht |]. cbn.
        rewrite follow_app,
          (follow_neutral decoder_step conversion_event true
             (conversion_event_decoder_neutral true) mid Hc).
        cbn. unfold unmap_warning. destruct (CU_ok u); reflexivity.
      * destruct Hs as [Ht _]. eexists. split; [exact Ht | reflexivity].
    + destruct Hs as [_ [_ [_ [c [_ Ht]]]]].
      eexists. split; [exact Ht | reflexivity].
  - unfold present_frame. run. rewrite Ed. cbn. apply keeps_refl.
Qed.

Lemma dec_ode_keeps_decoder pic :
  respects (keeps decoder_step decoder_held) (dec_ode pic).
Proof.
  intros o m. unfold dec_ode. run.
  destruct (CU_ok (o (clock m) _)); run.
  all: unfold keeps, decoder_held; cbn.
  - eexists [_]. split; [reflexivity |]. cbn. now rewrite Bool.eqb_reflx.
  - eexists [_; _]. split; [now rewrite <- app_assoc |]. cbn.
    now rewrite Bool.eqb_reflx.
Qed.

Ltac decoder_base' :=
  first [ apply dec_initialize_keeps_decoder
        | apply resize_keeps_decoder
        | apply present_frame_keeps_decoder
        | apply dec_ode_keeps_decoder
        | keeps_base ].

Lemma fire_keeps_decoder cbs :
  respects (keeps decoder_step decoder_held) (fire cbs).
Proof.
  induction cbs as [| cb cbs IH].
  - rewrite fire_nil. frame keeps_base.
  - rewrite fire_cons. unfold fire_one, dec_sequence.
    frame ltac:(first [ exact IH | decoder_base' ]).
Qed.

Lemma decode_pass_keeps_decoder a :
  respects (keeps decoder_step decoder_held) (decode_pass a).
Proof.
  apply respects_decode_pass; eauto.
  - unfold decode_submit, initialize_parser.
    frame ltac:(first [ apply fire_keeps_decoder | keeps_base ]).
  - unfold decode_dispatch. frame decoder_base'.
Qed.

(** X1.  The decoder handle through a call of [nvp_cuvid_decode], whatever
    the engine answers, however the call ends and however often it
    resubmits: a decoder is created only while the session holds none, it
    is destroyed only while the session holds one, a picture is mapped and
    unmapped only on a decoder the session holds, and the session holds a
    decoder afterwards exactly when the last creation succeeded and no
    destruction followed it.  [cuvidDecodePicture] is not guarded: it is
    passed a decoder while the session holds one and NULL while it holds
    none. *)
Theorem decode_keeps_decoder_protocol fuel a o m :
  keeps decoder_step decoder_held m
        (machine_of (nvp_cuvid_decode fuel a o m)).
Proof.
  pose proof (respects_decode (keeps decoder_step decoder_held) a
                (keeps_refl _ _) (keeps_trans _ _)
                (decode_pass_keeps_decoder a) fuel o m) as H.
  destruct (nvp_cuvid_decode fuel a o m); exact H.
Qed.

(* ------------------------------------------------------------------ *)
(** ** The three ways through [decode_submit] *)

Lemma decode_submit_cases a o m :
  (valid_args a (nvp m) = false /\
   exists msg,
     decode_submit a o m =
       Ret (Some NVPIPE_EINVAL)
           {| nvp := nvp m; clock := clock m;
              trace := trace m ++ [Logged ERR msg] |}) \/
  (valid_args a (nvp m) = true /\ parser (nvp m) = None /\
   exists r,
     CU_ok r = false /\
     decode_submit a o m =
       Ret (Some NVPIPE_EDECODE)
           {| nvp := nvp m; clock := S (clock m);
              trace := trace m
                       ++ [Called (cuvidCreateVideoParser make_prs) r;
                           Logged ERR "failed creating video parser."] |}) \/
  (valid_args a (nvp m) = true /\ parser_fails o m = false /\
   decode_submit a o m = submit_packet a o (with_parser o m)).
Proof.
  unfold valid_args, parser_fails, with_parser, decode_submit,
    submit_packet, initialize_parser. run.
  destruct (nvp_type_eqb (impl_type (nvp m)) DECODER); run;
    [| left; split; [reflexivity | eexists; reflexivity]].
  destruct (ibuf_sz a =? 0); run;
    [left; split; [reflexivity | eexists; reflexivity] |].
  destruct ((width a =? 0) || (height a =? 0) || (Z.land (height a) 1 =? 1));
    run; [left; split; [reflexivity | eexists; reflexivity] |].
  destruct (parser (nvp m)) as [p |] eqn:Ep; run.
  - right; right. rewrite Ep. auto.
  - destruct (CU_ok (o (clock m) _)) eqn:Ec; run.
    + right; right. auto.
    + right; left. split; [reflexivity |]. split; [reflexivity |].
      eexists. split; [exact Ec |]. now rewrite <- app_assoc.
Qed.

(* ------------------------------------------------------------------ *)
(** ** Events a whole call is made of *)

Lemma decode_extends (P : event -> bool) fuel a :
  (forall l msg, P (Logged l msg) = true) ->
  (forall z, P (CallbackReturned z) = true) ->
  (forall c r, P (Called (cuvidCreateDecoder c) r) = true) ->
  (forall c r, P (Called (cuvidDestroyDecoder c) r) = true) ->
  (forall p r, P (Called (cuMemFree p) r) = true) ->
  (forall n r, P (Called (cuMemAlloc n) r) = true) ->
  (forall p r, P (Called (cuvidCreateVideoParser p) r) = true) ->
  (forall p k r, P (Called (cuvidParseVideoData p k) r) = true) ->
  (forall x p r, P (Called (cuvidDecodePicture x p) r) = true) ->
  (forall x i f r, P (Called (cuvidMapVideoFrame x i f) r) = true) ->
  (forall x p r, P (Called (cuvidUnmapVideoFrame x p) r) = true) ->
  (forall r, P (Called nv122rgb r) = true) ->
  (forall f x w h p q r, P (Called (reorg_submit f x w h p q) r) = true) ->
  (forall x y n z r, P (Called (cuMemcpyDtoHAsync x y n z) r) = true) ->
  (forall f r, P (Called (reorg_sync f) r) = true) ->
  respects (extends_with P) (nvp_cuvid_decode fuel a).
Proof.
  intros. apply respects_decode;
    [apply extends_with_refl | apply extends_with_trans |].
  apply respects_decode_pass;
    [apply extends_with_refl | apply extends_with_trans | |].
  - apply decode_submit_extends; assumption.
  - apply decode_dispatch_extends; assumption.
Qed.

(* ------------------------------------------------------------------ *)
(** ** The parser handle *)

Lemma fire_keeps_parser cbs :
  respects (keeps parser_step parser_held) (fire cbs).
Proof.
  induction cbs as [| cb cbs IH].
  - rewrite fire_nil. frame keeps_base.
  - rewrite fire_cons.
    unfold fire_one, dec_sequence, dec_ode, dec_initialize,
      dec_initialize_buffer.
    frame ltac:(first [ exact IH | keeps_base ]).
Qed.

Lemma submit_packet_keeps_parser a o m :
  parser_held (nvp m) = true ->
  match submit_packet a o m with
  | Ret _ m' | Abort _ m' | OutOfFuel m' =>
      keeps parser_step parser_held m m'
  end.
Proof.
  intros Hp. unfold submit_packet. run.
  match goal with
  | |- context [fire ?cbs o ?m1] =>
      pose proof (fire_keeps_parser cbs o m1) as Hf;
      assert (keeps parser_step parser_held m m1) as H1
  end.
  { eexists [_]. split; [reflexivity |]. cbn.
    unfold parser_held, holds in Hp |- *. now rewrite !Hp. }
  destruct (fire _ o _) as [[] m2 | |]; eauto.
  destruct (CU_ok _); run; [eauto |].
  eapply keeps_trans; [eapply keeps_trans; [exact H1 | exact Hf] |].
  eexists [_]. split; reflexivity.
Qed.

Lemma decode_submit_keeps_parser a :
  respects (keeps parser_step parser_held) (decode_submit a).
Proof.
  intros o m.
  destruct (decode_submit_cases a o m)
    as [[_ [msg ->]] | [[_ [Hn [r [Hr ->]]]] | [_ [Hf ->]]]].
  - eexists [_]. split; reflexivity.
  - eexists [_; _]. split; [reflexivity |]. unfold parser_held. cbn.
    rewrite Hn. cbn. now rewrite Hr.
  - assert (keeps parser_step parser_held m (with_parser o m)) as H1.
    { unfold with_parser, parser_fails in *.
      destruct (parser (nvp m)) eqn:Ep; [apply keeps_refl |].
      cbn in Hf. apply negb_false_iff in Hf.
      eexists [_]. split; [reflexivity |]. unfold parser_held. cbn.
      rewrite Ep. cbn. now rewrite Hf. }
    assert (parser_held (nvp (with_parser o m)) = true) as Hh.
    { unfold with_parser, parser_held.
      destruct (parser (nvp m)) eqn:Ep; [now rewrite Ep | reflexivity]. }
    pose proof (submit_packet_keeps_parser a o _ Hh) as H2.
    destruct (submit_packet a o (with_parser o m)); eauto.
Qed.

Lemma decode_pass_keeps_parser a :
  respects (keeps parser_step parser_held) (decode_pass a).
Proof.
  apply respects_decode_pass; eauto.
  - apply decode_submit_keeps_parser.
  - unfold decode_dispatch, resize, destroy_decoder_if_any, dec_initialize,
      dec_initialize_buffer, present_frame, convert_and_copy.
    frame keeps_base.
Qed.

(** X2.  The parser through a call of [nvp_cuvid_decode], whatever the
    engine answers and however the call ends: a parser is created only
    while the session holds none, a packet is submitted only to a parser
    the session holds, and the call never releases the parser; the session
    holds a parser afterwards exactly when it held one before or the
    creation succeeded. *)
Theorem decode_keeps_parser_protocol fuel a o m :
  keeps parser_step parser_held m
        (machine_of (nvp_cuvid_decode fuel a o m)) /\
  extends_with parser_not_released m
        (machine_of (nvp_cuvid_decode fuel a o m)).
Proof.
  pose proof (respects_decode (keeps parser_step parser_held) a
                (keeps_refl _ _) (keeps_trans _ _)
                (decode_pass_keeps_parser a) fuel o m) as H.
  assert (respects (extends_with parser_not_released)
            (nvp_cuvid_decode fuel a)) as H'
    by (apply decode_extends; intros; reflexivity).
  specialize (H' o m).
  destruct (nvp_cuvid_decode fuel a o m); split; assumption.
Qed.

(* ------------------------------------------------------------------ *)
(** ** The converter *)

Lemma conversion_of_converter a f n data pitch e :
  conversion_of a f n data pitch e = true ->
  converter_step (Some f) e = Some (Some f).
Proof.
  destruct e as [[] r | |]; cbn; try discriminate; intros H;
    repeat (apply andb_prop in H; destruct H as [H ?]);
    repeat match goal with
           | E : (_ =? _) = true |- _ => apply Z.eqb_eq in E
           end;
    try match goal with E : strm _ = strm f |- _ => rewrite E end;
    subst; now rewrite Z.eqb_refl.
Qed.

Lemma present_frame_keeps_converter a :
  respects (keeps converter_step reorg) (present_frame a).
Proof.
  intros o m. destruct (decoder (nvp m)) as [dec |] eqn:Ed.
  - pose proof (present_frame_run a o m dec Ed) as H. cbn zeta in H.
    destruct (present_frame a o m) as [e m' | msg m' |];
      [| | contradiction].
    + destruct (CU_ok _).
      * destruct H as [c [mid [u [Hok [Ht [Hn [Hc _]]]]]]].
        eapply keeps_intro; [exact Ht |]. rewrite Hn.
        unfold converter_for, converter_made in *.
        destruct (reorg (nvp m)) as [f |] eqn:Er; cbn; rewrite ?Er, ?Hok;
          rewrite follow_app,
            (follow_neutral converter_step _ _
               (conversion_of_converter a _ (nvp m) _ _) mid Hc);
          cbn; unfold unmap_warning; destruct (CU_ok u); reflexivity.
      * destruct H as [Ht [Hn _]].
        eapply keeps_intro; [exact Ht |]. now rewrite Hn.
    + destruct H as [_ [Er [Hn [c [Hc Ht]]]]].
      eapply keeps_intro; [exact Ht |]. rewrite Hn, Er. cbn.
      now rewrite Hc.
  - unfold present_frame. run. rewrite Ed. cbn. apply keeps_refl.
Qed.

Lemma fire_keeps_converter cbs :
  respects (keeps converter_step reorg) (fire cbs).
Proof.
  induction cbs as [| cb cbs IH].
  - rewrite fire_nil. frame keeps_base.
  - rewrite fire_cons.
    unfold fire_one, dec_sequence, dec_ode, dec_initialize,
      dec_initialize_buffer.
    frame ltac:(first [ exact IH | keeps_base ]).
Qed.

Lemma decode_pass_keeps_converter a :
  respects (keeps converter_step reorg) (decode_pass a).
Proof.
  apply respects_decode_pass; eauto.
  - unfold decode_submit, initialize_parser.
    frame ltac:(first [ apply fire_keeps_converter | keeps_base ]).
  - unfold decode_dispatch, resize, destroy_decoder_if_any, dec_initialize,
      dec_initialize_buffer.
    frame ltac:(first [ apply present_frame_keeps_converter | keeps_base ]).
Qed.

(** X3.  The converter through a call of [nvp_cuvid_decode], whatever the
    engine answers and however the call ends: a converter is made only
    while the session has none (and the session still has none when
    [nv122rgb] hands out NULL), every conversion, every wait and the stream
    of every copy are those of the converter the session has, and the call
    never releases the converter. *)
Theorem decode_keeps_converter_protocol fuel a o m :
  keeps converter_step reorg m (machine_of (nvp_cuvid_decode fuel a o m)) /\
  extends_with converter_not_released m
        (machine_of (nvp_cuvid_decode fuel a o m)).
Proof.
  pose proof (respects_decode (keeps converter_step reorg) a
                (keeps_refl _ _) (keeps_trans _ _)
                (decode_pass_keeps_converter a) fuel o m) as H.
  assert (respects (extends_with converter_not_released)
            (nvp_cuvid_decode fuel a)) as H'
    by (apply decode_extends; intros; reflexivity).
  specialize (H' o m).
  destruct (nvp_cuvid_decode fuel a o m); split; assumption.
Qed.

(* ------------------------------------------------------------------ *)
(** ** The intermediate buffer *)

Lemma conversion_of_buffer a f n data pitch e :
  conversion_of a f n data pitch e = true ->
  buffer_step (buffer_held n) e = Some (buffer_held n).
Proof.
  unfold buffer_held.
  destruct e as [[] r | |]; cbn; try discriminate; intros H;
    repeat (apply andb_prop in H; destruct H as [H ?]);
    repeat match goal with
           | E : (_ =? _) = true |- _ => apply Z.eqb_eq in E
           end;
    subst; destruct (rgb n =? 0) eqn:E0; rewrite ?E0, ?Z.eqb_refl;
    reflexivity.
Qed.

Lemma dec_initialize_buffer_keeps_buffer dw dh :
  respects (keeps buffer_step buffer_held) (dec_initialize_buffer dw dh).
Proof.
  intros o m. unfold dec_initialize_buffer. run.
  destruct (negb (dw =? wdst (d (nvp m))) || negb (dh =? hdst (d (nvp m))));
    run; [| apply (keeps_intro _ _ _ _ []); [trace_eq | reflexivity]].
  destruct (rgb (nvp m) =? 0) eqn:E0; run.
  - destruct (CU_ok (o (clock m) _)) eqn:Ea; run;
      (eapply keeps_intro; [trace_eq |]); unfold buffer_held; cbn;
      rewrite E0, ?Ea; cbn; [| reflexivity].
    destruct (r_value _ =? 0); reflexivity.
  - destruct (CU_ok (o (clock m) _)) eqn:Ef; run.
    + destruct (CU_ok (o (S (clock m)) _)) eqn:Ea; run;
        (eapply keeps_intro; [trace_eq |]); unfold buffer_held; cbn;
        rewrite E0, ?Z.eqb_refl, ?Ef, ?Ea; cbn; rewrite ?Ea; cbn;
        [| reflexivity].
      destruct (r_value _ =? 0); reflexivity.
    + eapply keeps_intro; [trace_eq |]. unfold buffer_held. cbn.
      rewrite E0, ?Z.eqb_refl, ?Ef. reflexivity.
Qed.

Lemma present_frame_keeps_buffer a :
  respects (keeps buffer_step buffer_held) (present_frame a).
Proof.
  intros o m. destruct (decoder (nvp m)) as [dec |] eqn:Ed.
  - pose proof (present_frame_run a o m dec Ed) as H. cbn zeta in H.
    destruct (present_frame a o m) as [e m' | msg m' |];
      [| | contradiction].
    + destruct (CU_ok _).
      * destruct H as [c [mid [u [_ [Ht [Hn [Hc _]]]]]]].
        eapply keeps_intro; [exact Ht |].
        assert (buffer_held (nvp m') = buffer_held (nvp m)) as ->
          by (rewrite Hn; destruct (reorg (nvp m)); reflexivity).
        assert (forall g ev, follow buffer_step g (converter_made (nvp m) c
                                                     ++ ev)
                             = follow buffer_step g ev) as Hm
          by (intros; unfold converter_made; destruct (reorg (nvp m));
              reflexivity).
        cbn. rewrite Hm, follow_app,
          (follow_neutral buffer_step _ _
             (conversion_of_buffer a _ (nvp m) _ _) mid Hc).
        cbn. unfold unmap_warning. destruct (CU_ok u); reflexivity.
      * destruct H as [Ht [Hn _]].
        eapply keeps_intro; [exact Ht |]. now rewrite Hn.
    + destruct H as [_ [_ [Hn [c [_ Ht]]]]].
      eapply keeps_intro; [exact Ht |]. now rewrite Hn.
  - unfold present_frame. run. rewrite Ed. cbn. apply keeps_refl.
Qed.

Ltac buffer_base :=
  first [ apply dec_initialize_buffer_keeps_buffer
        | apply present_frame_keeps_buffer
        | keeps_base ].

Lemma fire_keeps_buffer cbs :
  respects (keeps buffer_step buffer_held) (fire cbs).
Proof.
  induction cbs as [| cb cbs IH].
  - rewrite fire_nil. frame keeps_base.
  - rewrite fire_cons.
    unfold fire_one, dec_sequence, dec_ode, dec_initialize.
    frame ltac:(first [ exact IH | buffer_base ]).
Qed.

Lemma decode_pass_keeps_buffer a :
  respects (keeps buffer_step buffer_held) (decode_pass a).
Proof.
  apply respects_decode_pass; eauto.
  - unfold decode_submit, initialize_parser.
    frame ltac:(first [ apply fire_keeps_buffer | keeps_base ]).
  - unfold decode_dispatch, resize, destroy_decoder_if_any, dec_initialize.
    frame buffer_base.
Qed.

(** X4.  The intermediate device buffer through a call of
    [nvp_cuvid_decode], whatever the engine answers and however the call
    ends: a buffer is allocated only while the session holds none, the
    pointer released is the one the session holds (and it stays held when
    the release fails), every conversion writes to and every copy reads
    from the pointer of the session, and a copy from a held buffer reads
    exactly the number of bytes that buffer was allocated with. *)
Theorem decode_keeps_buffer_protocol fuel a o m :
  keeps buffer_step buffer_held m
        (machine_of (nvp_cuvid_decode fuel a o m)).
Proof.
  pose proof (respects_decode (keeps buffer_step buffer_held) a
                (keeps_refl _ _) (keeps_trans _ _)
                (decode_pass_keeps_buffer a) fuel o m) as H.
  destruct (nvp_cuvid_decode fuel a o m); exact H.
Qed.

(* ------------------------------------------------------------------ *)
(** ** Whole sessions *)

Lemma calls_cons c cs : calls (c :: cs) = (_ <- call_api c ;; calls cs).
Proof. reflexivity. Qed.

Lemma calls_nil : calls [] = ret tt.
Proof. reflexivity. Qed.

Lemma decode_respects_decoder fuel a :
  respects (keeps decoder_step decoder_held) (nvp_cuvid_decode fuel a).
Proof.
  apply respects_decode; eauto. apply decode_pass_keeps_decoder.
Qed.

Lemma decode_respects_parser fuel a :
  respects (keeps parser_step parser_held) (nvp_cuvid_decode fuel a).
Proof.
  apply respects_decode; eauto. apply decode_pass_keeps_parser.
Qed.

Lemma decode_respects_converter fuel a :
  respects (keeps converter_step reorg) (nvp_cuvid_decode fuel a).
Proof.
  apply respects_decode; eauto. apply decode_pass_keeps_converter.
Qed.

Lemma decode_respects_buffer fuel a :
  respects (keeps buffer_step buffer_held) (nvp_cuvid_decode fuel a).
Proof.
  apply respects_decode; eauto. apply decode_pass_keeps_buffer.
Qed.

(** A protocol that decoding keeps and that no message moves is kept by
    every sequence of calls. *)
Lemma calls_keep {G} (step : G -> event -> option G) ghost :
  (forall g l msg, step g (Logged l msg) = Some g) ->
  (forall fuel a, respects (keeps step ghost) (nvp_cuvid_decode fuel a)) ->
  forall cs, respects (keeps step ghost) (calls cs).
Proof.
  intros Hl Hd. induction cs as [| c cs IH].
  - rewrite calls_nil. apply respects_ret. apply keeps_refl.
  - rewrite calls_cons.
    apply respects_bind; [apply keeps_trans | | auto].
    destruct c; unfold call_api; [apply Hd | |];
      unfold nvp_cuvid_encode, nvp_cuvid_bitrate;
      intros o m; run; eexists [_]; (split; [reflexivity |]); cbn;
      now rewrite Hl.
Qed.

(** What [nvp_cuvid_destroy] does to the three handles. *)
Lemma destroy_releases_handles o m :
  match nvp_cuvid_destroy o m with
  | Ret _ m' =>
      exists ev,
        trace m' = trace m ++ ev /\
        follow decoder_step (decoder_held (nvp m)) ev = Some false /\
        follow parser_step (parser_held (nvp m)) ev = Some false /\
        follow converter_step (reorg (nvp m)) ev = Some None
  | _ => True
  end.
Proof.
  unfold nvp_cuvid_destroy, destroy_decoder_if_any. run.
  destruct (nvp_type_eqb (impl_type (nvp m)) DECODER); run; [| exact I].
  unfold decoder_held, parser_held.
  destruct (decoder (nvp m)) as [dec |] eqn:Ed; run;
    [ destruct (CU_ok (o (clock m) (cuvidDestroyDecoder dec))); run |];
    (destruct (parser (nvp m)) as [prs |] eqn:Ep; run;
     [ match goal with
       | |- context [CU_ok (?f ?k (cuvidDestroyVideoParser prs))] =>
           destruct (CU_ok (f k (cuvidDestroyVideoParser prs))); run
       end |]);
    match goal with
    | |- context [CU_ok (?f ?k (cuMemFree ?p))] =>
        destruct (CU_ok (f k (cuMemFree p))); run
    end;
    destruct (reorg (nvp m)) as [f |] eqn:Er; run;
    (eexists; split; [trace_eq |]);
    cbn; rewrite ?Z.eqb_refl; repeat split; reflexivity.
Qed.

(** X5.  A session that runs to its end hands back every handle it took:
    from creation to destruction a decoder, a parser and a converter are
    each created only while none is held and released only while one is
    held, and none is held when [nvp_cuvid_destroy] returns (a release call
    counts whatever the engine answers to it).  In between, a
    picture is mapped or unmapped only on a decoder that is held, a packet
    is submitted only to a parser that is held, and a conversion, its wait
    and the stream of a copy go through the converter that is held.
    [cuvidDecodePicture] is the one use that is not guarded: [dec_ode]
    passes it a decoder while one is held and NULL while none is. *)
Theorem session_releases_handles cs o m0 m' :
  session cs o m0 = Ret tt m' ->
  exists ev,
    trace m' = trace m0 ++ ev /\
    follow decoder_step false ev = Some false /\
    follow parser_step false ev = Some false /\
    follow converter_step None ev = Some None.
Proof.
  unfold session, nvp_create_decoder. run.
  match goal with |- context [calls cs o ?m1] => set (m1' := m1) end.
  pose proof (calls_keep decoder_step decoder_held (fun _ _ _ => eq_refl)
                decode_respects_decoder cs o m1') as Hd.
  pose proof (calls_keep parser_step parser_held (fun _ _ _ => eq_refl)
                decode_respects_parser cs o m1') as Hp.
  pose proof (calls_keep converter_step reorg (fun _ _ _ => eq_refl)
                decode_respects_converter cs o m1') as Hc.
  destruct (calls cs o m1') as [[] m2 | |]; try discriminate.
  pose proof (destroy_releases_handles o m2) as Hx.
  destruct (nvp_cuvid_destroy o m2) as [[] m3 | |]; try discriminate.
  intros E. injection E as <-.
  destruct Hd as [ev [Ht Hd]]. destruct Hp as [ev1 [Ht1 Hp]].
  destruct Hc as [ev2 [Ht2 Hc]].
  rewrite Ht in Ht1, Ht2. apply app_inv_head in Ht1, Ht2. subst ev1 ev2.
  destruct Hx as [evx [Htx [Hxd [Hxp Hxc]]]].
  exists (Called cudaDeviceSynchronize (o (clock m0) cudaDeviceSynchronize)
            :: ev ++ evx).
  split.
  - rewrite Htx, Ht. subst m1'. cbn. now rewrite <- !app_assoc.
  - cbn. rewrite !follow_app.
    cbn in Hd, Hp, Hc. rewrite Hd, Hp, Hc. auto.
Qed.

(** X6.  From its creation on, whatever the client calls and however far
    it gets, a session follows all four protocols at once, starting with
    nothing held.  The decoder, the parser and the converter are each
    created only while none is held; the decoder is destroyed only while
    one is held; a buffer is allocated only while the pointer of the
    session is NULL and released only while it is not.  A picture is mapped
    or unmapped only on a decoder that is held, a packet is submitted only
    to a parser that is held, a conversion, its wait and the stream of a
    copy go through the converter that is held.  Conversions write to and
    copies read from the buffer pointer of the session, which may be NULL;
    a copy from a held buffer reads the bytes it was allocated with.  What
    the session records as held is what the calls made so far left held.
    [cuvidDecodePicture] is the one use of the decoder that is not
    guarded: [dec_ode] passes it a decoder while one is held and NULL
    while none is. *)
Theorem clients_follow_protocols cs o m0 :
  exists ev,
    trace (machine_of ((nvp_create_decoder ;; calls cs) o m0)) =
      trace m0 ++ ev /\
    follow decoder_step false ev =
      Some (decoder_held
              (nvp (machine_of ((nvp_create_decoder ;; calls cs) o m0)))) /\
    follow parser_step false ev =
      Some (parser_held
              (nvp (machine_of ((nvp_create_decoder ;; calls cs) o m0)))) /\
    follow converter_step None ev =
      Some (reorg
              (nvp (machine_of ((nvp_create_decoder ;; calls cs) o m0)))) /\
    follow buffer_step None ev =
      Some (buffer_held
              (nvp (machine_of ((nvp_create_decoder ;; calls cs) o m0)))).
Proof.
  unfold nvp_create_decoder. run.
  match goal with |- context [calls cs o ?m1] => set (m1' := m1) end.
  pose proof (calls_keep decoder_step decoder_held (fun _ _ _ => eq_refl)
                decode_respects_decoder cs o m1') as Hd.
  pose proof (calls_keep parser_step parser_held (fun _ _ _ => eq_refl)
                decode_respects_parser cs o m1') as Hp.
  pose proof (calls_keep converter_step reorg (fun _ _ _ => eq_refl)
                decode_respects_converter cs o m1') as Hc.
  pose proof (calls_keep buffer_step buffer_held (fun _ _ _ => eq_refl)
                decode_respects_buffer cs o m1') as Hb.
  assert (exists ev,
             trace (machine_of (calls cs o m1')) = trace m1' ++ ev /\
             follow decoder_step false ev =
               Some (decoder_held (nvp (machine_of (calls cs o m1')))) /\
             follow parser_step false ev =
               Some (parser_held (nvp (machine_of (calls cs o m1')))) /\
             follow converter_step None ev =
               Some (reorg (nvp (machine_of (calls cs o m1')))) /\
             follow buffer_step None ev =
               Some (buffer_held (nvp (machine_of (calls cs o m1')))))
    as [ev [Ht [Fd [Fp [Fc Fb]]]]].
  { destruct (calls cs o m1') as [[] m2 | |]; cbn [machine_of];
      destruct Hd as [ev [Ht Hd]]; destruct Hp as [ev1 [Ht1 Hp]];
      destruct Hc as [ev2 [Ht2 Hc]]; destruct Hb as [ev3 [Ht3 Hb]];
      rewrite Ht in Ht1, Ht2, Ht3;
      apply app_inv_head in Ht1, Ht2, Ht3; subst ev1 ev2 ev3;
      exists ev; auto. }
  exists (Called cudaDeviceSynchronize (o (clock m0) cudaDeviceSynchronize)
            :: ev).
  split; [| cbn; auto].
  destruct (calls cs o m1') as [[] m2 | |]; cbn [machine_of] in *;
    rewrite Ht; subst m1'; cbn; now rewrite <- app_assoc.
Qed.

(** X7.  A decoder serves neither [encode] nor [bitrate]: each logs an
    error and stops at [assert(false)], so a sequence of calls that
    runs to its end made only [decode] calls. *)
Theorem unserved_calls_stop_the_client cs o :
  forall m m', calls cs o m = Ret tt m' -> forallb is_decode cs = true.
Proof.
  induction cs as [| c cs IH]; intros m m'; [reflexivity |].
  rewrite calls_cons. unfold bind.
  destruct c; unfold call_api, nvp_cuvid_encode, nvp_cuvid_bitrate;
    run; try discriminate.
  destruct (nvp_cuvid_decode fuel a o m) as [e m1 | |]; try discriminate.
  apply IH.
Qed.

(* ------------------------------------------------------------------ *)
(** ** What reaches the caller's buffer *)

Lemma conversion_of_fits a f n data pitch e :
  wdst (d n) = width a -> hdst (d n) = height a ->
  conversion_of a f n data pitch e = true -> output_fits a e = true.
Proof.
  intros Hw Hh.
  destruct e as [[] r | |]; cbn; try discriminate; try reflexivity;
    intros H; repeat (apply andb_prop in H; destruct H as [H ?]);
    repeat match goal with
           | E : (_ =? _) = true |- _ => apply Z.eqb_eq in E
           end;
    subst; rewrite <- ?Hw, <- ?Hh, ?Z.eqb_refl; reflexivity.
Qed.

Lemma forallb_impl {A} (P Q : A -> bool) l :
  (forall x, P x = true -> Q x = true) ->
  forallb P l = true -> forallb Q l = true.
Proof.
  intros H. rewrite !forallb_forall. auto.
Qed.

Lemma present_frame_fits a o m :
  wdst (d (nvp m)) = width a -> hdst (d (nvp m)) = height a ->
  match present_frame a o m with
  | Ret _ m' | Abort _ m' | OutOfFuel m' => extends_with (output_fits a) m m'
  end.
Proof.
  intros Hw Hh. destruct (decoder (nvp m)) as [dec |] eqn:Ed.
  - pose proof (present_frame_run a o m dec Ed) as H. cbn zeta in H.
    destruct (present_frame a o m) as [e m' | msg m' |];
      [| | contradiction].
    + destruct (CU_ok _).
      * destruct H as [c [mid [u [_ [Ht [_ [Hc _]]]]]]].
        eapply extends_with_events; [exact Ht |].
        apply (forallb_impl _ _ _
                 (fun e => conversion_of_fits a _ (nvp m) _ _ e Hw Hh))
          in Hc.
        cbn. rewrite !forallb_app. cbn. rewrite Hc.
        unfold converter_made, unmap_warning.
        destruct (reorg (nvp m)), (CU_ok u); reflexivity.
      * destruct H as [Ht _].
        eapply extends_with_events; [exact Ht | reflexivity].
    + destruct H as [_ [_ [_ [c [_ Ht]]]]].
      eapply extends_with_events; [exact Ht | reflexivity].
  - unfold present_frame. run. rewrite Ed. cbn. apply extends_with_refl.
Qed.

Lemma decode_dispatch_fits a :
  respects (extends_with (output_fits a)) (decode_dispatch a).
Proof.
  intros o m. unfold decode_dispatch. run.
  pose proof (steadyb_spec a (nvp m)) as S. unfold steadyb in S.
  destruct ((wsrc (d (nvp m)) =? 0) || (hsrc (d (nvp m)) =? 0)); cbn in S.
  - destruct (empty (nvp m)); run.
    + eexists [_]. split; reflexivity.
    + exists []. split; [now rewrite app_nil_r | reflexivity].
  - run.
    destruct (negb (wsrc (d (nvp m)) =? wi (d (nvp m)))
              || negb (hsrc (d (nvp m)) =? hi (d (nvp m)))
              || negb (wdst (d (nvp m)) =? width a)
              || negb (hdst (d (nvp m)) =? height a)); cbn in S.
    + match goal with
      | |- context [resize ?w ?h ?x ?y ?o ?m1] =>
          pose proof (resize_extends (output_fits a)
                        (fun _ _ => eq_refl) (fun _ _ => eq_refl)
                        (fun _ _ => eq_refl) (fun _ _ => eq_refl)
                        (fun _ _ => eq_refl) w h x y o m1) as H;
          destruct (resize w h x y o m1); auto
      end.
    + destruct (proj1 S eq_refl) as [_ [_ [_ [_ [Hw Hh]]]]].
      match goal with
      | |- context [present_frame ?a ?o ?m1] =>
          pose proof (present_frame_fits a o m1 Hw Hh) as H;
          destruct (present_frame a o m1); auto
      end.
Qed.

Lemma decode_pass_fits a :
  respects (extends_with (output_fits a)) (decode_pass a).
Proof.
  apply respects_decode_pass;
    [apply extends_with_refl | apply extends_with_trans | |
     apply decode_dispatch_fits].
  apply decode_submit_extends; intros; reflexivity.
Qed.

(** X8.  What a call of [nvp_cuvid_decode] can do to the caller's memory,
    whatever the engine answers, whatever the session was and however the
    call ends: every copy to the host that it issues writes to [obuf] and
    is of exactly [width*height*3] bytes (as a [size_t]), and every
    conversion it submits is at [width] x [height]. *)
Theorem decode_output_fits fuel a o m :
  extends_with (output_fits a) m (machine_of (nvp_cuvid_decode fuel a o m)).
Proof.
  pose proof (respects_decode (extends_with (output_fits a)) a
                (extends_with_refl _) (extends_with_trans _)
                (decode_pass_fits a) fuel o m) as H.
  destruct (nvp_cuvid_decode fuel a o m); exact H.
Qed.

(** X9.  A call that returns [NVPIPE_SUCCESS] delivered a frame.  After
    whatever it did before (no picture was mapped there), it mapped a
    picture on the decoder of the session, made the converter if the
    session had none, and then made exactly three calls, all of which
    succeeded: the conversion of the mapped picture at [width] x [height]
    into the session's buffer, the copy of [width*height*3] bytes of that
    buffer to [obuf] on the converter's stream, and the wait for the
    converter; then it unmapped the picture. *)
Theorem success_delivers_a_frame fuel a o m m' :
  nvp_cuvid_decode fuel a o m = Ret NVPIPE_SUCCESS m' ->
  exists pre dec mrs made f mid u,
    trace m' =
      trace m ++ pre
        ++ Called (cuvidMapVideoFrame (Some dec) 0 1) mrs
        :: made ++ mid
        ++ Called (cuvidUnmapVideoFrame (Some dec) (r_value mrs)) u
        :: unmap_warning u /\
    forallb not_successful_map pre = true /\
    CU_ok mrs = true /\
    makes_converter made = true /\
    decoder (nvp m') = Some dec /\ reorg (nvp m') = Some f /\
    forallb conversion_event mid = true /\
    calls_of mid =
      [reorg_submit f (r_value mrs) (width a) (height a) (rgb (nvp m'))
         (r_pitch mrs);
       cuMemcpyDtoHAsync (obuf a) (rgb (nvp m'))
         (to_size_t (width a * height a * 3)) (strm f);
       reorg_sync f] /\
    all_ok mid = true.
Proof.
  intros H.
  destruct (decode_returns fuel a o m _ m' H)
    as [[[E | E] _] | [m1 [[pre [Hpre Hno]] [Hst [_ Hp]]]]];
    try discriminate.
  destruct (decoder (nvp m1)) as [dec |] eqn:Ed.
  2:{ unfold present_frame in Hp. revert Hp. run. rewrite Ed. discriminate. }
  pose proof (present_frame_run a o m1 dec Ed) as Hx. cbn zeta in Hx.
  rewrite Hp in Hx.
  destruct (CU_ok _) eqn:Emap; [| destruct Hx as [_ [_ Hx]]; discriminate].
  destruct Hx as [c [mid [u [_ [Ht [Hn [Hc [_ [Hs _]]]]]]]]].
  destruct (Hs eq_refl) as [Hcalls Hok].
  destruct Hst as [_ [_ [_ [_ [Hw Hh]]]]].
  assert (rgb (nvp m') = rgb (nvp m1) /\ decoder (nvp m') = Some dec /\
          reorg (nvp m') = Some (converter_for (nvp m1) c)) as [Hr [Hd Hg]].
  { rewrite Hn. unfold converter_for.
    destruct (reorg (nvp m1)) eqn:Er; cbn; rewrite ?Er; auto. }
  exists pre, dec, (o (clock m1) (cuvidMapVideoFrame (Some dec) 0 1)),
    (converter_made (nvp m1) c),
    (converter_for (nvp m1) c), mid, u.
  split; [rewrite Ht, Hpre; now rewrite <- app_assoc |].
  split; [exact Hno |]. split; [exact Emap |].
  split; [unfold converter_made; destruct (reorg (nvp m1)); reflexivity |].
  split; [exact Hd |]. split; [exact Hg |].
  split; [eapply forallb_impl; [| exact Hc]; apply conversion_of_event |].
  split; [| exact Hok].
  rewrite Hcalls, Hr. unfold frame_calls. now rewrite Hw, Hh.
Qed.

(* ------------------------------------------------------------------ *)
(** ** The depth of the recursion *)

Lemma finished_more_fuel a o :
  forall fuel k m,
    finished (nvp_cuvid_decode fuel a o m) = true ->
    nvp_cuvid_decode (fuel + k) a o m = nvp_cuvid_decode fuel a o m.
Proof.
  induction fuel as [| fuel IH]; intros k m;
    rewrite (nvp_cuvid_decode_unfold (_ + k)), (nvp_cuvid_decode_unfold _ a);
    unfold bind; destruct (decode_pass a o m) as [[e |] m1 | |];
    try reflexivity; cbn [Nat.add].
  - cbn. discriminate.
  - apply IH.
Qed.

Lemma same_src_refl m : same_src m m.
Proof. split; reflexivity. Qed.

Lemma same_src_trans m1 m2 m3 :
  same_src m1 m2 -> same_src m2 m3 -> same_src m1 m3.
Proof. unfold same_src. intros [? ?] [? ?]. split; congruence. Qed.

#[local] Hint Resolve same_src_refl same_src_trans : core.

Ltac same_src_base :=
  intros ? ?; unfold same_src; unfold_monad; cbn; split; reflexivity.

Lemma dec_sequence_same_src fmt : respects same_src (dec_sequence fmt).
Proof.
  unfold dec_sequence, dec_initialize, dec_initialize_buffer.
  frame same_src_base.
Qed.

(** *** Nothing but the recursion runs out of fuel *)

Lemma total_ret {A} (a : A) : total (ret a).
Proof. intros o m. reflexivity. Qed.

Lemma total_get : total get_nvp.
Proof. intros o m. reflexivity. Qed.

Lemma total_modify f : total (modify f).
Proof. intros o m. reflexivity. Qed.

Lemma total_engine c : total (engine c).
Proof. intros o m. reflexivity. Qed.

Lemma total_emit e : total (emit e).
Proof. intros o m. reflexivity. Qed.

Lemma total_log l msg : total (log l msg).
Proof. intros o m. reflexivity. Qed.

Lemma total_assert b msg : total (assert b msg).
Proof. intros o m. unfold assert. destruct b; reflexivity. Qed.

Lemma total_null_call {A} what : total (@null_call A what).
Proof. intros o m. reflexivity. Qed.

Lemma total_bind {A B} (c : M A) (k : A -> M B) :
  total c -> (forall a, total (k a)) -> total (bind c k).
Proof.
  intros Hc Hk o m. unfold bind. specialize (Hc o m).
  destruct (c o m) as [a m1 | |]; [apply Hk | reflexivity | discriminate].
Qed.

Lemma total_when b (c : M unit) : total c -> total (when b c).
Proof. intros H. unfold when. destruct b; auto using total_ret. Qed.

Ltac totality base :=
  repeat first
    [ solve [base]
    | apply total_ret | apply total_get | apply total_modify
    | apply total_engine | apply total_emit | apply total_log
    | apply total_assert
    | apply total_null_call
    | apply total_when
    | apply total_bind; [| intros]
    | match goal with
      | |- total (if ?b then _ else _) => destruct b
      | |- total (match ?x with _ => _ end) => destruct x
      end ].

Lemma dec_initialize_total iw ih dw dh : total (dec_initialize iw ih dw dh).
Proof. unfold dec_initialize, dec_initialize_buffer. totality fail. Qed.

Lemma resize_total w h dw dh : total (resize w h dw dh).
Proof.
  unfold resize, destroy_decoder_if_any.
  totality ltac:(apply dec_initialize_total).
Qed.

Lemma fire_total cbs : total (fire cbs).
Proof.
  induction cbs as [| cb cbs IH].
  - rewrite fire_nil. apply total_ret.
  - rewrite fire_cons. unfold fire_one, dec_sequence, dec_ode.
    totality ltac:(first [ exact IH | apply dec_initialize_total ]).
Qed.

Lemma decode_submit_total a : total (decode_submit a).
Proof.
  unfold decode_submit, initialize_parser.
  totality ltac:(apply fire_total).
Qed.

Lemma present_frame_total a : total (present_frame a).
Proof. unfold present_frame, convert_and_copy. totality fail. Qed.

Lemma decode_pass_total a : total (decode_pass a).
Proof.
  unfold decode_pass, decode_dispatch.
  totality ltac:(first [ apply decode_submit_total | apply resize_total
                       | apply present_frame_total ]).
Qed.

(** *** Properties of the session that callbacks keep *)

Lemma fire_preserves (I : nvp_decoder -> Prop) o cbs :
  (forall fmt, preserves I o (dec_sequence fmt)) ->
  (forall pic, In (DecodePicture pic) cbs -> preserves I o (dec_ode pic)) ->
  preserves I o (fire cbs).
Proof.
  intros Hs. induction cbs as [| cb cbs IH]; intros Hp m Hm.
  - rewrite fire_nil. exact Hm.
  - rewrite fire_cons. unfold fire_one, bind.
    assert (match (match cb with
                   | SequenceCallback fmt => dec_sequence fmt
                   | DecodePicture pic => dec_ode pic
                   end) o m with
            | Ret _ m' | Abort _ m' | OutOfFuel m' => I (nvp m')
            end) as H1.
    { destruct cb as [fmt | pic]; [apply Hs | apply Hp; [now left |]];
        exact Hm. }
    destruct (match cb with
              | SequenceCallback fmt => dec_sequence fmt
              | DecodePicture pic => dec_ode pic
              end o m) as [r m1 | |]; try exact H1.
    unfold emit. cbn.
    apply (IH (fun pic Hin => Hp pic (or_intror Hin))). exact H1.
Qed.

Lemma decode_submit_preserves (I : nvp_decoder -> Prop) a o :
  (forall n p, I n -> I (set_parser p n)) ->
  (forall k c, preserves I o (fire (r_callbacks (o k c)))) ->
  preserves I o (decode_submit a).
Proof.
  intros Hset Hfire m Hm.
  destruct (decode_submit_cases a o m)
    as [[_ [msg ->]] | [[_ [Hn [r [Hr ->]]]] | [_ [Hf ->]]]];
    try exact Hm.
  assert (I (nvp (with_parser o m))) as H1.
  { unfold with_parser. destruct (parser (nvp m)); [exact Hm |].
    apply Hset. exact Hm. }
  unfold submit_packet. run.
  match goal with
  | |- context [fire (r_callbacks (?f ?k ?c)) o ?m1] =>
      pose proof (Hfire k c m1 H1) as H2;
      destruct (fire (r_callbacks (f k c)) o m1) as [[] m2 | |];
      try exact H2;
      destruct (CU_ok (f k c)); run; exact H2
  end.
Qed.

(* ------------------------------------------------------------------ *)
(** ** How often the packet is submitted *)

Lemma submissions_app ev1 ev2 :
  submissions (ev1 ++ ev2) = (submissions ev1 + submissions ev2)%nat.
Proof. unfold submissions. now rewrite filter_app, length_app. Qed.

Lemma submissions_none ev :
  forallb not_a_submission ev = true -> submissions ev = 0%nat.
Proof.
  unfold submissions. induction ev as [| [[] r | |] ev IH]; cbn;
    try discriminate; auto.
Qed.

Lemma fire_no_submission cbs :
  respects (extends_with not_a_submission) (fire cbs).
Proof. apply fire_extends; intros; reflexivity. Qed.

Lemma decode_submit_submits_once a o m :
  exists ev,
    trace (machine_of (decode_submit a o m)) = trace m ++ ev /\
    (submissions ev <= 1)%nat.
Proof.
  destruct (decode_submit_cases a o m)
    as [[_ [msg ->]] | [[_ [Hn [r [Hr ->]]]] | [_ [Hf ->]]]].
  - eexists. split; [reflexivity |]. cbn. lia.
  - eexists. split; [reflexivity |]. cbn. lia.
  - assert (exists ev0, trace (with_parser o m) = trace m ++ ev0 /\
                        submissions ev0 = 0%nat) as [ev0 [H0 S0]].
    { unfold with_parser. destruct (parser (nvp m)).
      - exists []. split; [now rewrite app_nil_r | reflexivity].
      - eexists. split; reflexivity. }
    unfold submit_packet. run.
    match goal with
    | |- context [fire ?cbs o ?m1] =>
        pose proof (fire_no_submission cbs o m1) as Hf1;
        destruct (fire cbs o m1) as [[] m2 | |];
        destruct Hf1 as [ev1 [H1 S1]]; apply submissions_none in S1;
        cbn in H1
    end.
    2, 3: eexists; split;
      [cbn; rewrite H1, H0, <- !app_assoc; reflexivity |];
      rewrite !submissions_app, S0, S1; cbn; lia.
    destruct (CU_ok _); run; eexists; (split;
      [cbn; rewrite H1, H0, <- !app_assoc; reflexivity |]);
      rewrite !submissions_app, S0, ?S1; cbn; rewrite ?S1; lia.
Qed.

Lemma decode_pass_submits_once a o m :
  exists ev,
    trace (machine_of (decode_pass a o m)) = trace m ++ ev /\
    (submissions ev <= 1)%nat.
Proof.
  unfold decode_pass, bind.
  destruct (decode_submit_submits_once a o m) as [ev [Ht Hs]].
  destruct (decode_submit a o m) as [[e |] m1 | |]; cbn in *;
    try (exists ev; auto; fail).
  pose proof (decode_dispatch_extends not_a_submission
                (fun _ _ => eq_refl) (fun _ _ => eq_refl)
                (fun _ _ => eq_refl) (fun _ _ => eq_refl)
                (fun _ _ => eq_refl) (fun _ _ _ _ => eq_refl)
                (fun _ _ _ => eq_refl) (fun _ => eq_refl)
                (fun _ _ _ _ _ _ _ => eq_refl)
                (fun _ _ _ _ _ => eq_refl) (fun _ _ => eq_refl) a o m1)
    as Hd.
  assert (exists ev1, trace (machine_of (decode_dispatch a o m1))
                      = trace m1 ++ ev1 /\ submissions ev1 = 0%nat)
    as [ev1 [H1 S1]].
  { destruct (decode_dispatch a o m1); destruct Hd as [ev1 [H1 S1]];
      exists ev1; split; auto using submissions_none. }
  exists (ev ++ ev1). split.
  - rewrite H1, Ht. now rewrite app_assoc.
  - rewrite submissions_app, S1. lia.
Qed.

(** Each level of the recursion submits the packet at most once. *)
Lemma decode_submissions_bounded a o :
  forall fuel m,
  exists ev,
    trace (machine_of (nvp_cuvid_decode fuel a o m)) = trace m ++ ev /\
    (submissions ev <= S fuel)%nat.
Proof.
  induction fuel as [| fuel IH]; intros m;
    rewrite nvp_cuvid_decode_unfold; unfold bind;
    destruct (decode_pass_submits_once a o m) as [ev [Ht Hs]];
    destruct (decode_pass a o m) as [[e |] m1 | |]; cbn in *;
    try (exists ev; split; [exact Ht | lia]).
  destruct (IH m1) as [ev1 [H1 S1]].
  exists (ev ++ ev1). split.
  - rewrite H1, Ht. now rewrite app_assoc.
  - rewrite submissions_app. lia.
Qed.

(** *** On a reliable engine and a stream of one size *)

Lemma dec_sequence_size_is W H o fmt :
  preserves (size_is W H) o (dec_sequence fmt).
Proof.
  intros m Hm. pose proof (dec_sequence_same_src fmt o m) as Hs.
  unfold size_is in *.
  destruct (dec_sequence fmt o m) as [r m' | msg m' | m'];
    destruct Hs as [-> ->]; exact Hm.
Qed.

Lemma dec_ode_size_is W H o pic :
  to_size_t (PicWidthInMbs pic * 16) = W ->
  to_size_t (FrameHeightInMbs pic * 16) = H ->
  preserves (size_is W H) o (dec_ode pic).
Proof.
  intros HW HH m Hm. unfold dec_ode. run.
  destruct (CU_ok _); run; [| exact Hm].
  right. cbn. auto.
Qed.

Lemma fire_size_is W H o k c :
  stable_stream o W H -> preserves (size_is W H) o (fire (r_callbacks (o k c))).
Proof.
  intros Hst. apply fire_preserves.
  - apply dec_sequence_size_is.
  - intros pic Hin. destruct (Hst k c pic Hin).
    now apply dec_ode_size_is.
Qed.

Lemma dec_sequence_initialized fmt o m :
  initialized (nvp m) = true ->
  match dec_sequence fmt o m with
  | Ret _ m' | Abort _ m' | OutOfFuel m' =>
      nvp m' = nvp m /\ extends_with is_log m m'
  end.
Proof.
  intros Hi. unfold dec_sequence. run.
  repeat (match goal with
          | |- context [if ?b then _ else _] =>
              lazymatch b with
              | context [initialized] => rewrite Hi
              | _ => destruct b
              end
          end; run);
    (split; [reflexivity |]);
    (eapply extends_with_events; [trace_eq | reflexivity]).
Qed.

Lemma dec_sequence_settled W H a o fmt :
  preserves (settled W H a) o (dec_sequence fmt).
Proof.
  intros m Hm.
  pose proof (dec_sequence_initialized fmt o m (proj1 Hm)) as Hs.
  destruct (dec_sequence fmt o m); destruct Hs as [-> _]; exact Hm.
Qed.

Lemma dec_ode_settled W H a o pic :
  to_size_t (PicWidthInMbs pic * 16) = W ->
  to_size_t (FrameHeightInMbs pic * 16) = H ->
  preserves (settled W H a) o (dec_ode pic).
Proof.
  intros HW HH m Hm. unfold dec_ode. run.
  destruct (CU_ok _); run; [| exact Hm].
  unfold settled in *. cbn. intuition.
Qed.

Lemma fire_settled W H a o k c :
  stable_stream o W H ->
  preserves (settled W H a) o (fire (r_callbacks (o k c))).
Proof.
  intros Hst. apply fire_preserves.
  - apply dec_sequence_settled.
  - intros pic Hin. destruct (Hst k c pic Hin).
    now apply dec_ode_settled.
Qed.

Lemma resize_settles w h dw dh o m :
  reliable o ->
  match resize w h dw dh o m with
  | Ret _ m' =>
      initialized (nvp m') = true /\
      wi (d (nvp m')) = w /\ hi (d (nvp m')) = h /\
      wdst (d (nvp m')) = dw /\ hdst (d (nvp m')) = dh /\
      wsrc (d (nvp m')) = wsrc (d (nvp m)) /\
      hsrc (d (nvp m')) = hsrc (d (nvp m))
  | Abort _ _ => True
  | OutOfFuel _ => False
  end.
Proof.
  intros [Hc [Hf Ha]]. rewrite resize_unfold.
  assert (decoder (nvp (after_destroy ERR o m)) = None /\
          d (nvp (after_destroy ERR o m)) = d (nvp m)) as [Hd Hg]
    by (unfold after_destroy; destruct (decoder (nvp m)); auto).
  unfold dec_initialize, dec_initialize_buffer. run.
  destruct ((0 <? w) && (0 <? h)); run; [| exact I].
  destruct ((0 <? dw) && (0 <? dh)); run; [| exact I].
  rewrite Hd. run. rewrite Hc. run. rewrite Hg.
  destruct (Z.eqb_spec dw (wdst (d (nvp m)))) as [Ew | Ew];
    destruct (Z.eqb_spec dh (hdst (d (nvp m)))) as [Eh | Eh]; run;
    rewrite ?Hg; cbn; auto 10;
    (destruct (rgb (nvp (after_destroy ERR o m)) =? 0); run;
     rewrite ?Hf; run; rewrite Ha; run; rewrite ?Hg; cbn; auto 10).
Qed.

Lemma decode_dispatch_depth W H a o m :
  W <> 0 -> H <> 0 -> reliable o -> size_is W H (nvp m) ->
  match decode_dispatch a o m with
  | Ret Resubmit m' =>
      (empty (nvp m) = false /\ empty (nvp m') = true /\
       size_is W H (nvp m'))
      \/ settled W H a (nvp m')
  | OutOfFuel _ => False
  | _ => True
  end.
Proof.
  intros HW HH Hrel Hm. unfold decode_dispatch. run.
  destruct Hm as [[Ew Eh] | [Ew Eh]]; rewrite Ew, ?Eh.
  - cbn. destruct (empty (nvp m)) eqn:Ee; run; [exact I |].
    left. unfold size_is. cbn. auto.
  - apply Z.eqb_neq in HW, HH. rewrite HW, HH. run.
    destruct (negb (W =? wi (d (nvp m))) || negb (H =? hi (d (nvp m)))
              || negb (wdst (d (nvp m)) =? width a)
              || negb (hdst (d (nvp m)) =? height a)).
    + match goal with
      | |- context [resize ?w ?h ?x ?y ?o ?m1] =>
          pose proof (resize_settles w h x y o m1 Hrel) as Hr;
          destruct (resize w h x y o m1) as [[] m2 | |]; run; auto
      end.
      right. cbn in Hr. unfold settled.
      destruct Hr as [? [? [? [? [? [Hr1 Hr2]]]]]].
      rewrite Hr1, Hr2. auto 10.
    + match goal with
      | |- context [present_frame ?a ?o ?m1] =>
          pose proof (present_frame_total a o m1) as Hp;
          destruct (present_frame a o m1); run; auto; discriminate
      end.
Qed.

Lemma decode_dispatch_settled W H a o m :
  W <> 0 -> H <> 0 -> settled W H a (nvp m) ->
  match decode_dispatch a o m with
  | Ret Resubmit _ | OutOfFuel _ => False
  | _ => True
  end.
Proof.
  intros HW HH [_ [Ei [Ej [Ek [El [Ew Eh]]]]]]. unfold decode_dispatch. run.
  rewrite Ew, Eh, Ei, Ej, Ek, El, !Z.eqb_refl.
  apply Z.eqb_neq in HW, HH. rewrite HW, HH. run.
  match goal with
  | |- context [present_frame ?a ?o ?m1] =>
      pose proof (present_frame_total a o m1) as Hp;
      destruct (present_frame a o m1); run; auto; discriminate
  end.
Qed.

Lemma size_is_set_parser W H n p :
  size_is W H n -> size_is W H (set_parser p n).
Proof. exact (fun x => x). Qed.

Lemma settled_set_parser W H a n p :
  settled W H a n -> settled W H a (set_parser p n).
Proof. exact (fun x => x). Qed.

Lemma decode_pass_depth W H a o m :
  W <> 0 -> H <> 0 -> reliable o -> stable_stream o W H ->
  size_is W H (nvp m) ->
  match decode_pass a o m with
  | Ret Resubmit m' =>
      (empty (nvp m) = false /\ empty (nvp m') = true /\
       size_is W H (nvp m'))
      \/ settled W H a (nvp m')
  | OutOfFuel _ => False
  | _ => True
  end.
Proof.
  intros HW HH Hrel Hst Hm. unfold decode_pass, bind.
  pose proof (decode_submit_preserves (size_is W H) a o
                (size_is_set_parser W H)
                (fun k c => fire_size_is W H o k c Hst) m Hm) as H1.
  pose proof (decode_submit_same_empty a o m) as H2.
  pose proof (decode_submit_total a o m) as H3.
  destruct (decode_submit a o m) as [[e |] m1 | |]; cbn; auto;
    [| discriminate].
  pose proof (decode_dispatch_depth W H a o m1 HW HH Hrel H1) as H4.
  unfold same_empty in H2. rewrite <- H2.
  destruct (decode_dispatch a o m1) as [[e |] m2 | |]; auto.
Qed.

Lemma decode_pass_settled W H a o m :
  W <> 0 -> H <> 0 -> stable_stream o W H ->
  settled W H a (nvp m) ->
  match decode_pass a o m with
  | Ret Resubmit _ | OutOfFuel _ => False
  | _ => True
  end.
Proof.
  intros HW HH Hst Hm. unfold decode_pass, bind.
  pose proof (decode_submit_preserves (settled W H a) a o
                (settled_set_parser W H a)
                (fun k c => fire_settled W H a o k c Hst) m Hm) as H1.
  pose proof (decode_submit_total a o m) as H3.
  destruct (decode_submit a o m) as [[e |] m1 | |]; cbn; auto;
    [| discriminate].
  apply (decode_dispatch_settled W H a o m1 HW HH H1).
Qed.

(** X10.  On an engine that never fails to create a decoder or to release
    or allocate device memory, fed a stream whose pictures all have one
    nonzero size, on a session that has seen no picture yet or one of that
    size, a call of [nvp_cuvid_decode] re-enters itself at most twice (once
    for a submission that decoded no picture, once after a resize): it
    comes to an end with two resubmissions allowed, allowing more changes
    nothing, and it submits the packet to the parser at most three
    times. *)
Theorem recursion_depth_bounded W H a o m :
  W <> 0 -> H <> 0 -> reliable o -> stable_stream o W H ->
  size_is W H (nvp m) ->
  finished (nvp_cuvid_decode 2 a o m) = true /\
  (forall k, nvp_cuvid_decode (2 + k) a o m = nvp_cuvid_decode 2 a o m) /\
  exists ev,
    trace (machine_of (nvp_cuvid_decode 2 a o m)) = trace m ++ ev /\
    (submissions ev <= 3)%nat.
Proof.
  intros HW HH Hrel Hst Hm.
  assert (finished (nvp_cuvid_decode 2 a o m) = true) as Hfin.
  { assert (forall fuel m, settled W H a (nvp m) ->
                           finished (nvp_cuvid_decode fuel a o m) = true)
      as Hsettled.
    { intros fuel m1 Hs. rewrite nvp_cuvid_decode_unfold. unfold bind.
      pose proof (decode_pass_settled W H a o m1 HW HH Hst Hs) as Hp.
      destruct (decode_pass a o m1) as [[e |] m2 | |];
        try contradiction; reflexivity. }
    rewrite nvp_cuvid_decode_unfold. unfold bind.
    pose proof (decode_pass_depth W H a o m HW HH Hrel Hst Hm) as H1.
    destruct (decode_pass a o m) as [[e |] m1 | |];
      try contradiction; try reflexivity.
    destruct H1 as [[_ [He1 Hm1]] | Hs1]; [| now apply Hsettled].
    rewrite nvp_cuvid_decode_unfold. unfold bind.
    pose proof (decode_pass_depth W H a o m1 HW HH Hrel Hst Hm1) as H2.
    destruct (decode_pass a o m1) as [[e |] m2 | |];
      try contradiction; try reflexivity.
    destruct H2 as [[He2 _] | Hs2]; [congruence | now apply Hsettled]. }
  split; [exact Hfin |]. split.
  - intros k. apply (finished_more_fuel a o 2 k m Hfin).
  - apply decode_submissions_bounded.
Qed.

(* ------------------------------------------------------------------ *)
(** ** The steady state *)

Lemma guards_fire (I : nvp_decoder -> Prop) (P : event -> bool) o cbs :
  (forall z, P (CallbackReturned z) = true) ->
  (forall fmt, guards I P o (dec_sequence fmt)) ->
  (forall pic, In (DecodePicture pic) cbs -> guards I P o (dec_ode pic)) ->
  guards I P o (fire cbs).
Proof.
  intros Hcb Hs. induction cbs as [| cb cbs IH]; intros Hp m Hm.
  - rewrite fire_nil. split; [exact Hm | apply extends_with_refl].
  - rewrite fire_cons. unfold fire_one, bind.
    assert (match (match cb with
                   | SequenceCallback fmt => dec_sequence fmt
                   | DecodePicture pic => dec_ode pic
                   end) o m with
            | Ret _ m' | Abort _ m' | OutOfFuel m' =>
                I (nvp m') /\ extends_with P m m'
            end) as H1.
    { destruct cb as [fmt | pic]; [apply Hs | apply Hp; [now left |]];
        exact Hm. }
    destruct (match cb with
              | SequenceCallback fmt => dec_sequence fmt
              | DecodePicture pic => dec_ode pic
              end o m) as [r m1 | |]; try exact H1.
    unfold emit. cbn. destruct H1 as [H1 H2].
    match goal with
    | |- context [fire cbs o ?m2] =>
        pose proof (IH (fun pic Hin => Hp pic (or_intror Hin)) m2 H1) as H3;
        assert (extends_with P m m2) as H4
    end.
    { eapply extends_with_trans; [exact H2 |].
      eexists [_]. split; [reflexivity |]. cbn. now rewrite Hcb. }
    destruct (fire cbs o _); destruct H3 as [H3 H5];
      (split; [exact H3 | eapply extends_with_trans; eassumption]).
Qed.

Lemma guards_decode_submit (I : nvp_decoder -> Prop) (P : event -> bool)
      a o :
  (forall l msg, P (Logged l msg) = true) ->
  (forall p r, P (Called (cuvidCreateVideoParser p) r) = true) ->
  (forall p k r, P (Called (cuvidParseVideoData p k) r) = true) ->
  (forall n p, I n -> I (set_parser p n)) ->
  (forall k c, guards I P o (fire (r_callbacks (o k c)))) ->
  guards I P o (decode_submit a).
Proof.
  intros Hlog Hmk Hparse Hset Hfire m Hm.
  destruct (decode_submit_cases a o m)
    as [[_ [msg ->]] | [[_ [Hn [r [Hr ->]]]] | [_ [Hf ->]]]].
  - split; [exact Hm |]. eexists [_]. split; [reflexivity |].
    cbn. now rewrite Hlog.
  - split; [exact Hm |]. eexists [_; _]. split; [reflexivity |].
    cbn. now rewrite Hmk, Hlog.
  - assert (I (nvp (with_parser o m)) /\
            extends_with P m (with_parser o m)) as [H1 H1'].
    { unfold with_parser. destruct (parser (nvp m)).
      - split; [exact Hm | apply extends_with_refl].
      - split; [apply Hset; exact Hm |].
        eexists [_]. split; [reflexivity |]. cbn. now rewrite Hmk. }
    unfold submit_packet. run.
    match goal with
    | |- context [fire (r_callbacks (?f ?k ?c)) o ?m1] =>
        pose proof (Hfire k c m1 H1) as H2;
        assert (extends_with P m m1) as H3;
        [ eapply extends_with_trans; [exact H1' |];
          eexists [_]; split; [reflexivity |]; cbn; now rewrite Hparse |];
        destruct (fire (r_callbacks (f k c)) o m1) as [[] m2 | |];
        destruct H2 as [H2 H4];
        try (split; [exact H2 | eapply extends_with_trans; eassumption]);
        destruct (CU_ok (f k c)); run;
        (split; [exact H2 |])
    end.
    + eapply extends_with_trans; eassumption.
    + eapply extends_with_trans; [eapply extends_with_trans; eassumption |].
      eexists [_]. split; [reflexivity |]. cbn. now rewrite Hlog.
Qed.

Lemma dec_sequence_steady W H a o fmt :
  guards (settled W H a) no_reallocation o (dec_sequence fmt).
Proof.
  intros m Hm.
  pose proof (dec_sequence_initialized fmt o m (proj1 Hm)) as Hs.
  destruct (dec_sequence fmt o m); destruct Hs as [-> [ev [Ht Hl]]];
    (split; [exact Hm |]);
    (eapply extends_with_events; [exact Ht |]);
    (eapply forallb_impl; [| exact Hl]);
    intros [] E; try discriminate; reflexivity.
Qed.

Lemma dec_ode_steady W H a o pic :
  to_size_t (PicWidthInMbs pic * 16) = W ->
  to_size_t (FrameHeightInMbs pic * 16) = H ->
  guards (settled W H a) no_reallocation o (dec_ode pic).
Proof.
  intros HW HH m Hm. pose proof (dec_ode_settled W H a o pic HW HH m Hm) as H1.
  revert H1. unfold dec_ode. run.
  destruct (CU_ok _); run; intros H1; (split; [exact H1 |]);
    (eapply extends_with_events; [trace_eq | reflexivity]).
Qed.

Lemma present_frame_steady W H a o :
  guards (settled W H a) no_reallocation o (present_frame a).
Proof.
  intros m Hm.
  pose proof (present_frame_extends no_reallocation
                (fun _ _ => eq_refl) (fun _ _ _ _ => eq_refl)
                (fun _ _ _ => eq_refl) (fun _ => eq_refl)
                (fun _ _ _ _ _ _ _ => eq_refl)
                (fun _ _ _ _ _ => eq_refl) (fun _ _ => eq_refl) a o m)
    as Hp.
  destruct (decoder (nvp m)) as [dec |] eqn:Ed.
  - pose proof (present_frame_run a o m dec Ed) as Hx. cbn zeta in Hx.
    destruct (present_frame a o m) as [e m' | msg m' |];
      [| | contradiction]; (split; [| exact Hp]).
    + destruct (CU_ok _).
      * destruct Hx as [c [mid [u [_ [_ [-> _]]]]]].
        destruct (reorg (nvp m)); exact Hm.
      * destruct Hx as [_ [-> _]]. exact Hm.
    + destruct Hx as [_ [_ [-> _]]]. exact Hm.
  - revert Hp. unfold present_frame. run. rewrite Ed. cbn. auto.
Qed.

Lemma steady_submit W H a o :
  stable_stream o W H ->
  guards (settled W H a) no_reallocation o (decode_submit a).
Proof.
  intros Hst. apply guards_decode_submit; try (intros; reflexivity).
  - apply settled_set_parser.
  - intros k c. apply guards_fire; [reflexivity | |].
    + apply dec_sequence_steady.
    + intros pic Hin. destruct (Hst k c pic Hin).
      now apply dec_ode_steady.
Qed.

(** One pass from the steady state: it presents a frame, or stops at an
    assertion. *)
Lemma steady_pass W H a o m :
  W <> 0 -> H <> 0 -> stable_stream o W H -> settled W H a (nvp m) ->
  match decode_pass a o m with
  | Ret (Return _) m' | Abort _ m' =>
      settled W H a (nvp m') /\ extends_with no_reallocation m m'
  | Ret Resubmit _ | OutOfFuel _ => False
  end.
Proof.
  intros HW HH Hst Hm.
  pose proof (steady_submit W H a o Hst m Hm) as Hs.
  pose proof (decode_submit_total a o m) as Ht.
  unfold decode_pass, bind.
  destruct (decode_submit a o m) as [[e |] m1 | |];
    [exact Hs | | exact Hs | discriminate].
  destruct Hs as [Hs1 Hs2].
  pose proof Hs1 as [_ [Ei [Ej [Ek [El [Ew Eh]]]]]].
  unfold decode_dispatch. run.
  rewrite Ew, Eh, Ei, Ej, Ek, El, !Z.eqb_refl.
  apply Z.eqb_neq in HW, HH. rewrite HW, HH. run.
  match goal with
  | |- context [present_frame ?a ?o ?m2] =>
      pose proof (present_frame_steady W H a o m2 Hs1) as Hp;
      pose proof (present_frame_total a o m2) as Hq;
      assert (extends_with no_reallocation m m2) as Hm2
        by (destruct Hs2 as [ev [Hx Hy]]; exists ev; auto);
      destruct (present_frame a o m2); cbn; destruct Hp as [Hp1 Hp2];
      try discriminate;
      (split; [exact Hp1 |]);
      eapply extends_with_trans; eassumption
  end.
Qed.

(** X11.  The steady state.  On a session initialized for pictures of
    [W] x [H] delivered at the size the call asks for, fed a stream whose
    pictures all have that size, a call of [nvp_cuvid_decode] comes to an
    end without re-entering itself, leaves the session initialized for the
    same geometry, and neither creates nor destroys a decoder nor allocates
    nor releases device memory, whatever the engine answers. *)
Theorem steady_call_is_quiet W H a o m :
  W <> 0 -> H <> 0 -> stable_stream o W H -> settled W H a (nvp m) ->
  finished (nvp_cuvid_decode 0 a o m) = true /\
  settled W H a (nvp (machine_of (nvp_cuvid_decode 0 a o m))) /\
  extends_with no_reallocation m (machine_of (nvp_cuvid_decode 0 a o m)).
Proof.
  intros HW HH Hst Hm.
  pose proof (steady_pass W H a o m HW HH Hst Hm) as Hp.
  rewrite nvp_cuvid_decode_unfold. unfold bind.
  destruct (decode_pass a o m) as [[e |] m1 | |]; try contradiction;
    cbn; destruct Hp as [Hp1 Hp2];
    (split; [reflexivity | split; assumption]).
Qed.

(* ------------------------------------------------------------------ *)
(** ** The decoder and the recorded geometry *)

Lemma preserves_bind (I : nvp_decoder -> Prop) o {A B} (c : M A)
      (k : A -> M B) :
  preserves I o c -> (forall a, preserves I o (k a)) ->
  preserves I o (bind c k).
Proof.
  intros Hc Hk m Hm. unfold bind. specialize (Hc m Hm).
  destruct (c o m) as [a m1 | |]; try exact Hc. apply Hk. exact Hc.
Qed.

Lemma preserves_ret (I : nvp_decoder -> Prop) o {A} (a : A) :
  preserves I o (ret a).
Proof. intros m Hm. exact Hm. Qed.

Lemma preserves_when (I : nvp_decoder -> Prop) o b (c : M unit) :
  preserves I o c -> preserves I o (when b c).
Proof. intros H. unfold when. destruct b; auto using preserves_ret. Qed.

Lemma preserves_assert (I : nvp_decoder -> Prop) o b msg :
  preserves I o (assert b msg).
Proof. intros m Hm. unfold assert. destruct b; exact Hm. Qed.

(** Splits a computation along its binds and branches; [base] is for the
    steps that touch the session. *)
Ltac keeping base :=
  repeat first
    [ solve [base]
    | apply preserves_ret
    | apply preserves_assert
    | apply preserves_when
    | solve [intros ? ?; unfold_monad; cbn; assumption]
    | apply preserves_bind; [| intros]
    | match goal with
      | |- preserves _ _ (if ?b then _ else _) => destruct b
      | |- preserves _ _ (match ?x with _ => _ end) => destruct x
      end ].

Lemma preserves_decode (I : nvp_decoder -> Prop) o a :
  preserves I o (decode_pass a) ->
  forall fuel, preserves I o (nvp_cuvid_decode fuel a).
Proof.
  intros Hp. induction fuel as [| fuel IH]; intros m Hm;
    rewrite nvp_cuvid_decode_unfold; unfold bind;
    specialize (Hp m Hm);
    destruct (decode_pass a o m) as [[e |] m1 | |]; try exact Hp.
  apply IH. exact Hp.
Qed.

Lemma dec_initialize_matches iw ih dw dh o :
  memory_reliable o ->
  preserves decoder_matches o (dec_initialize iw ih dw dh).
Proof.
  intros [Hf Ha] m Hm. unfold dec_initialize, dec_initialize_buffer. run.
  destruct ((0 <? iw) && (0 <? ih)); run; [| exact Hm].
  destruct ((0 <? dw) && (0 <? dh)); run; [| exact Hm].
  destruct (decoder (nvp m)) eqn:Ed; run; [exact Hm |].
  unfold decoder_matches.
  destruct (CU_ok (o (clock m) _)); run; [| now rewrite Ed].
  destruct (Z.eqb_spec dw (wdst (d (nvp m)))) as [Ew | Ew];
    destruct (Z.eqb_spec dh (hdst (d (nvp m)))) as [Eh | Eh]; run;
    try (now rewrite <- Ew, <- Eh);
    (destruct (rgb (nvp m) =? 0); run; rewrite ?Hf; run; rewrite Ha; run;
     reflexivity).
Qed.

Lemma resize_matches w h dw dh o :
  memory_reliable o -> preserves decoder_matches o (resize w h dw dh).
Proof.
  intros Hrel m _. rewrite resize_unfold. unfold bind.
  assert (decoder_matches (nvp (after_destroy ERR o m))) as H1
    by (unfold after_destroy, decoder_matches;
        destruct (decoder (nvp m)); exact I).
  pose proof (dec_initialize_matches w h dw dh o Hrel _ H1) as H2.
  destruct (dec_initialize w h dw dh o (after_destroy ERR o m)); exact H2.
Qed.

Lemma decode_pass_matches a o :
  memory_reliable o -> preserves decoder_matches o (decode_pass a).
Proof.
  intros Hrel. unfold decode_pass. apply preserves_bind.
  - apply decode_submit_preserves; [exact (fun _ _ x => x) |].
    intros k c. apply fire_preserves.
    + intros fmt. unfold dec_sequence.
      keeping ltac:(apply dec_initialize_matches; exact Hrel).
    + intros pic _. unfold dec_ode. keeping fail.
  - intros [e |]; [apply preserves_ret |].
    unfold decode_dispatch, present_frame, convert_and_copy.
    keeping ltac:(apply resize_matches; exact Hrel).
Qed.

Lemma success_holds_decoder fuel a o m m' :
  nvp_cuvid_decode fuel a o m = Ret NVPIPE_SUCCESS m' ->
  exists dec, decoder (nvp m') = Some dec.
Proof.
  intros H.
  destruct (decode_returns fuel a o m _ m' H)
    as [[[E | E] _] | [m1 [_ [_ [_ Hp]]]]]; try discriminate.
  pose proof (present_frame_same_decoder a o m1) as Hd.
  rewrite Hp in Hd. unfold same_decoder in Hd. rewrite Hd.
  destruct (decoder (nvp m1)) as [dec |] eqn:Ed; [now exists dec |].
  revert Hp. unfold present_frame. run. rewrite Ed. discriminate.
Qed.

(** X12.  On an engine that never fails to release or to allocate device
    memory, from a session whose decoder (if it holds one) is the one for
    the geometry it records, a call that returns [NVPIPE_SUCCESS] leaves
    the session holding the decoder created for the picture size the parser
    reported last and for the output size the call asked for. *)
Theorem success_decoder_matches_stream fuel a o m m' :
  memory_reliable o -> decoder_matches (nvp m) ->
  nvp_cuvid_decode fuel a o m = Ret NVPIPE_SUCCESS m' ->
  decoder (nvp m') =
    Some (make_crt (wsrc (d (nvp m'))) (hsrc (d (nvp m')))
            (width a) (height a)).
Proof.
  intros Hrel Hm H.
  pose proof (preserves_decode decoder_matches o a
                (decode_pass_matches a o Hrel) fuel m Hm) as Hk.
  rewrite H in Hk.
  destruct (success_holds_decoder fuel a o m m' H) as [dec Hd].
  destruct (decode_success_steady fuel a o m m' H)
    as [_ [_ [Ew [Eh [Ex Ey]]]]].
  unfold decoder_matches in Hk. rewrite Hd in Hk.
  rewrite Hd, Hk. now rewrite Ew, Eh, Ex, Ey.
Qed.

(* ------------------------------------------------------------------ *)
(** ** After a success *)

Lemma dec_initialize_buffer_ready dw dh o :
  preserves ready o (dec_initialize_buffer dw dh).
Proof.
  intros m Hm. unfold dec_initialize_buffer. run.
  destruct (negb (dw =? wdst (d (nvp m))) || negb (dh =? hdst (d (nvp m))));
    run; [| now left].
  destruct (rgb (nvp m) =? 0); run.
  - destruct (CU_ok _); run; [now left | exact Hm].
  - destruct (CU_ok (o (clock m) _)); run; [| exact Hm].
    destruct (CU_ok _); run; [now left | exact Hm].
Qed.

Lemma decode_pass_ready a o : preserves ready o (decode_pass a).
Proof.
  unfold decode_pass. apply preserves_bind.
  - apply decode_submit_preserves; [exact (fun _ _ x => x) |].
    intros k c. apply fire_preserves.
    + intros fmt. unfold dec_sequence, dec_initialize.
      keeping ltac:(apply dec_initialize_buffer_ready).
    + intros pic _. unfold dec_ode. keeping fail.
  - intros [e |]; [apply preserves_ret |].
    unfold decode_dispatch, present_frame, convert_and_copy, resize,
      destroy_decoder_if_any, dec_initialize.
    keeping ltac:(apply dec_initialize_buffer_ready).
Qed.

Lemma success_settles fuel a o m m' :
  ready (nvp m) -> width a <> 0 ->
  nvp_cuvid_decode fuel a o m = Ret NVPIPE_SUCCESS m' ->
  wsrc (d (nvp m')) <> 0 /\ hsrc (d (nvp m')) <> 0 /\
  settled (wsrc (d (nvp m'))) (hsrc (d (nvp m'))) a (nvp m').
Proof.
  intros Hm Hw H.
  pose proof (preserves_decode ready o a (decode_pass_ready a o) fuel m Hm)
    as Hr.
  rewrite H in Hr.
  destruct (decode_success_steady fuel a o m m' H)
    as [Nw [Nh [Ew [Eh [Ex Ey]]]]].
  split; [exact Nw |]. split; [exact Nh |].
  unfold settled. destruct Hr as [Hr | Hr]; [auto 10 | congruence].
Qed.

(** X13.  Once a call has succeeded, the calls that follow it are steady.
    Take a session on which an output size is recorded only if it is
    initialized (a new session is one), and a call with a nonzero width
    that returns [NVPIPE_SUCCESS].  If the stream keeps the picture size
    the session has then seen, the next call with the same arguments comes
    to an end without re-entering itself, leaves the geometry as it is, and
    neither creates nor destroys a decoder nor allocates nor releases
    device memory. *)
Theorem after_success_calls_are_quiet fuel a o m m' :
  ready (nvp m) -> width a <> 0 ->
  nvp_cuvid_decode fuel a o m = Ret NVPIPE_SUCCESS m' ->
  stable_stream o (wsrc (d (nvp m'))) (hsrc (d (nvp m'))) ->
  finished (nvp_cuvid_decode 0 a o m') = true /\
  settled (wsrc (d (nvp m'))) (hsrc (d (nvp m'))) a
    (nvp (machine_of (nvp_cuvid_decode 0 a o m'))) /\
  extends_with no_reallocation m' (machine_of (nvp_cuvid_decode 0 a o m')).
Proof.
  intros Hm Hw H Hst.
  destruct (success_settles fuel a o m m' Hm Hw H) as [Nw [Nh Hs]].
  pose proof (steady_pass _ _ a o m' Nw Nh Hst Hs) as Hp.
  rewrite nvp_cuvid_decode_unfold. unfold bind.
  destruct (decode_pass a o m') as [[e |] m1 | |]; try contradiction;
    cbn; destruct Hp as [Hp1 Hp2];
    (split; [reflexivity | split; assumption]).
Qed.

(* ------------------------------------------------------------------ *)
(** ** The theorems above at concrete runs *)

(** The first call on a fresh session, on the working engine: no
    resubmission is needed, the sizes of the session are those of the
    stream, and twelve calls were made on the engine since [boot]. *)
Example first_frame_decodes :
  exists m',
    nvp_cuvid_decode 0 (packet 64 64) working_engine fresh =
    Ret NVPIPE_SUCCESS m' /\
    m' = steady64 /\
    d (nvp steady64) =
      {| wi := 64; hi := 64; wdst := 64; hdst := 64;
         wsrc := 64; hsrc := 64 |} /\
    decoder (nvp steady64) = Some (make_crt 64 64 64 64) /\
    rgb (nvp steady64) = 28672 /\
    clock steady64 = 12%nat.
Proof.
  eexists. split; [vm_compute; reflexivity |].
  split; [vm_compute; reflexivity |]. repeat split.
Qed.

(** C7 fails on the code.  On [no_converter] ([nv122rgb] returns NULL) the
    first call on a new session, whatever its budget of resubmissions,
    creates the decoder, maps the decoded picture successfully, asks for a
    converter, and stops at line 356, where [nvp->reorg->submit] is called
    through the NULL pointer that line 350 stored unchecked: the call never
    returns and the picture is never unmapped.  The failures of
    submit, copy and synchronise all go to the unmap of line 380; that of
    [nv122rgb] is the one that does not. *)
Theorem null_converter_leaves_picture_mapped :
  forall fuel,
  exists m' mrs c,
    nvp_cuvid_decode fuel (packet 64 64) no_converter fresh =
      Abort "nvp->reorg->submit" m' /\
    trace m' =
      trace fresh ++ firstn 7 (new_events fresh m')
        ++ [Called (cuvidMapVideoFrame (Some (make_crt 64 64 64 64)) 0 1) mrs;
            Called nv122rgb c] /\
    CU_ok mrs = true /\ CU_ok c = false /\
    unmaps (trace m') = false.
Proof.
  intros fuel.
  assert (H0 : finished (nvp_cuvid_decode 0 (packet 64 64) no_converter fresh)
               = true) by (vm_compute; reflexivity).
  pose proof (finished_more_fuel (packet 64 64) no_converter 0 fuel fresh H0)
    as Hk.
  cbn [Nat.add] in Hk. rewrite Hk.
  exists
    (machine_of (nvp_cuvid_decode 0 (packet 64 64) no_converter fresh)),
    {| r_result := CUDA_SUCCESS; r_value := 36864; r_pitch := 64;
       r_callbacks := [] |},
    (answer 2 0).
  split; [vm_compute; reflexivity |].
  split; [vm_compute; reflexivity |].
  repeat split; reflexivity.
Qed.


Lemma decode_rejects_invalid_arguments_witness :
  (ibuf_sz (packet 64 63) = 0 \/ width (packet 64 63) = 0 \/
   height (packet 64 63) = 0 \/ Z.odd (height (packet 64 63)) = true) /\
  exists msg,
    nvp_cuvid_decode 0 (packet 64 63) working_engine fresh =
    Ret NVPIPE_EINVAL
        {| nvp := nvp fresh; clock := clock fresh;
           trace := trace fresh ++ [Logged ERR msg] |}.
Proof.
  split.
  - right; right; right. reflexivity.
  - apply (decode_rejects_invalid_arguments 0 (packet 64 63)
             working_engine fresh).
    right; right; right. reflexivity.
Defined.

Lemma engine_failures_at_the_boundary_witness :
  nvp_cuvid_decode 0 (packet 64 64) map_fails fresh =
  Ret (nvp_err_of_CUresult 999)
      (machine_of (nvp_cuvid_decode 0 (packet 64 64) map_fails fresh)) /\
  exists pre c rep post,
    trace (machine_of (nvp_cuvid_decode 0 (packet 64 64) map_fails fresh)) =
    trace fresh ++ pre ++ Called c rep :: post /\
    unconverted_call c = true /\ CU_ok rep = false /\ 999 = r_result rep.
Proof.
  split.
  - vm_compute. reflexivity.
  - apply (engine_failures_at_the_boundary 0 (packet 64 64) map_fails fresh
             (nvp_err_of_CUresult 999)
             (machine_of (nvp_cuvid_decode 0 (packet 64 64) map_fails fresh))).
    + vm_compute. reflexivity.
    + reflexivity.
Defined.

(** On [late_engine], the call that asks for 128x128 on the steady 64x64
    session resizes twice before it produces output: once for the requested
    size, once more when the resubmission reports the new stream size. *)
Lemma two_resizes_in_one_call :
  exists m',
    nvp_cuvid_decode 2 (packet 128 128) late_engine steady64 =
    Ret NVPIPE_SUCCESS m' /\
    submissions (new_events steady64 m') = 3%nat /\
    creations (new_events steady64 m') = 2%nat.
Proof. eexists. split; [vm_compute; reflexivity |]. split; reflexivity. Qed.

Lemma resize_and_resubmit_witness :
  exists m1 m2,
    decode_submit (packet 128 128) late_engine steady64 = Ret None m1 /\
    steadyb (packet 128 128) (nvp m1) = false /\
    dec_initialize 64 64 128 128 late_engine
      (after_destroy ERR late_engine (with_empty false m1)) = Ret true m2 /\
    decode_dispatch (packet 128 128) late_engine m1 = Ret Resubmit m2 /\
    decoder (nvp m2) = Some (make_crt 64 64 128 128) /\
    wi (d (nvp m2)) = 64 /\ hi (d (nvp m2)) = 64 /\
    wdst (d (nvp m2)) = 128 /\ hdst (d (nvp m2)) = 128 /\
    nvp_cuvid_decode 2 (packet 128 128) late_engine steady64 =
    nvp_cuvid_decode 1 (packet 128 128) late_engine m2.
Proof.
  assert (H1 : decode_submit (packet 128 128) late_engine steady64 =
               Ret None
                   (machine_of
                      (decode_submit (packet 128 128) late_engine steady64)))
    by (vm_compute; reflexivity).
  assert (H2 : steadyb (packet 128 128)
                 (nvp (machine_of
                         (decode_submit (packet 128 128) late_engine
                            steady64))) = false)
    by (vm_compute; reflexivity).
  assert (H3 : dec_initialize 64 64 128 128 late_engine
                 (after_destroy ERR late_engine
                    (with_empty false
                       (machine_of
                          (decode_submit (packet 128 128) late_engine
                             steady64)))) =
               Ret true
                   (machine_of
                      (dec_initialize 64 64 128 128 late_engine
                         (after_destroy ERR late_engine
                            (with_empty false
                               (machine_of
                                  (decode_submit (packet 128 128) late_engine
                                     steady64)))))))
    by (vm_compute; reflexivity).
  destruct (resize_and_resubmit 1 (packet 128 128) late_engine steady64
              _ _ H1 H2 H3)
    as [_ [Hd [_ [Hdec [Hw [Hh [Hwd [Hhd [Hgo _]]]]]]]]].
  do 2 eexists. split; [exact H1 |]. split; [exact H2 |].
  split; [exact H3 |]. split; [exact Hd |]. split; [exact Hdec |].
  split; [exact Hw |]. split; [exact Hh |]. split; [exact Hwd |].
  split; [exact Hhd | exact Hgo].
Defined.


(** On [create128_fails], the resize to 128x128 of the steady 64x64 session
    runs [dec_initialize] with a different output size, and the buffer is
    neither released nor reallocated. *)
Lemma creation_failure_leaves_buffer :
  exists m',
    dec_initialize 64 64 128 128 create128_fails
      (after_destroy ERR create128_fails steady64) = Ret false m' /\
    output_size_differs 128 128
      (nvp (after_destroy ERR create128_fails steady64)) = true /\
    frees 28672
      (new_events (after_destroy ERR create128_fails steady64) m') = false /\
    allocates (to_size_t (128 * 128 * 3))
      (new_events (after_destroy ERR create128_fails steady64) m') = false /\
    rgb (nvp m') = 28672.
Proof.
  eexists. split; [vm_compute; reflexivity |]. repeat split; reflexivity.
Qed.

Lemma buffer_follows_output_size_witness :
  exists m' ev,
    dec_initialize 64 64 128 128 working_engine
      (after_destroy ERR working_engine steady64) = Ret true m' /\
    trace m' =
    trace (after_destroy ERR working_engine steady64)
    ++ Called (cuvidCreateDecoder (make_crt 64 64 128 128))
              (answer CUDA_SUCCESS 0) :: ev /\
    frees 28672 ev = true /\ allocates 49152 ev = true /\
    wdst (d (nvp m')) = 128 /\ hdst (d (nvp m')) = 128.
Proof.
  exists (machine_of (dec_initialize 64 64 128 128 working_engine
                        (after_destroy ERR working_engine steady64))).
  destruct (buffer_follows_output_size 64 64 128 128 working_engine
              (after_destroy ERR working_engine steady64) true
              (machine_of (dec_initialize 64 64 128 128 working_engine
                             (after_destroy ERR working_engine steady64))))
    as [[ev [Ht [Hf [Ha [_ [_ [_ [_ Hb]]]]]]]] _].
  - vm_compute. reflexivity.
  - exists ev. split; [vm_compute; reflexivity |].
    split; [exact Ht |]. split; [exact Hf |]. split; [exact Ha |].
    exact (Hb eq_refl).
Defined.







Lemma session_releases_handles_witness :
  session [Decode 0 (packet 64 64)] working_engine boot =
    Ret tt (machine_of
              (session [Decode 0 (packet 64 64)] working_engine boot)) /\
  exists ev,
    trace (machine_of
             (session [Decode 0 (packet 64 64)] working_engine boot)) =
      trace boot ++ ev /\
    follow decoder_step false ev = Some false /\
    follow parser_step false ev = Some false /\
    follow converter_step None ev = Some None.
Proof.
  assert (H : session [Decode 0 (packet 64 64)] working_engine boot =
              Ret tt (machine_of
                        (session [Decode 0 (packet 64 64)] working_engine
                           boot)))
    by (vm_compute; reflexivity).
  split; [exact H |].
  exact (session_releases_handles _ working_engine boot _ H).
Defined.

Lemma success_delivers_a_frame_witness :
  nvp_cuvid_decode 0 (packet 64 64) working_engine fresh =
    Ret NVPIPE_SUCCESS steady64 /\
  exists pre dec mrs made f mid u,
    trace steady64 =
      trace fresh ++ pre
        ++ Called (cuvidMapVideoFrame (Some dec) 0 1) mrs
        :: made ++ mid
        ++ Called (cuvidUnmapVideoFrame (Some dec) (r_value mrs)) u
        :: unmap_warning u /\
    forallb not_successful_map pre = true /\
    CU_ok mrs = true /\
    makes_converter made = true /\
    decoder (nvp steady64) = Some dec /\ reorg (nvp steady64) = Some f /\
    forallb conversion_event mid = true /\
    calls_of mid =
      [reorg_submit f (r_value mrs) 64 64 (rgb (nvp steady64)) (r_pitch mrs);
       cuMemcpyDtoHAsync 4096 (rgb (nvp steady64)) (to_size_t (64 * 64 * 3))
         (strm f);
       reorg_sync f] /\
    all_ok mid = true.
Proof.
  assert (H : nvp_cuvid_decode 0 (packet 64 64) working_engine fresh =
              Ret NVPIPE_SUCCESS steady64) by (vm_compute; reflexivity).
  split; [exact H |].
  exact (success_delivers_a_frame 0 (packet 64 64) working_engine fresh
           steady64 H).
Defined.

Lemma working_engine_reliable : reliable working_engine.
Proof. repeat split; intros; reflexivity. Qed.

Lemma working_engine_stable : stable_stream working_engine 64 64.
Proof.
  intros k c pic Hin. unfold working_engine in Hin.
  destruct c; try (destruct dec); cbn in Hin; try contradiction.
  destruct Hin as [Hx | [Hx | []]]; [discriminate |].
  injection Hx as <-. split; reflexivity.
Qed.

Lemma recursion_depth_bounded_witness :
  (64 <> 0 /\ reliable working_engine /\ stable_stream working_engine 64 64 /\
   size_is 64 64 (nvp fresh)) /\
  finished (nvp_cuvid_decode 2 (packet 128 128) working_engine fresh)
    = true /\
  (forall k,
     nvp_cuvid_decode (2 + k) (packet 128 128) working_engine fresh =
     nvp_cuvid_decode 2 (packet 128 128) working_engine fresh) /\
  exists ev,
    trace (machine_of
             (nvp_cuvid_decode 2 (packet 128 128) working_engine fresh)) =
      trace fresh ++ ev /\
    (submissions ev <= 3)%nat.
Proof.
  assert (H0 : 64 <> 0) by lia.
  assert (H1 : size_is 64 64 (nvp fresh)) by (left; split; reflexivity).
  split; [auto using working_engine_reliable, working_engine_stable |].
  exact (recursion_depth_bounded 64 64 (packet 128 128) working_engine fresh
           H0 H0 working_engine_reliable working_engine_stable H1).
Defined.

Lemma steady_call_is_quiet_witness :
  (64 <> 0 /\ stable_stream working_engine 64 64 /\
   settled 64 64 (packet 64 64) (nvp steady64)) /\
  finished (nvp_cuvid_decode 0 (packet 64 64) working_engine steady64)
    = true /\
  settled 64 64 (packet 64 64)
    (nvp (machine_of
            (nvp_cuvid_decode 0 (packet 64 64) working_engine steady64))) /\
  extends_with no_reallocation steady64
    (machine_of (nvp_cuvid_decode 0 (packet 64 64) working_engine steady64)).
Proof.
  assert (H0 : 64 <> 0) by lia.
  assert (H1 : settled 64 64 (packet 64 64) (nvp steady64))
    by (repeat split; reflexivity).
  split; [auto using working_engine_stable |].
  exact (steady_call_is_quiet 64 64 (packet 64 64) working_engine steady64
           H0 H0 working_engine_stable H1).
Defined.

Lemma success_decoder_matches_stream_witness :
  (memory_reliable working_engine /\ decoder_matches (nvp fresh) /\
   nvp_cuvid_decode 1 (packet 128 128) working_engine fresh =
     Ret NVPIPE_SUCCESS
         (machine_of
            (nvp_cuvid_decode 1 (packet 128 128) working_engine fresh))) /\
  decoder (nvp (machine_of
                  (nvp_cuvid_decode 1 (packet 128 128) working_engine
                     fresh))) =
    Some (make_crt 64 64 128 128).
Proof.
  assert (H1 : decoder_matches (nvp fresh)) by exact I.
  assert (H2 : nvp_cuvid_decode 1 (packet 128 128) working_engine fresh =
               Ret NVPIPE_SUCCESS
                   (machine_of
                      (nvp_cuvid_decode 1 (packet 128 128) working_engine
                         fresh))) by (vm_compute; reflexivity).
  split; [split; [exact (proj2 working_engine_reliable) | auto] |].
  exact (success_decoder_matches_stream 1 (packet 128 128) working_engine
           fresh _ (proj2 working_engine_reliable) H1 H2).
Defined.

Lemma unserved_calls_stop_the_client_witness :
  calls [Decode 0 (packet 64 64); Decode 0 (packet 64 64)] working_engine
        fresh =
    Ret tt (machine_of
              (calls [Decode 0 (packet 64 64); Decode 0 (packet 64 64)]
                 working_engine fresh)) /\
  forallb is_decode [Decode 0 (packet 64 64); Decode 0 (packet 64 64)] = true.
Proof.
  assert (H : calls [Decode 0 (packet 64 64); Decode 0 (packet 64 64)]
                working_engine fresh =
              Ret tt (machine_of
                        (calls [Decode 0 (packet 64 64);
                                Decode 0 (packet 64 64)]
                           working_engine fresh)))
    by (vm_compute; reflexivity).
  split; [exact H |].
  exact (unserved_calls_stop_the_client _ working_engine fresh _ H).
Defined.

Lemma after_success_calls_are_quiet_witness :
  (ready (nvp fresh) /\ width (packet 128 128) <> 0 /\
   nvp_cuvid_decode 1 (packet 128 128) working_engine fresh =
     Ret NVPIPE_SUCCESS
         (machine_of
            (nvp_cuvid_decode 1 (packet 128 128) working_engine fresh)) /\
   stable_stream working_engine 64 64) /\
  finished
    (nvp_cuvid_decode 0 (packet 128 128) working_engine
       (machine_of
          (nvp_cuvid_decode 1 (packet 128 128) working_engine fresh)))
    = true /\
  settled 64 64 (packet 128 128)
    (nvp (machine_of
            (nvp_cuvid_decode 0 (packet 128 128) working_engine
               (machine_of
                  (nvp_cuvid_decode 1 (packet 128 128) working_engine
                     fresh))))) /\
  extends_with no_reallocation
    (machine_of (nvp_cuvid_decode 1 (packet 128 128) working_engine fresh))
    (machine_of
       (nvp_cuvid_decode 0 (packet 128 128) working_engine
          (machine_of
             (nvp_cuvid_decode 1 (packet 128 128) working_engine fresh)))).
Proof.
  assert (H1 : ready (nvp fresh)) by (right; reflexivity).
  assert (H2 : width (packet 128 128) <> 0) by (cbn; lia).
  assert (H3 : nvp_cuvid_decode 1 (packet 128 128) working_engine fresh =
               Ret NVPIPE_SUCCESS
                   (machine_of
                      (nvp_cuvid_decode 1 (packet 128 128) working_engine
                         fresh))) by (vm_compute; reflexivity).
  split; [auto using working_engine_stable |].
  exact (after_success_calls_are_quiet 1 (packet 128 128) working_engine
           fresh _ H1 H2 H3 working_engine_stable).
Defined.
